(** * 2048 AI engine (ai_bridge.cpp): board codec, move tables, heuristics
      and the expectimax driver.

    Integers of the C++ code are modelled in [Z] with the truncation of the
    C++ type written out: [board_t] is [uint64_t], [row_t] is [uint16_t].
    The lookup tables are C arrays of 65536 zero-initialised cells; they are
    modelled as total functions [Z -> Z] updated cell by cell.  [float] is
    IEEE 754 binary32 and [double] binary64; the C library's [pow], which
    the heuristic calls on doubles, is a parameter.  The transposition
    table is a finite map.

    The file has three parts: the program, the vocabulary of its
    specification, and the proofs. *)

From stdpp Require Import gmap.
From Stdlib Require Import ZArith Lia Bool List Btauto SpecFloat.
Import ListNotations.
Local Open Scope Z_scope.

(** * Part I: the program *)

(** ** Machine integers *)

Definition wrap64 (x : Z) : Z := Z.land x 0xFFFFFFFFFFFFFFFF.
Definition wrap16 (x : Z) : Z := Z.land x 0xFFFF.
Definition wrap8 (x : Z) : Z := Z.land x 0xFF.

(** [x << k] on a [uint64_t]. *)
Definition shl64 (x k : Z) : Z := wrap64 (Z.shiftl x k).
(** [~x] on a [uint64_t]. *)
Definition not64 (x : Z) : Z := wrap64 (Z.lnot x).
(** [x + y] on a [uint64_t]. *)
Definition add64 (x y : Z) : Z := wrap64 (x + y).

Definition is_board (b : Z) : Prop := 0 <= b < 2 ^ 64.
Definition is_row (r : Z) : Prop := 0 <= r < 65536.

(** ** BoardCodec *)

Definition ROW_MASK : Z := 0xFFFF.
Definition COL_MASK : Z := 0x000F000F000F000F.

Definition unpack_col (row : Z) : Z :=
  let tmp := row in
  Z.land (Z.lor (Z.lor (Z.lor tmp (shl64 tmp 12)) (shl64 tmp 24)) (shl64 tmp 36))
         COL_MASK.

(** The expression is evaluated in [int]; the return type [row_t] truncates. *)
Definition reverse_row (row : Z) : Z :=
  wrap16 (Z.lor (Z.lor (Z.lor (Z.shiftr row 12)
                              (Z.land (Z.shiftr row 4) 0x00F0))
                       (Z.land (Z.shiftl row 4) 0x0F00))
                (Z.shiftl row 12)).

Definition transpose (x : Z) : Z :=
  let a1 := Z.land x 0xF0F00F0FF0F00F0F in
  let a2 := Z.land x 0x0000F0F00000F0F0 in
  let a3 := Z.land x 0x0F0F00000F0F0000 in
  let a := Z.lor (Z.lor a1 (shl64 a2 12)) (Z.shiftr a3 12) in
  let b1 := Z.land a 0xFF00FF0000FF00FF in
  let b2 := Z.land a 0x00FF00FF00000000 in
  let b3 := Z.land a 0x00000000FF00FF00 in
  Z.lor (Z.lor b1 (Z.shiftr b2 24)) (shl64 b3 24).

Definition count_empty (x0 : Z) : Z :=
  let x := Z.lor x0 (Z.land (Z.shiftr x0 2) 0x3333333333333333) in
  let x := Z.lor x (Z.shiftr x 1) in
  let x := Z.land (not64 x) 0x1111111111111111 in
  let x := add64 x (Z.shiftr x 32) in
  let x := add64 x (Z.shiftr x 16) in
  let x := add64 x (Z.shiftr x 8) in
  let x := add64 x (Z.shiftr x 4) in
  Z.land x 0xf.

(** First loop of [count_distinct_tiles]: [while (board) { bitset |= 1 <<
    (board & 0xf); board >>= 4; }].  [bitset] is a [uint16_t]. *)
Fixpoint collect_ranks (fuel : nat) (board bitset : Z) : Z :=
  match fuel with
  | O => bitset
  | S fuel' =>
      if board =? 0 then bitset
      else collect_ranks fuel' (Z.shiftr board 4)
             (wrap16 (Z.lor bitset (Z.shiftl 1 (Z.land board 0xf))))
  end.

(** Second loop: [while (bitset) { bitset &= bitset - 1; count++; }]. *)
Fixpoint clear_lowest_bits (fuel : nat) (bitset count : Z) : Z :=
  match fuel with
  | O => count
  | S fuel' =>
      if bitset =? 0 then count
      else clear_lowest_bits fuel' (wrap16 (Z.land bitset (bitset - 1))) (count + 1)
  end.

(** A 64-bit board has 16 nibbles and a 16-bit line_set has 16 bits, so neither
    loop runs more than 16 times (see [collect_ranks_fuel] and
    [clear_lowest_bits_fuel]). *)
Definition count_distinct_tiles (board : Z) : Z :=
  let bitset := collect_ranks 16 board 0 in
  let bitset := Z.shiftr bitset 1 in
  clear_lowest_bits 16 bitset 0.

Fixpoint max_rank_loop (fuel : nat) (board maxrank : Z) : Z :=
  match fuel with
  | O => maxrank
  | S fuel' =>
      if board =? 0 then maxrank
      else max_rank_loop fuel' (Z.shiftr board 4) (Z.max maxrank (Z.land board 0xf))
  end.

Definition get_max_rank (board : Z) : Z := max_rank_loop 16 board 0.

(** ** Table initialisation: the row simulation *)

(** [unsigned line[4]]: the four nibbles of a row, lowest first. *)
Definition line_of_row (row : Z) : list Z :=
  [ Z.land (Z.shiftr row 0) 0xf; Z.land (Z.shiftr row 4) 0xf;
    Z.land (Z.shiftr row 8) 0xf; Z.land (Z.shiftr row 12) 0xf ].

(** [line[i]] for an index inside the array. *)
Definition line_get (line : list Z) (i : Z) : Z := nth (Z.to_nat i) line 0.
(** [line[i] = v]. *)
Definition line_set (line : list Z) (i v : Z) : list Z := <[Z.to_nat i := v]> line.

(** [for (j = i + 1; j < 4; ++j) if (line[j] != 0) break;] returns the final
    [j]; [n] bounds the number of cells left to look at. *)
Fixpoint next_nonzero (n : nat) (line : list Z) (j : Z) : Z :=
  match n with
  | O => j
  | S n' =>
      if j <? 4 then
        if negb (line_get line j =? 0) then j else next_nonzero n' line (j + 1)
      else j
  end.

(** The slide loop [for (int i = 0; i < 3; ++i) { ... }] of
    [do_init_tables].  The body may decrement [i] before the increment of
    the loop header, so the recursion is on fuel; [None] is fuel exhausted. *)
Fixpoint slide_loop (fuel : nat) (line : list Z) (i : Z) : option (list Z) :=
  match fuel with
  | O => None
  | S fuel' =>
      if i <? 3 then
        let j := next_nonzero 4 line (i + 1) in
        if j =? 4 then Some line
        else if line_get line i =? 0 then
          let line := line_set line i (line_get line j) in
          let line := line_set line j 0 in
          slide_loop fuel' line (i - 1 + 1)
        else if line_get line i =? line_get line j then
          let line := if negb (line_get line i =? 0xf)
                      then line_set line i (line_get line i + 1) else line in
          let line := line_set line j 0 in
          slide_loop fuel' line (i + 1)
        else slide_loop fuel' line (i + 1)
      else Some line
  end.

(** [row_t result = (line[0] << 0) | (line[1] << 4) | (line[2] << 8) |
    (line[3] << 12);] *)
Definition row_of_line (line : list Z) : Z :=
  wrap16 (Z.lor (Z.lor (Z.lor (Z.shiftl (line_get line 0) 0) (Z.shiftl (line_get line 1) 4))
                       (Z.shiftl (line_get line 2) 8))
                (Z.shiftl (line_get line 3) 12)).

Definition slide_fuel : nat := 8.

(** The row after the move to the left. *)
Definition move_row_left (row : Z) : option Z :=
  option_map row_of_line (slide_loop slide_fuel (line_of_row row) 0).


(** ** Lookup tables

    [static row_t row_left_table[65536]] and its siblings are
    zero-initialised arrays; every index used below is a 16-bit value. *)

Definition table_zero : Z -> Z := fun _ => 0.
Definition table_set (t : Z -> Z) (i v : Z) : Z -> Z :=
  fun k => if k =? i then v else t k.

Record move_tables := {
  row_left_table : Z -> Z;
  row_right_table : Z -> Z;
  col_up_table : Z -> Z;
  col_down_table : Z -> Z
}.

Definition move_tables_zero : move_tables :=
  {| row_left_table := table_zero; row_right_table := table_zero;
     col_up_table := table_zero; col_down_table := table_zero |}.

(** The part of the body of the loop of [do_init_tables] that fills the four
    move tables for one [row].  (The same body also fills [score_table] and
    [heur_score_table]; those entries are floats computed from [line] alone
    and are modelled in [Heuristic] below.) *)
Definition init_row (t : move_tables) (row : Z) : move_tables :=
  match slide_loop slide_fuel (line_of_row row) 0 with
  | None => t
  | Some line =>
      let result := row_of_line line in
      let rev_result := reverse_row result in
      let rev_row := reverse_row row in
      {| row_left_table :=
           table_set (row_left_table t) row (wrap16 (Z.lxor row result));
         row_right_table :=
           table_set (row_right_table t) rev_row (wrap16 (Z.lxor rev_row rev_result));
         col_up_table :=
           table_set (col_up_table t) row
                     (Z.lxor (unpack_col row) (unpack_col result));
         col_down_table :=
           table_set (col_down_table t) rev_row
                     (Z.lxor (unpack_col rev_row) (unpack_col rev_result)) |}
  end.

(** [for (unsigned row = 0; row < 65536; ++row) body]: [n] iterations
    starting at [row]. *)
Fixpoint for_rows (body : move_tables -> Z -> move_tables)
         (n : nat) (row : Z) (t : move_tables) : move_tables :=
  match n with
  | O => t
  | S n' => for_rows body n' (row + 1) (body t row)
  end.

Definition do_init_tables : move_tables :=
  for_rows init_row (Z.to_nat 65536) 0 move_tables_zero.

(** ** Move execution *)

Section Moves.
Variable t : move_tables.

Definition execute_move_0 (board : Z) : Z :=
  let ret := board in
  let tr := transpose board in
  let ret := Z.lxor ret (shl64 (col_up_table t (Z.land (Z.shiftr tr 0) ROW_MASK)) 0) in
  let ret := Z.lxor ret (shl64 (col_up_table t (Z.land (Z.shiftr tr 16) ROW_MASK)) 4) in
  let ret := Z.lxor ret (shl64 (col_up_table t (Z.land (Z.shiftr tr 32) ROW_MASK)) 8) in
  let ret := Z.lxor ret (shl64 (col_up_table t (Z.land (Z.shiftr tr 48) ROW_MASK)) 12) in
  ret.

Definition execute_move_1 (board : Z) : Z :=
  let ret := board in
  let tr := transpose board in
  let ret := Z.lxor ret (shl64 (col_down_table t (Z.land (Z.shiftr tr 0) ROW_MASK)) 0) in
  let ret := Z.lxor ret (shl64 (col_down_table t (Z.land (Z.shiftr tr 16) ROW_MASK)) 4) in
  let ret := Z.lxor ret (shl64 (col_down_table t (Z.land (Z.shiftr tr 32) ROW_MASK)) 8) in
  let ret := Z.lxor ret (shl64 (col_down_table t (Z.land (Z.shiftr tr 48) ROW_MASK)) 12) in
  ret.

Definition execute_move_2 (board : Z) : Z :=
  let ret := board in
  let ret := Z.lxor ret (shl64 (row_left_table t (Z.land (Z.shiftr board 0) ROW_MASK)) 0) in
  let ret := Z.lxor ret (shl64 (row_left_table t (Z.land (Z.shiftr board 16) ROW_MASK)) 16) in
  let ret := Z.lxor ret (shl64 (row_left_table t (Z.land (Z.shiftr board 32) ROW_MASK)) 32) in
  let ret := Z.lxor ret (shl64 (row_left_table t (Z.land (Z.shiftr board 48) ROW_MASK)) 48) in
  ret.

Definition execute_move_3 (board : Z) : Z :=
  let ret := board in
  let ret := Z.lxor ret (shl64 (row_right_table t (Z.land (Z.shiftr board 0) ROW_MASK)) 0) in
  let ret := Z.lxor ret (shl64 (row_right_table t (Z.land (Z.shiftr board 16) ROW_MASK)) 16) in
  let ret := Z.lxor ret (shl64 (row_right_table t (Z.land (Z.shiftr board 32) ROW_MASK)) 32) in
  let ret := Z.lxor ret (shl64 (row_right_table t (Z.land (Z.shiftr board 48) ROW_MASK)) 48) in
  ret.

(** [default: return ~0ULL;] *)
Definition do_execute_move (move board : Z) : Z :=
  if move =? 0 then execute_move_0 board
  else if move =? 1 then execute_move_1 board
  else if move =? 2 then execute_move_2 board
  else if move =? 3 then execute_move_3 board
  else not64 0.

Definition ai_execute_move (move board : Z) : Z := do_execute_move move board.
End Moves.

Definition ai_count_empty (board : Z) : Z := count_empty board.
Definition ai_get_max_rank (board : Z) : Z := get_max_rank board.

(** ** Floating-point arithmetic

    [float] is IEEE 754 binary32 (precision 24, emax 128) and [double] is
    binary64 (precision 53, emax 1024), both in the executable specification
    of the Standard Library. *)

Definition float := spec_float.
Definition double := spec_float.

Definition fadd : float -> float -> float := SFadd 24 128.
Definition fsub : float -> float -> float := SFsub 24 128.
Definition fmul : float -> float -> float := SFmul 24 128.
Definition fdiv : float -> float -> float := SFdiv 24 128.
Definition flt : float -> float -> bool := SFltb.
(** Conversion of an integer to [float]. *)
Definition float_of_int (z : Z) : float := binary_normalize 24 128 z 0 false.
Definition fzero : float := S754_zero false.

(** Addition and subtraction in [double]. *)
Definition dadd : double -> double -> double := SFadd 53 1024.
Definition dsub : double -> double -> double := SFsub 53 1024.

(** [std::max(a, b)] is [(a < b) ? b : a]; [std::min(a, b)] is
    [(b < a) ? b : a]. *)
Definition fmax (a b : float) : float := if flt a b then b else a.
Definition fmin (a b : float) : float := if flt b a then b else a.

(** Conversions between [float] and [double]. *)
Definition round_to (prec emax : Z) (x : spec_float) : spec_float :=
  match x with
  | S754_finite s m e => binary_normalize prec emax (cond_Zopp s (Z.pos m)) e s
  | _ => x
  end.
Definition double_of_float : float -> double := round_to 53 1024.
Definition float_of_double : double -> float := round_to 24 128.

(** Decimal literals, correctly rounded. *)
Definition SCORE_LOST_PENALTY : float := float_of_int 200000.
Definition SCORE_MONOTONICITY_POWER : float := float_of_int 4.
Definition SCORE_MONOTONICITY_WEIGHT : float := float_of_int 47.
Definition SCORE_SUM_POWER : float := fdiv (float_of_int 7) (float_of_int 2).
Definition SCORE_SUM_WEIGHT : float := float_of_int 11.
Definition SCORE_MERGES_WEIGHT : float := float_of_int 700.
Definition SCORE_EMPTY_WEIGHT : float := float_of_int 270.
Definition CPROB_THRESH_BASE : float := fdiv (float_of_int 1) (float_of_int 10000).
Definition CACHE_DEPTH_LIMIT : Z := 15.
Definition f0_9 : float := fdiv (float_of_int 9) (float_of_int 10).
Definition f0_1 : float := fdiv (float_of_int 1) (float_of_int 10).
(** The [double] literal [1e-6]. *)
Definition d1em6 : double :=
  SFdiv 53 1024 (binary_normalize 53 1024 1 0 false)
                (binary_normalize 53 1024 1000000 0 false).

(** ** Heuristic tables *)

(** Integer state of the heuristic loop of [do_init_tables]:
    [empty], [merges], [prev], [counter]. *)
Record heur_counts := {
  hc_empty : Z; hc_merges : Z; hc_prev : Z; hc_counter : Z
}.

(** One iteration of [for (int i = 0; i < 4; ++i)] on [rank = line[i]],
    without the float accumulator [sum]. *)
Definition heur_step (st : heur_counts) (rank : Z) : heur_counts :=
  if rank =? 0 then
    {| hc_empty := hc_empty st + 1; hc_merges := hc_merges st;
       hc_prev := hc_prev st; hc_counter := hc_counter st |}
  else if hc_prev st =? rank then
    {| hc_empty := hc_empty st; hc_merges := hc_merges st;
       hc_prev := rank; hc_counter := hc_counter st + 1 |}
  else if 0 <? hc_counter st then
    {| hc_empty := hc_empty st; hc_merges := hc_merges st + (1 + hc_counter st);
       hc_prev := rank; hc_counter := 0 |}
  else
    {| hc_empty := hc_empty st; hc_merges := hc_merges st;
       hc_prev := rank; hc_counter := hc_counter st |}.

Definition heur_loop (line : list Z) : heur_counts :=
  fold_left heur_step line
    {| hc_empty := 0; hc_merges := 0; hc_prev := 0; hc_counter := 0 |}.

(** [if (counter > 0) merges += 1 + counter;] after the loop. *)
Definition heur_merges (line : list Z) : Z :=
  let st := heur_loop line in
  if 0 <? hc_counter st then hc_merges st + (1 + hc_counter st) else hc_merges st.

Definition heur_empty (line : list Z) : Z := hc_empty (heur_loop line).

Section Heuristic.
(** [pow] comes from the C library; the call resolves to
    [double pow(double, double)], so both arguments are converted to
    [double] and the result is a [double]. *)
Variable pow : double -> double -> double.

(** [pow((float)rank, power)] for a [float] constant [power]. *)
Definition pow_of_rank (rank : Z) (power : float) : double :=
  pow (double_of_float (float_of_int rank)) (double_of_float power).

(** [score += (rank - 1) * (1 << rank)] for [rank >= 2]. *)
Definition row_score (line : list Z) : float :=
  fold_left (fun score rank =>
               if 2 <=? rank
               then fadd score (float_of_int ((rank - 1) * Z.shiftl 1 rank))
               else score)
            line fzero.

(** [sum += pow((float)rank, SCORE_SUM_POWER)]: the [float] accumulator is
    converted to [double], the sum is taken in [double] and converted back
    by the assignment. *)
Definition row_sum (line : list Z) : float :=
  fold_left (fun sum rank =>
               float_of_double
                 (dadd (double_of_float sum) (pow_of_rank rank SCORE_SUM_POWER)))
            line fzero.

(** [for (int i = 1; i < 4; ++i)]: the pair
    [(monotonicity_left, monotonicity_right)]; the difference of the two
    powers and its sum with the [float] accumulator are taken in
    [double]. *)
Definition row_monotonicity (line : list Z) : float * float :=
  fold_left (fun (m : float * float) i =>
               let a := line_get line (i - 1) in
               let b := line_get line i in
               if b <? a then
                 (float_of_double
                    (dadd (double_of_float (fst m))
                          (dsub (pow_of_rank a SCORE_MONOTONICITY_POWER)
                                (pow_of_rank b SCORE_MONOTONICITY_POWER))),
                  snd m)
               else
                 (fst m,
                  float_of_double
                    (dadd (double_of_float (snd m))
                          (dsub (pow_of_rank b SCORE_MONOTONICITY_POWER)
                                (pow_of_rank a SCORE_MONOTONICITY_POWER)))))
            [1; 2; 3] (fzero, fzero).

(** The value stored in [heur_score_table[row]] for a given merge count;
    [do_init_tables] uses it at [heur_merges line]. *)
Definition row_heur_with (merges : Z) (line : list Z) : float :=
  let m := row_monotonicity line in
  fsub (fsub (fadd (fadd SCORE_LOST_PENALTY
                         (fmul SCORE_EMPTY_WEIGHT (float_of_int (heur_empty line))))
                   (fmul SCORE_MERGES_WEIGHT (float_of_int merges)))
             (fmul SCORE_MONOTONICITY_WEIGHT (fmin (fst m) (snd m))))
       (fmul SCORE_SUM_WEIGHT (row_sum line)).

Definition row_heur (line : list Z) : float :=
  row_heur_with (heur_merges line) line.

(** The tables after [do_init_tables]: every row is written once, at its
    own index, from its own [line]. *)
Definition score_table (row : Z) : float := row_score (line_of_row row).
Definition heur_score_table (row : Z) : float := row_heur (line_of_row row).

Definition score_helper (board : Z) (table : Z -> float) : float :=
  fadd (fadd (fadd (table (Z.land (Z.shiftr board 0) ROW_MASK))
                   (table (Z.land (Z.shiftr board 16) ROW_MASK)))
             (table (Z.land (Z.shiftr board 32) ROW_MASK)))
       (table (Z.land (Z.shiftr board 48) ROW_MASK)).

Definition score_heur_board (board : Z) : float :=
  fadd (score_helper board heur_score_table)
       (score_helper (transpose board) heur_score_table).

Definition do_score_board (board : Z) : float := score_helper board score_table.
End Heuristic.

(** ** Expectimax search *)

Record trans_table_entry_t := {
  depth : Z;          (* uint8_t *)
  heuristic : float
}.

Record eval_state := {
  trans_table : gmap Z trans_table_entry_t;
  maxdepth : Z;
  curdepth : Z;
  cachehits : Z;
  moves_evaled : Z;   (* unsigned long *)
  depth_limit : Z
}.

Definition eval_state_init : eval_state :=
  {| trans_table := ∅; maxdepth := 0; curdepth := 0; cachehits := 0;
     moves_evaled := 0; depth_limit := 0 |}.

Definition set_trans_table (st : eval_state) (m : gmap Z trans_table_entry_t) :=
  {| trans_table := m; maxdepth := maxdepth st; curdepth := curdepth st;
     cachehits := cachehits st; moves_evaled := moves_evaled st;
     depth_limit := depth_limit st |}.
Definition set_maxdepth (st : eval_state) (v : Z) :=
  {| trans_table := trans_table st; maxdepth := v; curdepth := curdepth st;
     cachehits := cachehits st; moves_evaled := moves_evaled st;
     depth_limit := depth_limit st |}.
Definition set_curdepth (st : eval_state) (v : Z) :=
  {| trans_table := trans_table st; maxdepth := maxdepth st; curdepth := v;
     cachehits := cachehits st; moves_evaled := moves_evaled st;
     depth_limit := depth_limit st |}.
Definition set_cachehits (st : eval_state) (v : Z) :=
  {| trans_table := trans_table st; maxdepth := maxdepth st; curdepth := curdepth st;
     cachehits := v; moves_evaled := moves_evaled st;
     depth_limit := depth_limit st |}.
Definition set_moves_evaled (st : eval_state) (v : Z) :=
  {| trans_table := trans_table st; maxdepth := maxdepth st; curdepth := curdepth st;
     cachehits := cachehits st; moves_evaled := v;
     depth_limit := depth_limit st |}.
Definition set_depth_limit (st : eval_state) (v : Z) :=
  {| trans_table := trans_table st; maxdepth := maxdepth st; curdepth := curdepth st;
     cachehits := cachehits st; moves_evaled := moves_evaled st;
     depth_limit := v |}.

Section Search.
Variable t : move_tables.
Variable pow : double -> double -> double.
(** [use_cache] is [true] for the code as written; [false] removes the
    transposition-table lookup and store. *)
Variable use_cache : bool.

(** A node evaluator returns its value and the updated [eval_state];
    [None] is fuel exhausted. *)
Definition evaluator := eval_state -> Z -> float -> option (float * eval_state).

(** [for (int move = 0; move < 4; ++move)] of [score_move_node]. *)
Fixpoint move_loop (chance : evaluator) (board : Z) (cprob : float)
         (moves : list Z) (best : float) (state : eval_state)
  : option (float * eval_state) :=
  match moves with
  | [] => Some (best, state)
  | move :: moves' =>
      let newboard := do_execute_move t move board in
      let state := set_moves_evaled state (add64 (moves_evaled state) 1) in
      if negb (board =? newboard) then
        match chance state newboard cprob with
        | None => None
        | Some (v, state) => move_loop chance board cprob moves' (fmax best v) state
        end
      else move_loop chance board cprob moves' best state
  end.

(** [score_move_node], with the chance-node evaluator it calls back. *)
Definition score_move_node_with (chance : evaluator) : evaluator :=
  fun state board cprob =>
    let best := fzero in
    let state := set_curdepth state (curdepth state + 1) in
    match move_loop chance board cprob [0; 1; 2; 3] best state with
    | None => None
    | Some (best, state) => Some (best, set_curdepth state (curdepth state - 1))
    end.

(** [while (tile_2) { ... tmp >>= 4; tile_2 <<= 4; }] of
    [score_tilechoose_node]; [tile_2] becomes 0 after 16 shifts. *)
Fixpoint tile_loop (n : nat) (movenode : evaluator) (board : Z) (cprob : float)
         (tmp tile_2 : Z) (res : float) (state : eval_state)
  : option (float * eval_state) :=
  match n with
  | O => None
  | S n' =>
      if tile_2 =? 0 then Some (res, state)
      else if Z.land tmp 0xf =? 0 then
        match movenode state (Z.lor board tile_2) (fmul cprob f0_9) with
        | None => None
        | Some (v1, state) =>
            let res := fadd res (fmul v1 f0_9) in
            match movenode state (Z.lor board (shl64 tile_2 1)) (fmul cprob f0_1) with
            | None => None
            | Some (v2, state) =>
                let res := fadd res (fmul v2 f0_1) in
                tile_loop n' movenode board cprob (Z.shiftr tmp 4) (shl64 tile_2 4)
                          res state
            end
        end
      else tile_loop n' movenode board cprob (Z.shiftr tmp 4) (shl64 tile_2 4)
                     res state
  end.

(** The cache lookup at the head of [score_tilechoose_node]. *)
Definition cache_lookup (state : eval_state) (board : Z) : option float :=
  if use_cache && (curdepth state <? CACHE_DEPTH_LIMIT) then
    match trans_table state !! board with
    | Some entry =>
        if depth entry <=? curdepth state then Some (heuristic entry) else None
    | None => None
    end
  else None.

Fixpoint score_tilechoose_node (fuel : nat) : evaluator :=
  fun state board cprob =>
    match fuel with
    | O => None
    | S fuel' =>
        if flt cprob CPROB_THRESH_BASE || (depth_limit state <=? curdepth state) then
          Some (score_heur_board pow board,
                set_maxdepth state (Z.max (curdepth state) (maxdepth state)))
        else
          match cache_lookup state board with
          | Some h => Some (h, set_cachehits state (cachehits state + 1))
          | None =>
              let num_open := count_empty board in
              let cprob := fdiv cprob (float_of_int num_open) in
              match tile_loop 17 (score_move_node_with (score_tilechoose_node fuel'))
                              board cprob board 1 fzero state with
              | None => None
              | Some (res, state) =>
                  let res := fdiv res (float_of_int num_open) in
                  let state :=
                    if use_cache && (curdepth state <? CACHE_DEPTH_LIMIT) then
                      set_trans_table state
                        (<[board := {| depth := wrap8 (curdepth state);
                                       heuristic := res |}]> (trans_table state))
                    else state in
                  Some (res, state)
              end
          end
    end.

Definition score_move_node (fuel : nat) : evaluator :=
  score_move_node_with (score_tilechoose_node fuel).

(** The chance node at depth [curdepth] recurses at most
    [depth_limit - curdepth] levels. *)
Definition search_fuel (state : eval_state) : nat :=
  S (Z.to_nat (depth_limit state - curdepth state)).

(** [return score_tilechoose_node(state, newboard, 1.0f) + 1e-6;]: the sum
    is taken in [double] and converted back by the return type. *)
Definition internal_score_toplevel_move (state : eval_state) (board move : Z)
  : option (float * eval_state) :=
  let newboard := do_execute_move t move board in
  if board =? newboard then Some (float_of_int 0, state)
  else
    match score_tilechoose_node (search_fuel state) state newboard (float_of_int 1) with
    | None => None
    | Some (v, state) =>
        Some (float_of_double (SFadd 53 1024 (double_of_float v) d1em6), state)
    end.

(** [for (int move = 0; move < 4; move++)] of [ai_find_best_move]. *)
Fixpoint toplevel_loop (moves : list Z) (board : Z) (best : float) (bestmove : Z)
         (state : eval_state) : option (Z * eval_state) :=
  match moves with
  | [] => Some (bestmove, state)
  | move :: moves' =>
      match internal_score_toplevel_move state board move with
      | None => None
      | Some (res, state) =>
          if flt best res
          then toplevel_loop moves' board res move state
          else toplevel_loop moves' board best bestmove state
      end
  end.

Definition toplevel_state (board : Z) : eval_state :=
  set_depth_limit eval_state_init (Z.max 3 (count_distinct_tiles board - 2)).

Definition ai_find_best_move_ex (board : Z) : option (Z * eval_state) :=
  toplevel_loop [0; 1; 2; 3] board (float_of_int 0) (-1) (toplevel_state board).

Definition ai_find_best_move (board : Z) : option Z :=
  option_map fst (ai_find_best_move_ex board).
End Search.

(** * Part II: the vocabulary of the specification

    Rows and cells of a board, the reference semantics of the moves on
    lists of cells, the relations between two runs of the search, and the
    checkers used to run a property over every row. *)

(** The number of empty cells of a list of cells. *)
Definition count_zero (l : list Z) : Z :=
  Z.of_nat (length (filter (fun v => v =? 0) l)).

(** The tiles of a line, empty cells skipped. *)
Definition nonzero_tiles (line : list Z) : list Z :=
  filter (fun v => negb (v =? 0)) line.

(** One pass over the compacted tiles: two equal neighbours become one tile
    of the next rank (rank 15 stays 15) and the pair is consumed, so a
    merged tile does not merge again in the same pass. *)
Fixpoint merge_pairs (fuel : nat) (tiles : list Z) : list Z :=
  match fuel with
  | O => tiles
  | S fuel' =>
      match tiles with
      | a :: b :: rest =>
          if a =? b
          then (if a =? 15 then 15 else a + 1) :: merge_pairs fuel' rest
          else a :: merge_pairs fuel' (b :: rest)
      | _ => tiles
      end
  end.

Definition reference_line (line : list Z) : list Z :=
  let merged := merge_pairs (length line) (nonzero_tiles line) in
  merged ++ repeat 0 (length line - length merged).

Definition list_eqb (l1 l2 : list Z) : bool :=
  (length l1 =? length l2)%nat && forallb (fun p => fst p =? snd p) (combine l1 l2).

(** The check behind [cap_merge_keeps_one_tile], for two rank-15 tiles at
    the positions [k] and [k + 1] of the compacted [tiles]; [result] are the
    tiles after the move.  The pass pairs the two when it leaves the first
    of them alone after the tiles before it, merged or not. *)
Definition cap_pair_check (tiles result : list Z) (k : nat) : bool :=
  let pre := firstn k tiles in
  match skipn k tiles with
  | 15 :: 15 :: rest =>
      negb (list_eqb (merge_pairs 4 (pre ++ [15])) (merge_pairs 4 pre ++ [15]))
      || list_eqb result (merge_pairs 4 pre ++ 15 :: merge_pairs 4 rest)
  | _ => true
  end.

(** The highest rank of a list of cells. *)
Definition max_nibble (l : list Z) : Z := fold_right Z.max 0 l.

(** The face value of a cell: [2 ^ rank], nothing for an empty cell. *)
Definition tile_value (v : Z) : Z := if v =? 0 then 0 else 2 ^ v.

Definition cells_sum (g : Z -> Z) (l : list Z) : Z :=
  fold_right (fun v acc => g v + acc) 0 l.

(** A line is the content of [unsigned line[4]]: four ranks. *)
Definition is_line (l : list Z) : Prop :=
  exists a b c d, l = [a; b; c; d]
                  /\ 0 <= a < 16 /\ 0 <= b < 16 /\ 0 <= c < 16 /\ 0 <= d < 16.

Definition is_lineb (l : list Z) : bool :=
  (length l =? 4)%nat && forallb (fun v => (0 <=? v) && (v <? 16)) l.

(** The line after the slide loop. *)
Definition slide_line (l : list Z) : list Z :=
  match slide_loop slide_fuel l 0 with
  | Some l' => l'
  | None => l
  end.

Definition ranks : list Z := [0; 1; 2; 3; 4; 5; 6; 7; 8; 9; 10; 11; 12; 13; 14; 15].

(** [P] on each of the 65536 lines. *)
Definition all_lines (P : list Z -> bool) : bool :=
  forallb (fun a => forallb (fun b => forallb (fun c => forallb (fun d =>
    P [a; b; c; d]) ranks) ranks) ranks) ranks.

(** What one run of the slide loop on the line [l] is checked for, [l1],
    [l2], [l3] and [l4] being the lines after one to four runs: [l1] is a
    line, the reference result; no empty cell is lost, one is gained when
    the line changes, and no line is emptied; a pair of rank-15 tiles leaves
    one; the fourth run changes nothing, nor the second when the first
    gained no empty cell; the face values do not grow and are kept below
    rank 15; the highest rank grows by one at most. *)
Definition line_check_with (l l1 l2 l3 l4 : list Z) : bool :=
  let z := count_zero l in
  let z1 := count_zero l1 in
  let tiles := nonzero_tiles l in
  let result := nonzero_tiles l1 in
  let v := cells_sum tile_value l in
  let v1 := cells_sum tile_value l1 in
  let m := max_nibble l in
  let m1 := max_nibble l1 in
  is_lineb l1
  && list_eqb l1 (reference_line l)
  && ((z <=? z1) && (list_eqb l1 l || (1 <=? z1)) && (negb (z1 =? 4) || (z =? 4)))
  && (cap_pair_check tiles result 0 && cap_pair_check tiles result 1
      && cap_pair_check tiles result 2)
  && (list_eqb l4 l3 && (negb (z1 =? z) || list_eqb l2 l1))
  && ((v1 <=? v) && (negb (m <? 15) || (v1 =? v)) && (m <=? m1) && (m1 <=? m + 1)).

Definition line_check (l : list Z) : bool :=
  match slide_loop slide_fuel l 0 with
  | None => false
  | Some l1 =>
      let l2 := slide_line l1 in
      let l3 := slide_line l2 in
      line_check_with l l1 l2 l3 (slide_line l3)
  end.

(** The facts of [line_check], one by one. *)
Record line_facts (l l1 l2 l3 l4 : list Z) : Prop := {
  line_result : is_line l1;
  line_reference : l1 = reference_line l;
  line_zeros : count_zero l <= count_zero l1;
  line_moved : l1 <> l -> 1 <= count_zero l1;
  line_emptied : count_zero l1 = 4 -> count_zero l = 4;
  line_cap : forall k, (k < 3)%nat ->
             cap_pair_check (nonzero_tiles l) (nonzero_tiles l1) k = true;
  line_repeat : l4 = l3;
  line_quiet : count_zero l1 = count_zero l -> l2 = l1;
  line_value : cells_sum tile_value l1 <= cells_sum tile_value l;
  line_value_kept : max_nibble l < 15 -> cells_sum tile_value l1 = cells_sum tile_value l;
  line_max : max_nibble l <= max_nibble l1 <= max_nibble l + 1
}.

Fixpoint all_rows_from (n : nat) (r : Z) (P : Z -> bool) : bool :=
  match n with
  | O => true
  | S n' => P r && all_rows_from n' (r + 1) P
  end.

Definition slide_left (row : Z) : Z :=
  match move_row_left row with
  | Some r => r
  | None => row
  end.

Definition slide_right (row : Z) : Z :=
  reverse_row (slide_left (reverse_row row)).

(** The row that starts at bit [s] of the board: [(board >> s) & ROW_MASK]. *)
Definition board_row (b s : Z) : Z := Z.land (Z.shiftr b s) ROW_MASK.

(** The board assembled from four rows. *)
Definition join_rows (r0 r1 r2 r3 : Z) : Z :=
  Z.lor (Z.lor (Z.lor r0 (Z.shiftl r1 16)) (Z.shiftl r2 32)) (Z.shiftl r3 48).

(** Apply [f] to each row of the board. *)
Definition map_rows (f : Z -> Z) (b : Z) : Z :=
  join_rows (f (board_row b 0)) (f (board_row b 16))
            (f (board_row b 32)) (f (board_row b 48)).

(** Bit [n] belongs to nibble [n / 4], that is cell [(n / 16, (n / 4) mod 4)];
    transposition exchanges the two coordinates. *)
Definition transpose_bit (n : Z) : Z :=
  4 * (4 * ((n / 4) mod 4) + (n / 4) / 4) + n mod 4.

(** The bit of a row that lands at position [n] when the row is placed in
    row [k] and the board transposed ([-1] for none), and the bit that lands
    there when the transposed row is moved to column [k]. *)
Definition row_bit (i : Z) : Z := if (0 <=? i) && (i <? 16) then i else -1.

Definition bit_of_transposed_row (k n : Z) : Z :=
  row_bit (transpose_bit n - 16 * k).

Definition bit_of_moved_column (k n : Z) : Z :=
  if 0 <=? n - 4 * k then row_bit (transpose_bit (n - 4 * k)) else -1.

(** The first [n] nibbles of [b], lowest first: the ranks of the cells. *)
Fixpoint nibbles (n : nat) (b : Z) : list Z :=
  match n with
  | O => []
  | S n' => Z.land b 0xf :: nibbles n' (Z.shiftr b 4)
  end.

(** The number of empty cells of the 4x4 grid. *)
Definition zero_nibbles (b : Z) : Z := count_zero (nibbles 16 b).

(** The number of empty cells of a row. *)
Definition zeros_row (r : Z) : Z := count_zero (nibbles 4 r).

(** The cell at index [k] (row [k / 4], column [k mod 4]). *)
Definition nib (b k : Z) : Z := Z.land (Z.shiftr b (4 * k)) 0xf.

(** The first three statements of [count_empty]: one indicator bit per
    nibble. *)
Definition empty_indicator (x0 : Z) : Z :=
  let x := Z.lor x0 (Z.land (Z.shiftr x0 2) 0x3333333333333333) in
  let x := Z.lor x (Z.shiftr x 1) in
  Z.land (not64 x) 0x1111111111111111.

(** The remaining statements: the sum of the sixteen indicator bits, kept
    in the lowest nibble. *)
Definition sum_indicator (x : Z) : Z :=
  let x := add64 x (Z.shiftr x 32) in
  let x := add64 x (Z.shiftr x 16) in
  let x := add64 x (Z.shiftr x 8) in
  let x := add64 x (Z.shiftr x 4) in
  Z.land x 0xf.

(** One bit per list element, four positions apart. *)
Fixpoint spread (l : list bool) : Z :=
  match l with
  | [] => 0
  | c :: l' => Z.lor (Z.b2z c) (Z.shiftl (spread l') 4)
  end.

Definition count_true (l : list bool) : Z :=
  Z.of_nat (length (filter (fun c => c) l)).

(** The number of distinct nonzero ranks among the cells of the board. *)
Definition rank_present (b k : Z) : bool := existsb (Z.eqb k) (nibbles 16 b).

Definition distinct_ranks (b : Z) : Z :=
  Z.of_nat (length (filter (rank_present b)
                           [1; 2; 3; 4; 5; 6; 7; 8; 9; 10; 11; 12; 13; 14; 15])).

Definition add_rank (bitset v : Z) : Z := wrap16 (Z.lor bitset (Z.shiftl 1 v)).

Definition positions16 : list Z := [0; 1; 2; 3; 4; 5; 6; 7; 8; 9; 10; 11; 12; 13; 14; 15].

Definition popcount16 (s : Z) : Z :=
  Z.of_nat (length (filter (Z.testbit s) positions16)).

(** The bit set left after at most [fuel] iterations. *)
Fixpoint clear_lowest_rest (fuel : nat) (bitset : Z) : Z :=
  match fuel with
  | O => bitset
  | S fuel' =>
      if bitset =? 0 then bitset
      else clear_lowest_rest fuel' (wrap16 (Z.land bitset (bitset - 1)))
  end.

(** The number of bits set in a nonnegative number. *)
Fixpoint pos_bits (p : positive) : nat :=
  match p with
  | xH => 1
  | xO q => pos_bits q
  | xI q => S (pos_bits q)
  end.

Definition bit_count (s : Z) : nat :=
  match s with
  | Zpos p => pos_bits p
  | _ => 0
  end.

(** The value of a line as a row: cell [i] is nibble [i]. *)
Fixpoint pack_line (line : list Z) : Z :=
  match line with
  | [] => 0
  | v :: rest => v + 16 * pack_line rest
  end.

(** Brute-force simulation of one slide to the left on a row. *)
Definition reference_slide_left (row : Z) : Z :=
  pack_line (reference_line (nibbles 4 row)).

(** The row that [row_left_table] produces: the delta XOR-ed into the row. *)
Definition left_result (row : Z) : Z :=
  Z.lxor row (row_left_table do_init_tables row).

(** The lengths of the maximal runs of equal neighbours, given the rank
    [prev] and the length [len] of the run being read. *)
Fixpoint run_lengths_from (prev : Z) (len : nat) (tiles : list Z) : list nat :=
  match tiles with
  | [] => [len]
  | v :: rest =>
      if v =? prev then run_lengths_from prev (S len) rest
      else len :: run_lengths_from v 1 rest
  end.

Definition run_lengths (tiles : list Z) : list nat :=
  match tiles with
  | [] => []
  | v :: rest => run_lengths_from v 1 rest
  end.

(** The runs that count: two or more equal tiles. *)
Definition merge_runs (tiles : list Z) : list nat :=
  filter (fun len => (2 <=? len)%nat) (run_lengths tiles).

Definition sum_lengths (f : nat -> Z) (lens : list nat) : Z :=
  fold_right (fun len acc => f len + acc) 0 lens.

(** What the code accumulates: the length of each run of two or more. *)
Definition merge_score (tiles : list Z) : Z :=
  sum_lengths Z.of_nat (merge_runs tiles).

(** What C2 states: the length of each such run plus one. *)
Definition claimed_merge_score (tiles : list Z) : Z :=
  sum_lengths (fun len => Z.of_nat len + 1) (merge_runs tiles).

Definition run_score (len : nat) : Z :=
  if (2 <=? len)%nat then Z.of_nat len else 0.

Definition heur_final (st : heur_counts) : Z :=
  if 0 <? hc_counter st then hc_merges st + (1 + hc_counter st) else hc_merges st.

(** The same row function along the columns. *)
Definition map_cols (f : Z -> Z) (b : Z) : Z := transpose (map_rows f (transpose b)).

(** The row function of each direction, and whether it acts on columns. *)
Definition move_rows (d : Z) : Z -> Z :=
  if (d =? 0) || (d =? 2) then slide_left else slide_right.

Definition move_on_columns (d : Z) : bool := (d =? 0) || (d =? 1).

(** What a node evaluator keeps of the state: the depth it was called at,
    the depth limit [D], and a deepest level that only grows, never beyond
    what it was or [D]. *)
Definition kept (D : Z) (state state' : eval_state) : Prop :=
  curdepth state' = curdepth state /\ depth_limit state' = D /\
  maxdepth state <= maxdepth state' <= Z.max (maxdepth state) D.

(** An evaluator that returns on every state at depth [c] with limit [D]. *)
Definition returns_at (ev : evaluator) (c D : Z) : Prop :=
  forall state board cprob,
    curdepth state = c -> depth_limit state = D ->
    exists v state',
      ev state board cprob = Some (v, state') /\ kept D state state'.

(** [tile_2] after [k] iterations of the loop over the cells. *)
Definition tile_at (k : Z) : Z := if k <? 16 then 2 ^ (4 * k) else 0.

(** The sum of the face values of the tiles of a board, and of a row. *)
Definition board_value (b : Z) : Z := cells_sum tile_value (nibbles 16 b).
Definition row_value (r : Z) : Z := cells_sum tile_value (nibbles 4 r).

(** The highest rank of a row. *)
Definition row_max (r : Z) : Z := max_nibble (nibbles 4 r).

(** The counters of the state, the table apart. *)
Definition same_counters (s s' : eval_state) : Prop :=
  maxdepth s' = maxdepth s /\ curdepth s' = curdepth s /\
  cachehits s' = cachehits s /\ moves_evaled s' = moves_evaled s /\
  depth_limit s' = depth_limit s.

(** [ev_u] follows [ev_c] as long as [ev_c] records no cache hit: a run of
    [ev_c] never lowers [cachehits], and when it leaves it unchanged,
    [ev_u] returns the same value from a state with the same counters and
    gives back the same counters. *)
Definition follows_without_hit (ev_c ev_u : evaluator) : Prop :=
  forall s_c s_u board cprob v s_c',
    ev_c s_c board cprob = Some (v, s_c') ->
    cachehits s_c <= cachehits s_c' /\
    (cachehits s_c' = cachehits s_c -> same_counters s_c s_u ->
     exists s_u', ev_u s_u board cprob = Some (v, s_u') /\ same_counters s_c' s_u').

(** Two evaluators with the same results. *)
Definition same_results (ev1 ev2 : evaluator) : Prop :=
  forall state board cprob, ev1 state board cprob = ev2 state board cprob.

(** The tables computed row by row, without the loop of [do_init_tables]:
    the entry of a row is the delta of its slide. *)
Definition direct_tables : move_tables :=
  {| row_left_table := fun r => Z.lxor r (slide_left r);
     row_right_table := fun r => Z.lxor r (slide_right r);
     col_up_table := fun r => Z.lxor (unpack_col r) (unpack_col (slide_left r));
     col_down_table := fun r => Z.lxor (unpack_col r) (unpack_col (slide_right r)) |}.

Definition dmul : double -> double -> double := SFmul 53 1024.

(** A [pow] for the two exponents the program uses, 4 and 3.5: [x ^ 4] by
    multiplication and [x ^ 3.5] as the square root of [x ^ 7].  On the
    ranks 0 to 15 the products are exact, so the result is the correctly
    rounded power. *)
Definition pow_ref (x y : double) : double :=
  let x2 := dmul x x in
  if SFeqb y (binary_normalize 53 1024 4 0 false)
  then dmul x2 x2
  else SFsqrt 53 1024 (dmul (dmul (dmul x2 x2) x2) x).

(** Brute-force simulation of one slide to the right on a row, on the list
    of its cells, cell [i] being nibble [i]: the slide to the left of the
    cells read from the other end. *)
Definition reference_slide_right (row : Z) : Z :=
  pack_line (rev (reference_line (rev (nibbles 4 row)))).

(** The board with the cells of [line] in its first column, one a row. *)
Definition reference_column (line : list Z) : Z :=
  pack_line (flat_map (fun v => [v; 0; 0; 0]) line).

(** The four rows of sixteen cells; the cells of a board are its rows one
    after the other. *)
Definition grid_rows (cells : list Z) : list (list Z) :=
  [firstn 4 cells; firstn 4 (skipn 4 cells);
   firstn 4 (skipn 8 cells); firstn 4 (skipn 12 cells)].

Definition grid (b : Z) : list (list Z) := grid_rows (nibbles 16 b).

Definition board_of_grid (g : list (list Z)) : Z := pack_line (concat g).

(** The columns of a grid, as rows. *)
Definition grid_columns (g : list (list Z)) : list (list Z) :=
  map (fun c => map (fun cells => nth c cells 0) g) [0; 1; 2; 3]%nat.

(** [mirror] reverses each row of the board. *)
Definition mirror (b : Z) : Z := board_of_grid (map (@rev Z) (grid b)).

(** The board read column by column. *)
Definition reference_transpose (b : Z) : Z := board_of_grid (grid_columns (grid b)).

(** One slide to the left in each row of the grid. *)
Definition reference_move_left (b : Z) : Z :=
  board_of_grid (map reference_line (grid b)).

(** * Part III: proofs *)

(** * The slide on lines of cells *)

Lemma list_eqb_eq l1 : forall l2, list_eqb l1 l2 = true -> l1 = l2.
Proof.
  unfold list_eqb. induction l1 as [|a l1 IH]; intros [|b l2] H;
    try reflexivity; try discriminate.
  cbn [length combine forallb fst snd] in H.
  apply andb_true_iff in H as [Hl H]. apply andb_true_iff in H as [Hab H].
  apply Z.eqb_eq in Hab. subst b. f_equal. apply IH.
  apply andb_true_iff. split; assumption.
Qed.

Lemma list_eqb_refl l : list_eqb l l = true.
Proof.
  unfold list_eqb. rewrite Nat.eqb_refl. cbn [andb].
  induction l as [|x l IH]; [reflexivity|].
  cbn [combine forallb fst snd]. now rewrite Z.eqb_refl, IH.
Qed.

Lemma in_ranks v : 0 <= v < 16 -> In v ranks.
Proof. intros Hv. unfold ranks. cbn [In]. lia. Qed.

Lemma all_lines_sound P :
  all_lines P = true -> forall l, is_line l -> P l = true.
Proof.
  unfold all_lines. intros H l (a & b & c & d & -> & Ha & Hb & Hc & Hd).
  rewrite forallb_forall in H. specialize (H a (in_ranks a Ha)).
  rewrite forallb_forall in H. specialize (H b (in_ranks b Hb)).
  rewrite forallb_forall in H. specialize (H c (in_ranks c Hc)).
  rewrite forallb_forall in H. exact (H d (in_ranks d Hd)).
Qed.

Lemma is_lineb_line l : is_lineb l = true -> is_line l.
Proof.
  unfold is_lineb. intros H. apply andb_true_iff in H as [Hl H].
  apply Nat.eqb_eq in Hl.
  destruct l as [|a [|b [|c [|d [|e l]]]]]; try discriminate Hl.
  cbn [forallb] in H.
  rewrite !andb_true_iff, !Z.leb_le, !Z.ltb_lt in H.
  exists a, b, c, d. intuition lia.
Qed.

Lemma line_check_all : forall l, is_line l -> line_check l = true.
Proof. apply all_lines_sound. vm_compute. reflexivity. Qed.

Lemma line_check_with_facts l l1 l2 l3 l4 :
  line_check_with l l1 l2 l3 l4 = true -> line_facts l l1 l2 l3 l4.
Proof.
  unfold line_check_with. intros H. cbv zeta in H.
  apply andb_true_iff in H as [H Hv]. apply andb_true_iff in H as [H Hr].
  apply andb_true_iff in H as [H Hc]. apply andb_true_iff in H as [H Hz].
  apply andb_true_iff in H as [Hline Href].
  apply andb_true_iff in Hz as [Hz Hz3]. apply andb_true_iff in Hz as [Hz1 Hz2].
  apply andb_true_iff in Hc as [Hc Hc2]. apply andb_true_iff in Hc as [Hc0 Hc1].
  apply andb_true_iff in Hr as [Hr1 Hr2].
  apply andb_true_iff in Hv as [Hv Hv4]. apply andb_true_iff in Hv as [Hv Hv3].
  apply andb_true_iff in Hv as [Hv1 Hv2].
  apply Z.leb_le in Hz1, Hv1, Hv3, Hv4.
  split.
  - now apply is_lineb_line.
  - now apply list_eqb_eq.
  - exact Hz1.
  - intros Hne. apply orb_true_iff in Hz2 as [E|E].
    + apply list_eqb_eq in E. contradiction.
    + now apply Z.leb_le.
  - intros E. apply orb_true_iff in Hz3 as [E'|E'].
    + apply negb_true_iff, Z.eqb_neq in E'. contradiction.
    + now apply Z.eqb_eq.
  - intros k Hk. destruct k as [|[|[|k]]]; [exact Hc0|exact Hc1|exact Hc2|lia].
  - now apply list_eqb_eq.
  - intros E. apply orb_true_iff in Hr2 as [E'|E'].
    + apply negb_true_iff, Z.eqb_neq in E'. contradiction.
    + now apply list_eqb_eq.
  - exact Hv1.
  - intros Hm. apply orb_true_iff in Hv2 as [E'|E'].
    + apply negb_true_iff, Z.ltb_ge in E'. lia.
    + now apply Z.eqb_eq.
  - lia.
Qed.

Lemma line_check_some l :
  line_check l = true ->
  exists l1, slide_loop slide_fuel l 0 = Some l1 /\
    line_check_with l l1 (slide_line l1) (slide_line (slide_line l1))
                    (slide_line (slide_line (slide_line l1))) = true.
Proof.
  unfold line_check. destruct (slide_loop slide_fuel l 0) as [l1|].
  - intros H. exists l1. split; [reflexivity|exact H].
  - discriminate.
Qed.

(** The slide loop ends within its fuel on every line. *)
Lemma slide_loop_line l :
  is_line l -> slide_loop slide_fuel l 0 = Some (slide_line l).
Proof.
  intros Hl. destruct (line_check_some l (line_check_all l Hl)) as (l1 & Hs & _).
  unfold slide_line. rewrite Hs. reflexivity.
Qed.

Lemma slide_line_facts l :
  is_line l ->
  line_facts l (slide_line l) (slide_line (slide_line l))
             (slide_line (slide_line (slide_line l)))
             (slide_line (slide_line (slide_line (slide_line l)))).
Proof.
  intros Hl. destruct (line_check_some l (line_check_all l Hl)) as (l1 & Hs & H).
  assert (slide_line l = l1) as -> by (unfold slide_line; rewrite Hs; reflexivity).
  exact (line_check_with_facts _ _ _ _ _ H).
Qed.

Lemma slide_line_is_line l : is_line l -> is_line (slide_line l).
Proof. intros Hl. apply (line_result _ _ _ _ _ (slide_line_facts l Hl)). Qed.

(** * Bit-level reasoning *)

Lemma testbit_shiftl_full a n m :
  Z.testbit (Z.shiftl a n) m = (0 <=? m) && Z.testbit a (m - n).
Proof.
  destruct (Z.leb_spec 0 m); cbn [andb].
  - now apply Z.shiftl_spec.
  - now apply Z.testbit_neg_r.
Qed.

Lemma testbit_shiftr_full a n m :
  Z.testbit (Z.shiftr a n) m = (0 <=? m) && Z.testbit a (m + n).
Proof.
  destruct (Z.leb_spec 0 m); cbn [andb].
  - now apply Z.shiftr_spec.
  - now apply Z.testbit_neg_r.
Qed.

Lemma testbit_land_ones x k n :
  0 <= k -> Z.testbit (Z.land x (Z.ones k)) n = Z.testbit x n && (n <? k).
Proof.
  intros Hk. rewrite Z.land_spec, Z.testbit_ones by assumption.
  destruct (Z.leb_spec 0 n); cbn [andb]; [reflexivity|].
  rewrite Z.testbit_neg_r by assumption. reflexivity.
Qed.

Lemma testbit_wrap16 x n : Z.testbit (wrap16 x) n = Z.testbit x n && (n <? 16).
Proof. apply (testbit_land_ones x 16 n). lia. Qed.

Lemma testbit_wrap64 x n : Z.testbit (wrap64 x) n = Z.testbit x n && (n <? 64).
Proof. apply (testbit_land_ones x 64 n). lia. Qed.

Lemma testbit_high x k n :
  0 <= k -> 0 <= x < 2 ^ k -> k <= n -> Z.testbit x n = false.
Proof.
  intros Hk Hx Hn. destruct (Z.eq_dec x 0) as [->|Hne]; [apply Z.testbit_0_l|].
  apply Z.bits_above_log2; [lia|].
  apply Z.lt_le_trans with k; [|assumption].
  apply Z.log2_lt_pow2; lia.
Qed.

Lemma land_ones_small x k : 0 <= k -> 0 <= x < 2 ^ k -> Z.land x (Z.ones k) = x.
Proof.
  intros Hk Hx.
  rewrite Z.land_ones by assumption. apply Z.mod_small. assumption.
Qed.

Lemma land_ones_bound x k : 0 <= k -> 0 <= Z.land x (Z.ones k) < 2 ^ k.
Proof. intros Hk. rewrite Z.land_ones by assumption. apply Z.mod_pos_bound. lia. Qed.

Lemma wrap64_is_board x : is_board (wrap64 x).
Proof. apply (land_ones_bound x 64). lia. Qed.

Lemma wrap64_board b : is_board b -> wrap64 b = b.
Proof. apply (land_ones_small b 64). lia. Qed.

Lemma wrap16_is_row x : is_row (wrap16 x).
Proof. apply (land_ones_bound x 16). lia. Qed.

Lemma wrap16_row r : is_row r -> wrap16 r = r.
Proof. apply (land_ones_small r 16). lia. Qed.

Lemma row_testbit_high r n : is_row r -> 16 <= n -> Z.testbit r n = false.
Proof. intros Hr. apply (testbit_high r 16); [lia|exact Hr]. Qed.

Lemma board_testbit_high b n : is_board b -> 64 <= n -> Z.testbit b n = false.
Proof. intros Hb. apply (testbit_high b 64); [lia|exact Hb]. Qed.

Create Rewrite HintDb bits.
#[export] Hint Rewrite Z.land_spec Z.lor_spec Z.lxor_spec Z.testbit_0_l
  testbit_shiftl_full testbit_shiftr_full testbit_wrap16 testbit_wrap64 : bits.

(** Case analysis on every comparison of the goal, then propositional
    reasoning on the bits that remain. *)
Ltac split_comparisons :=
  repeat match goal with
         | |- context [?a <? ?b] => destruct (Z.ltb_spec a b); try lia
         | |- context [?a <=? ?b] => destruct (Z.leb_spec a b); try lia
         | |- context [?a =? ?b] => destruct (Z.eqb_spec a b); try lia
         end.

(** Bits known to be clear: negative positions and positions beyond the
    width of a row or board in the context. *)
Ltac clear_bits :=
  repeat match goal with
         | |- context [Z.testbit ?x ?i] =>
             rewrite (Z.testbit_neg_r x i) by lia
         | H : is_row ?x |- context [Z.testbit ?x ?i] =>
             rewrite (row_testbit_high x i H) by lia
         | H : is_board ?x |- context [Z.testbit ?x ?i] =>
             rewrite (board_testbit_high x i H) by lia
         end.

(** Two bits of the same number at positions that linear arithmetic proves
    equal are one bit: the goal is rewritten to mention one of them only. *)
Ltac merge_positions :=
  repeat match goal with
         | |- context [Z.testbit ?x ?i] =>
             match goal with
             | |- context [Z.testbit x ?j] =>
                 lazymatch i with
                 | j => fail
                 | _ => replace (Z.testbit x i) with (Z.testbit x j)
                          by (apply (f_equal (Z.testbit x)); lia)
                 end
             end
         end.

Ltac bits_simpl :=
  autorewrite with bits; split_comparisons; clear_bits; merge_positions;
  cbn [andb orb xorb negb];
  rewrite ?andb_true_r, ?andb_false_r, ?orb_false_r, ?xorb_false_r,
          ?xorb_false_l, ?orb_false_l;
  try reflexivity; try btauto.

Ltac bits_eq :=
  apply Z.bits_inj'; let n := fresh "n" in let Hn := fresh "Hn" in
  intros n Hn; bits_simpl.

Lemma wrap16_lxor_distr a b : wrap16 (Z.lxor a b) = Z.lxor (wrap16 a) (wrap16 b).
Proof. bits_eq. Qed.

Lemma wrap64_lxor_distr a b : wrap64 (Z.lxor a b) = Z.lxor (wrap64 a) (wrap64 b).
Proof. bits_eq. Qed.

Lemma wrap16_lxor a b : is_row a -> is_row b -> wrap16 (Z.lxor a b) = Z.lxor a b.
Proof. intros Ha Hb. now rewrite wrap16_lxor_distr, !wrap16_row. Qed.

Lemma lxor_is_row a b : is_row a -> is_row b -> is_row (Z.lxor a b).
Proof. intros Ha Hb. rewrite <- wrap16_lxor by assumption. apply wrap16_is_row. Qed.

Lemma lxor_is_board a b : is_board a -> is_board b -> is_board (Z.lxor a b).
Proof.
  intros Ha Hb. rewrite <- (wrap64_board a Ha), <- (wrap64_board b Hb).
  rewrite <- wrap64_lxor_distr. apply wrap64_is_board.
Qed.

Lemma lxor_cancel a b : Z.lxor a (Z.lxor a b) = b.
Proof. now rewrite <- Z.lxor_assoc, Z.lxor_nilpotent, Z.lxor_0_l. Qed.

(** * Checks over a range of numbers *)

Lemma all_rows_from_sound P n : forall r,
  all_rows_from n r P = true ->
  forall k, r <= k < r + Z.of_nat n -> P k = true.
Proof.
  induction n as [|n IH]; intros r H k Hk.
  - lia.
  - cbn [all_rows_from] in H. apply andb_true_iff in H as [Hr Hn].
    destruct (Z.eq_dec k r) as [->|Hne]; [assumption|].
    apply (IH (r + 1)); [assumption|lia].
Qed.

Lemma all_rows_upto_sound P N :
  0 <= N -> all_rows_from (Z.to_nat N) 0 P = true ->
  forall r, 0 <= r < N -> P r = true.
Proof.
  intros HN H r Hr. apply (all_rows_from_sound P _ 0 H).
  rewrite Z2Nat.id; lia.
Qed.

(** Evaluate the bits of constants and the closed positions of a goal. *)
Ltac eval_closed_bits :=
  repeat match goal with
  | |- context [Z.testbit ?c ?i] =>
      lazymatch c with Zpos _ => idtac | Z0 => idtac end;
      let v := eval vm_compute in (Z.testbit c i) in
      change (Z.testbit c i) with v
  | |- context [Z.testbit ?x (Z.neg ?p)] =>
      change (Z.testbit x (Z.neg p)) with false
  | |- context [?i <? ?j] =>
      let v := eval vm_compute in (i <? j) in change (i <? j) with v
  | |- context [?i <=? ?j] =>
      let v := eval vm_compute in (i <=? j) in change (i <=? j) with v
  | |- context [Z.testbit ?x (?a + ?b)] =>
      let v := eval vm_compute in (a + b) in change (a + b) with v
  | |- context [Z.testbit ?x (?a - ?b)] =>
      let v := eval vm_compute in (a - b) in change (a - b) with v
  end.

(** A goal about the bit at a closed position of bitwise expressions in [x]. *)
Ltac closed_bit x :=
  autorewrite with bits; eval_closed_bits;
  generalize (Z.testbit x); intro;
  cbn [andb orb xorb negb]; try reflexivity; btauto.

(** ** Rows and lines *)

Lemma nibble_mod x : Z.land x 0xf = x mod 16.
Proof. apply (Z.land_ones x 4). lia. Qed.

Lemma line_of_row_digits r :
  line_of_row r = [r mod 16; (r / 16) mod 16; (r / 256) mod 16; (r / 4096) mod 16].
Proof.
  unfold line_of_row. rewrite !nibble_mod, !Z.shiftr_div_pow2 by lia.
  now rewrite Z.div_1_r.
Qed.

Lemma line_of_row_is_line r : is_line (line_of_row r).
Proof.
  rewrite line_of_row_digits.
  exists (r mod 16), ((r / 16) mod 16), ((r / 256) mod 16), ((r / 4096) mod 16).
  split; [reflexivity|].
  split; [|split; [|split]]; apply Z.mod_pos_bound; lia.
Qed.

(** A value shifted beyond the bits of [acc] is added to it. *)
Lemma lor_shiftl_add acc x k :
  0 <= k -> 0 <= acc < 2 ^ k -> Z.lor acc (Z.shiftl x k) = acc + 2 ^ k * x.
Proof.
  intros Hk Hacc.
  assert (Z.land acc (Z.shiftl x k) = 0) as Hdisjoint.
  { apply Z.bits_inj'. intros n Hn.
    rewrite Z.land_spec, testbit_shiftl_full, Z.testbit_0_l.
    destruct (Z.lt_ge_cases n k) as [Hlt|Hge].
    - rewrite (Z.testbit_neg_r x (n - k)) by lia. now rewrite !andb_false_r.
    - now rewrite (testbit_high acc k n Hk Hacc Hge). }
  rewrite <- Z.lxor_lor by assumption.
  rewrite <- Z.add_nocarry_lxor by assumption.
  rewrite Z.shiftl_mul_pow2 by assumption. lia.
Qed.

Lemma row_of_line_digits a b c d :
  0 <= a < 16 -> 0 <= b < 16 -> 0 <= c < 16 -> 0 <= d < 16 ->
  row_of_line [a; b; c; d] = a + 16 * b + 256 * c + 4096 * d.
Proof.
  intros Ha Hb Hc Hd. unfold row_of_line, line_get.
  change (Z.to_nat 0) with 0%nat. change (Z.to_nat 1) with 1%nat.
  change (Z.to_nat 2) with 2%nat. change (Z.to_nat 3) with 3%nat.
  cbn [nth]. rewrite Z.shiftl_0_r.
  rewrite (lor_shiftl_add a b 4) by lia.
  rewrite (lor_shiftl_add _ c 8) by lia.
  rewrite (lor_shiftl_add _ d 12) by lia.
  rewrite wrap16_row by (unfold is_row; lia). lia.
Qed.

Lemma row_of_line_of_row r : is_row r -> row_of_line (line_of_row r) = r.
Proof.
  intros Hr. rewrite line_of_row_digits.
  rewrite row_of_line_digits by (apply Z.mod_pos_bound; lia).
  unfold is_row in Hr. Z.div_mod_to_equations. lia.
Qed.

Lemma line_of_row_of_line l : is_line l -> line_of_row (row_of_line l) = l.
Proof.
  intros (a & b & c & d & -> & Ha & Hb & Hc & Hd).
  rewrite row_of_line_digits by assumption. rewrite line_of_row_digits.
  f_equal; [|f_equal; [|f_equal; [|f_equal]]]; Z.div_mod_to_equations; lia.
Qed.

Lemma row_of_line_is_row l : is_row (row_of_line l).
Proof. apply wrap16_is_row. Qed.

(** ** The slide loop never runs out of fuel *)

Lemma slide_left_line r : slide_left r = row_of_line (slide_line (line_of_row r)).
Proof.
  unfold slide_left, move_row_left.
  now rewrite (slide_loop_line _ (line_of_row_is_line r)).
Qed.

Lemma line_of_slide_left r :
  line_of_row (slide_left r) = slide_line (line_of_row r).
Proof.
  rewrite slide_left_line. apply line_of_row_of_line, slide_line_is_line.
  apply line_of_row_is_line.
Qed.

Lemma slide_loop_total r :
  is_row r -> exists line, slide_loop slide_fuel (line_of_row r) 0 = Some line
                           /\ slide_left r = row_of_line line.
Proof.
  intros Hr. exists (slide_line (line_of_row r)). split.
  - apply slide_loop_line, line_of_row_is_line.
  - apply slide_left_line.
Qed.

Lemma slide_left_is_row r : is_row r -> is_row (slide_left r).
Proof. intros _. rewrite slide_left_line. apply row_of_line_is_row. Qed.

(** ** Reversal of a row *)

Lemma forall_below_16 (P : Z -> Prop) :
  (forall k : nat, (k < 16)%nat -> P (Z.of_nat k)) -> forall n, 0 <= n < 16 -> P n.
Proof. intros H n Hn. rewrite <- (Z2Nat.id n) by lia. apply H. lia. Qed.

(** Bit [m] of the reversed row is the same bit of the opposite nibble. *)
Lemma reverse_row_testbit r m :
  0 <= m < 16 ->
  Z.testbit (reverse_row (wrap16 r)) m = Z.testbit (wrap16 r) (m + 12 - 8 * (m / 4)).
Proof.
  revert m. apply forall_below_16. intros k Hk.
  unfold reverse_row.
  do 16 (destruct k as [|k];
         [ match goal with
           | |- context [Z.of_nat ?k] =>
               let v := eval vm_compute in (Z.of_nat k) in
               change (Z.of_nat k) with v
           end;
           match goal with
           | |- context [?m + 12 - 8 * (?m / 4)] =>
               let v := eval vm_compute in (m + 12 - 8 * (m / 4)) in
               change (m + 12 - 8 * (m / 4)) with v
           end;
           closed_bit r |]).
  lia.
Qed.

(** Two nibbles with the same bits. *)
Lemma nibble_ext x y s t :
  0 <= s -> 0 <= t ->
  (forall n, 0 <= n < 4 -> Z.testbit x (n + s) = Z.testbit y (n + t)) ->
  Z.land (Z.shiftr x s) 0xf = Z.land (Z.shiftr y t) 0xf.
Proof.
  intros Hs Ht H. change 0xf with (Z.ones 4).
  apply Z.bits_inj'. intros n Hn.
  rewrite !testbit_land_ones, !testbit_shiftr_full by lia.
  destruct (Z.ltb_spec n 4); [|now rewrite !andb_false_r].
  destruct (Z.leb_spec 0 n); [|lia]. cbn [andb]. rewrite !andb_true_r.
  apply H. lia.
Qed.

Lemma reverse_row_nibble r k :
  is_row r -> 0 <= k < 4 ->
  Z.land (Z.shiftr (reverse_row r) (4 * k)) 0xf = Z.land (Z.shiftr r (12 - 4 * k)) 0xf.
Proof.
  intros Hr Hk. apply nibble_ext; try lia. intros n Hn.
  rewrite <- (wrap16_row r Hr).
  rewrite reverse_row_testbit by lia. f_equal.
  Z.div_mod_to_equations. lia.
Qed.

Lemma line_of_reverse_row r :
  is_row r -> line_of_row (reverse_row r) = rev (line_of_row r).
Proof.
  intros Hr. unfold line_of_row. cbn [rev app].
  pose proof (reverse_row_nibble r 0 Hr ltac:(lia)) as H0.
  pose proof (reverse_row_nibble r 1 Hr ltac:(lia)) as H1.
  pose proof (reverse_row_nibble r 2 Hr ltac:(lia)) as H2.
  pose proof (reverse_row_nibble r 3 Hr ltac:(lia)) as H3.
  change (4 * 0) with 0 in H0. change (12 - 0) with 12 in H0.
  change (4 * 1) with 4 in H1. change (12 - 4) with 8 in H1.
  change (4 * 2) with 8 in H2. change (12 - 8) with 4 in H2.
  change (4 * 3) with 12 in H3. change (12 - 12) with 0 in H3.
  rewrite H0, H1, H2, H3. reflexivity.
Qed.

Lemma reverse_row_is_row r : is_row (reverse_row r).
Proof. apply wrap16_is_row. Qed.

Lemma reverse_row_involutive r : is_row r -> reverse_row (reverse_row r) = r.
Proof.
  intros Hr.
  rewrite <- (row_of_line_of_row (reverse_row (reverse_row r)))
    by apply reverse_row_is_row.
  rewrite line_of_reverse_row by apply reverse_row_is_row.
  rewrite line_of_reverse_row by assumption.
  rewrite rev_involutive. now apply row_of_line_of_row.
Qed.

Lemma slide_right_is_row r : is_row (slide_right r).
Proof. apply reverse_row_is_row. Qed.

Lemma reverse_row_inj r r' :
  is_row r -> is_row r' -> reverse_row r = reverse_row r' -> r = r'.
Proof.
  intros Hr Hr' H. rewrite <- (reverse_row_involutive r Hr), H.
  now apply reverse_row_involutive.
Qed.

(** ** The tables after [do_init_tables] *)

Lemma table_set_eq t i v : table_set t i v i = v.
Proof. unfold table_set. now rewrite Z.eqb_refl. Qed.

Lemma table_set_ne t i v k : k <> i -> table_set t i v k = t k.
Proof. unfold table_set. intros H. apply Z.eqb_neq in H. now rewrite H. Qed.

(** One iteration writes one cell of each table. *)
Lemma init_row_spec t row : is_row row ->
  let left := slide_left row in
  row_left_table (init_row t row) =
    table_set (row_left_table t) row (wrap16 (Z.lxor row left)) /\
  row_right_table (init_row t row) =
    table_set (row_right_table t) (reverse_row row)
              (wrap16 (Z.lxor (reverse_row row) (reverse_row left))) /\
  col_up_table (init_row t row) =
    table_set (col_up_table t) row (Z.lxor (unpack_col row) (unpack_col left)) /\
  col_down_table (init_row t row) =
    table_set (col_down_table t) (reverse_row row)
              (Z.lxor (unpack_col (reverse_row row)) (unpack_col (reverse_row left))).
Proof.
  intros Hr. destruct (slide_loop_total row Hr) as (l & Hl & Hs).
  unfold init_row. rewrite Hl, Hs. repeat split; reflexivity.
Qed.

Section ForRows.
(** A loop whose body stores [val row] at index [idx row] of the table
    selected by [proj], for an injective [idx]. *)
Variable body : move_tables -> Z -> move_tables.
Variable proj : move_tables -> Z -> Z.
Variables idx val : Z -> Z.
Hypothesis body_spec : forall t row,
  is_row row -> proj (body t row) = table_set (proj t) (idx row) (val row).
Hypothesis idx_inj : forall r r',
  is_row r -> is_row r' -> idx r = idx r' -> r = r'.

Lemma for_rows_frame n : forall row0 t k,
  0 <= row0 -> row0 + Z.of_nat n <= 65536 ->
  (forall r, row0 <= r < row0 + Z.of_nat n -> idx r <> k) ->
  proj (for_rows body n row0 t) k = proj t k.
Proof.
  induction n as [|n IH]; intros row0 t k H0 Hn Hk; [reflexivity|].
  change (for_rows body (S n) row0 t)
    with (for_rows body n (row0 + 1) (body t row0)).
  rewrite IH by (try lia; intros r Hr; apply Hk; lia).
  rewrite body_spec by (unfold is_row; lia).
  apply table_set_ne. intros ->. apply (Hk row0); [lia|reflexivity].
Qed.

Lemma for_rows_written n : forall row0 t r,
  0 <= row0 -> row0 + Z.of_nat n <= 65536 ->
  row0 <= r < row0 + Z.of_nat n ->
  proj (for_rows body n row0 t) (idx r) = val r.
Proof.
  induction n as [|n IH]; intros row0 t r H0 Hn Hr; [lia|].
  change (for_rows body (S n) row0 t)
    with (for_rows body n (row0 + 1) (body t row0)).
  destruct (Z.eq_dec r row0) as [->|Hne].
  - rewrite for_rows_frame; try lia.
    + rewrite body_spec by (unfold is_row; lia). apply table_set_eq.
    + intros r Hr' Heq. apply idx_inj in Heq; unfold is_row; lia.
  - apply IH; lia.
Qed.
End ForRows.

Lemma rows_range r : is_row r -> 0 <= r < 0 + Z.of_nat (Z.to_nat 65536).
Proof. unfold is_row. rewrite Z2Nat.id; lia. Qed.

Lemma do_init_tables_written (proj : move_tables -> Z -> Z) (idx val : Z -> Z) :
  (forall t row, is_row row ->
     proj (init_row t row) = table_set (proj t) (idx row) (val row)) ->
  (forall r r', is_row r -> is_row r' -> idx r = idx r' -> r = r') ->
  forall r, is_row r -> proj do_init_tables (idx r) = val r.
Proof.
  intros Hbody Hinj r Hr. unfold do_init_tables.
  apply for_rows_written; try assumption; try lia.
Qed.

Lemma row_left_table_init r :
  is_row r -> row_left_table do_init_tables r = Z.lxor r (slide_left r).
Proof.
  intros Hr.
  rewrite (do_init_tables_written row_left_table (fun r => r)
             (fun r => wrap16 (Z.lxor r (slide_left r)))); auto.
  - apply wrap16_lxor; [assumption|now apply slide_left_is_row].
  - intros t row Hrow. apply (init_row_spec t row Hrow).
Qed.

Lemma col_up_table_init r :
  is_row r ->
  col_up_table do_init_tables r = Z.lxor (unpack_col r) (unpack_col (slide_left r)).
Proof.
  intros Hr.
  rewrite (do_init_tables_written col_up_table (fun r => r)
             (fun r => Z.lxor (unpack_col r) (unpack_col (slide_left r)))); auto.
  intros t row Hrow. apply (init_row_spec t row Hrow).
Qed.

Lemma row_right_table_init r :
  is_row r -> row_right_table do_init_tables r = Z.lxor r (slide_right r).
Proof.
  intros Hr.
  pose proof (do_init_tables_written row_right_table reverse_row
                (fun r => wrap16 (Z.lxor (reverse_row r) (reverse_row (slide_left r))))
                (fun t row Hrow => proj1 (proj2 (init_row_spec t row Hrow)))
                reverse_row_inj (reverse_row r) (reverse_row_is_row r)) as H.
  cbv beta in H. rewrite (reverse_row_involutive r Hr) in H. rewrite H.
  unfold slide_right. apply wrap16_lxor; [assumption|apply reverse_row_is_row].
Qed.

Lemma col_down_table_init r :
  is_row r ->
  col_down_table do_init_tables r = Z.lxor (unpack_col r) (unpack_col (slide_right r)).
Proof.
  intros Hr.
  pose proof (do_init_tables_written col_down_table reverse_row
                (fun r => Z.lxor (unpack_col (reverse_row r))
                                 (unpack_col (reverse_row (slide_left r))))
                (fun t row Hrow => proj2 (proj2 (proj2 (init_row_spec t row Hrow))))
                reverse_row_inj (reverse_row r) (reverse_row_is_row r)) as H.
  cbv beta in H. rewrite (reverse_row_involutive r Hr) in H. exact H.
Qed.

(** * Boards as four rows *)

Lemma board_row_wrap16 b s : board_row b s = wrap16 (Z.shiftr b s).
Proof. reflexivity. Qed.

Lemma board_row_is_row b s : is_row (board_row b s).
Proof. rewrite board_row_wrap16. apply wrap16_is_row. Qed.

Lemma board_row_lxor a b s :
  board_row (Z.lxor a b) s = Z.lxor (board_row a s) (board_row b s).
Proof. rewrite !board_row_wrap16. bits_eq. Qed.

Lemma board_row_shl64_same d s :
  is_row d -> 0 <= s <= 48 -> board_row (shl64 d s) s = d.
Proof.
  intros Hd Hs. rewrite board_row_wrap16. unfold shl64. bits_eq.
Qed.

Lemma board_row_shl64_other d s s' :
  is_row d -> 0 <= s -> 0 <= s' -> s + 16 <= s' \/ s' + 16 <= s ->
  board_row (shl64 d s') s = 0.
Proof.
  intros Hd Hs Hs' Hne. rewrite board_row_wrap16. unfold shl64.
  destruct Hne; bits_eq.
Qed.

Lemma board_ext a b :
  is_board a -> is_board b ->
  board_row a 0 = board_row b 0 -> board_row a 16 = board_row b 16 ->
  board_row a 32 = board_row b 32 -> board_row a 48 = board_row b 48 ->
  a = b.
Proof.
  intros Ha Hb H0 H1 H2 H3. apply Z.bits_inj'. intros n Hn.
  assert (forall s, 0 <= s -> board_row a s = board_row b s ->
                    s <= n < s + 16 -> Z.testbit a n = Z.testbit b n) as Hrow.
  { intros s Hs Heq Hns.
    apply (f_equal (fun r => Z.testbit r (n - s))) in Heq.
    rewrite !board_row_wrap16 in Heq. autorewrite with bits in Heq.
    replace (n - s + s) with n in Heq by lia.
    destruct (Z.leb_spec 0 (n - s)); [|lia].
    destruct (Z.ltb_spec (n - s) 16); [|lia].
    cbn [andb] in Heq. now rewrite !andb_true_r in Heq. }
  destruct (Z.lt_ge_cases n 16); [apply (Hrow 0); lia|].
  destruct (Z.lt_ge_cases n 32); [apply (Hrow 16); lia|].
  destruct (Z.lt_ge_cases n 48); [apply (Hrow 32); lia|].
  destruct (Z.lt_ge_cases n 64); [apply (Hrow 48); lia|].
  now rewrite !board_testbit_high by assumption.
Qed.

Lemma shl64_is_board d s : is_board (shl64 d s).
Proof. apply wrap64_is_board. Qed.

Lemma join_rows_is_board r0 r1 r2 r3 :
  is_row r0 -> is_row r1 -> is_row r2 -> is_row r3 -> is_board (join_rows r0 r1 r2 r3).
Proof.
  intros H0 H1 H2 H3.
  replace (join_rows r0 r1 r2 r3) with (wrap64 (join_rows r0 r1 r2 r3));
    [apply wrap64_is_board|].
  unfold join_rows. bits_eq.
Qed.

Lemma board_row_join r0 r1 r2 r3 :
  is_row r0 -> is_row r1 -> is_row r2 -> is_row r3 ->
  board_row (join_rows r0 r1 r2 r3) 0 = r0 /\
  board_row (join_rows r0 r1 r2 r3) 16 = r1 /\
  board_row (join_rows r0 r1 r2 r3) 32 = r2 /\
  board_row (join_rows r0 r1 r2 r3) 48 = r3.
Proof.
  intros H0 H1 H2 H3. rewrite !board_row_wrap16. unfold join_rows.
  repeat split; bits_eq.
Qed.

Section MapRows.
Variable f : Z -> Z.
Hypothesis f_row : forall r, is_row r -> is_row (f r).

Lemma map_rows_is_board b : is_board (map_rows f b).
Proof. apply join_rows_is_board; apply f_row, board_row_is_row. Qed.

Lemma board_row_map_rows b s :
  s = 0 \/ s = 16 \/ s = 32 \/ s = 48 ->
  board_row (map_rows f b) s = f (board_row b s).
Proof.
  intros Hs.
  destruct (board_row_join (f (board_row b 0)) (f (board_row b 16))
                           (f (board_row b 32)) (f (board_row b 48)))
    as (E0 & E1 & E2 & E3); try (apply f_row, board_row_is_row).
  destruct Hs as [-> | [-> | [-> | ->]]]; assumption.
Qed.
End MapRows.

Lemma map_rows_id b : is_board b -> map_rows (fun r => r) b = b.
Proof.
  intros Hb. apply board_ext; try assumption.
  - apply map_rows_is_board. auto.
  - apply (board_row_map_rows (fun r => r)); auto.
  - apply (board_row_map_rows (fun r => r)); auto.
  - apply (board_row_map_rows (fun r => r)); auto.
  - apply (board_row_map_rows (fun r => r)); auto.
Qed.

Lemma map_rows_ext f g b :
  (forall r, is_row r -> f r = g r) -> map_rows f b = map_rows g b.
Proof.
  intros H. unfold map_rows. now rewrite !H by apply board_row_is_row.
Qed.

Lemma map_rows_compose f g b :
  (forall r, is_row r -> is_row (g r)) ->
  map_rows f (map_rows g b) = map_rows (fun r => f (g r)) b.
Proof.
  intros Hg. unfold map_rows at 1.
  now rewrite !(board_row_map_rows g Hg) by auto.
Qed.

(** A board changed by XOR-ing one 16-bit delta into each row: the shape of
    [execute_move_2] and [execute_move_3]. *)
Lemma lxor_row_deltas b d0 d1 d2 d3 :
  is_board b -> is_row d0 -> is_row d1 -> is_row d2 -> is_row d3 ->
  Z.lxor (Z.lxor (Z.lxor (Z.lxor b (shl64 d0 0)) (shl64 d1 16)) (shl64 d2 32))
         (shl64 d3 48)
  = join_rows (Z.lxor (board_row b 0) d0) (Z.lxor (board_row b 16) d1)
              (Z.lxor (board_row b 32) d2) (Z.lxor (board_row b 48) d3).
Proof.
  intros Hb H0 H1 H2 H3.
  pose proof (board_row_join (Z.lxor (board_row b 0) d0) (Z.lxor (board_row b 16) d1)
                (Z.lxor (board_row b 32) d2) (Z.lxor (board_row b 48) d3))
    as (E0 & E1 & E2 & E3); try (apply lxor_is_row; [apply board_row_is_row|assumption]).
  apply board_ext.
  - repeat apply lxor_is_board; try assumption; apply shl64_is_board.
  - apply join_rows_is_board; apply lxor_is_row; try assumption; apply board_row_is_row.
  - rewrite E0, !board_row_lxor, board_row_shl64_same by (assumption || lia).
    rewrite !board_row_shl64_other by (assumption || lia).
    now rewrite !Z.lxor_0_r.
  - rewrite E1, !board_row_lxor, board_row_shl64_same by (assumption || lia).
    rewrite !board_row_shl64_other by (assumption || lia).
    now rewrite !Z.lxor_0_r, ?Z.lxor_0_l.
  - rewrite E2, !board_row_lxor, board_row_shl64_same by (assumption || lia).
    rewrite !board_row_shl64_other by (assumption || lia).
    now rewrite !Z.lxor_0_r, ?Z.lxor_0_l.
  - rewrite E3, !board_row_lxor, board_row_shl64_same by (assumption || lia).
    rewrite !board_row_shl64_other by (assumption || lia).
    now rewrite !Z.lxor_0_r, ?Z.lxor_0_l.
Qed.

Lemma execute_move_2_deltas t b :
  is_board b -> (forall r, is_row r -> is_row (row_left_table t r)) ->
  execute_move_2 t b = map_rows (fun r => Z.lxor r (row_left_table t r)) b.
Proof.
  intros Hb Ht. unfold execute_move_2, map_rows.
  fold (board_row b 0) (board_row b 16) (board_row b 32) (board_row b 48).
  apply lxor_row_deltas; try assumption; apply Ht, board_row_is_row.
Qed.

Lemma execute_move_3_deltas t b :
  is_board b -> (forall r, is_row r -> is_row (row_right_table t r)) ->
  execute_move_3 t b = map_rows (fun r => Z.lxor r (row_right_table t r)) b.
Proof.
  intros Hb Ht. unfold execute_move_3, map_rows.
  fold (board_row b 0) (board_row b 16) (board_row b 32) (board_row b 48).
  apply lxor_row_deltas; try assumption; apply Ht, board_row_is_row.
Qed.

Lemma execute_move_2_rows b :
  is_board b -> execute_move_2 do_init_tables b = map_rows slide_left b.
Proof.
  intros Hb. rewrite execute_move_2_deltas; [|assumption|].
  - apply map_rows_ext. intros r Hr.
    rewrite (row_left_table_init r Hr). apply lxor_cancel.
  - intros r Hr. rewrite (row_left_table_init r Hr).
    apply lxor_is_row; [assumption|now apply slide_left_is_row].
Qed.

Lemma execute_move_3_rows b :
  is_board b -> execute_move_3 do_init_tables b = map_rows slide_right b.
Proof.
  intros Hb. rewrite execute_move_3_deltas; [|assumption|].
  - apply map_rows_ext. intros r Hr.
    rewrite (row_right_table_init r Hr). apply lxor_cancel.
  - intros r Hr. rewrite (row_right_table_init r Hr).
    apply lxor_is_row; [assumption|apply slide_right_is_row].
Qed.

(** * Transposition as a permutation of bits *)

Lemma forall_below_64 (P : Z -> Prop) :
  (forall k : nat, (k < 64)%nat -> P (Z.of_nat k)) -> forall n, 0 <= n < 64 -> P n.
Proof. intros H n Hn. rewrite <- (Z2Nat.id n) by lia. apply H. lia. Qed.

Lemma transpose_testbit x n :
  0 <= n < 64 -> Z.testbit (transpose x) n = Z.testbit x (transpose_bit n).
Proof.
  revert n. apply forall_below_64. intros k Hk.
  unfold transpose, shl64.
  do 64 (destruct k as [|k];
         [ match goal with
           | |- context [Z.of_nat ?k] =>
               let v := eval vm_compute in (Z.of_nat k) in
               change (Z.of_nat k) with v
           end;
           match goal with
           | |- context [transpose_bit ?k] =>
               let v := eval vm_compute in (transpose_bit k) in
               change (transpose_bit k) with v
           end;
           closed_bit x |]).
  lia.
Qed.

Lemma transpose_bit_spec n :
  0 <= n < 64 ->
  0 <= transpose_bit n < 64 /\ transpose_bit (transpose_bit n) = n.
Proof.
  intros Hn.
  assert ((0 <=? transpose_bit n) && (transpose_bit n <? 64)
          && (transpose_bit (transpose_bit n) =? n) = true) as H.
  { revert n Hn. apply (all_rows_upto_sound _ 64); [lia|]. vm_compute. reflexivity. }
  apply andb_true_iff in H as [H H3]. apply andb_true_iff in H as [H1 H2].
  apply Z.leb_le in H1. apply Z.ltb_lt in H2. apply Z.eqb_eq in H3. lia.
Qed.

Lemma testbit_land_const_high x c n :
  0 <= c < 2 ^ 64 -> 64 <= n -> Z.testbit (Z.land x c) n = false.
Proof.
  intros Hc Hn. rewrite Z.land_spec, (testbit_high c 64 n) by lia.
  apply andb_false_r.
Qed.

Lemma transpose_is_board x : is_board (transpose x).
Proof.
  replace (transpose x) with (wrap64 (transpose x)); [apply wrap64_is_board|].
  apply Z.bits_inj'. intros n Hn. rewrite testbit_wrap64.
  destruct (Z.ltb_spec n 64); [apply andb_true_r|].
  rewrite andb_false_r. symmetry. unfold transpose, shl64.
  rewrite !Z.lor_spec, testbit_wrap64, testbit_shiftr_full.
  rewrite !testbit_land_const_high by lia.
  destruct (Z.ltb_spec n 64); [lia|].
  now rewrite !andb_false_r.
Qed.

Lemma transpose_testbit_high x n : 64 <= n -> Z.testbit (transpose x) n = false.
Proof. intros Hn. apply board_testbit_high; [apply transpose_is_board|assumption]. Qed.

Lemma transpose_involutive b : is_board b -> transpose (transpose b) = b.
Proof.
  intros Hb. apply Z.bits_inj'. intros n Hn.
  destruct (Z.lt_ge_cases n 64) as [Hlt|Hge].
  - destruct (transpose_bit_spec n ltac:(lia)) as [Hr Hi].
    now rewrite !transpose_testbit, Hi by lia.
  - now rewrite transpose_testbit_high, board_testbit_high.
Qed.

Lemma transpose_lxor a b :
  transpose (Z.lxor a b) = Z.lxor (transpose a) (transpose b).
Proof.
  apply Z.bits_inj'. intros n Hn. rewrite Z.lxor_spec.
  destruct (Z.lt_ge_cases n 64) as [Hlt|Hge].
  - now rewrite !transpose_testbit, Z.lxor_spec by lia.
  - now rewrite !transpose_testbit_high.
Qed.

(** ** Columns *)

(** On a row, [unpack_col] agrees with [transpose] bit by bit. *)
Lemma unpack_col_testbit d n :
  0 <= n < 64 ->
  Z.testbit (unpack_col (wrap16 d)) n = Z.testbit (wrap16 d) (transpose_bit n).
Proof.
  revert n. apply forall_below_64. intros k Hk.
  unfold unpack_col, shl64, COL_MASK.
  do 64 (destruct k as [|k];
         [ match goal with
           | |- context [Z.of_nat ?k] =>
               let v := eval vm_compute in (Z.of_nat k) in
               change (Z.of_nat k) with v
           end;
           match goal with
           | |- context [transpose_bit ?k] =>
               let v := eval vm_compute in (transpose_bit k) in
               change (transpose_bit k) with v
           end;
           closed_bit d |]).
  lia.
Qed.

Lemma unpack_col_transpose d : is_row d -> unpack_col d = transpose d.
Proof.
  intros Hd. apply Z.bits_inj'. intros n Hn.
  destruct (Z.lt_ge_cases n 64) as [Hlt|Hge].
  - rewrite <- (wrap16_row d Hd) at 1.
    rewrite unpack_col_testbit, transpose_testbit, (wrap16_row d Hd) by lia.
    reflexivity.
  - rewrite transpose_testbit_high by assumption.
    unfold unpack_col, COL_MASK. apply testbit_land_const_high; [lia|assumption].
Qed.

Lemma testbit_row_bit d i : is_row d -> Z.testbit d (row_bit i) = Z.testbit d i.
Proof.
  intros Hd. unfold row_bit.
  destruct (Z.leb_spec 0 i); destruct (Z.ltb_spec i 16); cbn [andb];
    try reflexivity.
  - symmetry. now apply row_testbit_high.
  - symmetry. now apply Z.testbit_neg_r.
  - symmetry. now apply Z.testbit_neg_r.
Qed.

Lemma transposed_row_bits k n :
  0 <= k < 4 -> 0 <= n < 64 ->
  bit_of_transposed_row k n = bit_of_moved_column k n.
Proof.
  intros Hk Hn. apply Z.eqb_eq. revert n Hn.
  assert (k = 0 \/ k = 1 \/ k = 2 \/ k = 3) as [-> | [-> | [-> | ->]]] by lia;
    (apply (all_rows_upto_sound _ 64); [lia|vm_compute; reflexivity]).
Qed.

Lemma transpose_shifted_row d k :
  is_row d -> 0 <= k < 4 ->
  transpose (shl64 d (16 * k)) = shl64 (transpose d) (4 * k).
Proof.
  intros Hd Hk. apply Z.bits_inj'. intros n Hn.
  destruct (Z.lt_ge_cases n 64) as [Hlt|Hge].
  - destruct (transpose_bit_spec n (conj Hn Hlt)) as [Hr _].
    rewrite transpose_testbit by lia. unfold shl64.
    rewrite !testbit_wrap64, !testbit_shiftl_full.
    destruct (Z.ltb_spec n 64); [|lia].
    destruct (Z.ltb_spec (transpose_bit n) 64); [|lia].
    destruct (Z.leb_spec 0 n); [|lia].
    destruct (Z.leb_spec 0 (transpose_bit n)); [|lia].
    cbn [andb]. rewrite !andb_true_r.
    rewrite <- (testbit_row_bit d (transpose_bit n - 16 * k) Hd).
    change (row_bit (transpose_bit n - 16 * k)) with (bit_of_transposed_row k n).
    rewrite (transposed_row_bits k n Hk (conj Hn Hlt)).
    unfold bit_of_moved_column.
    destruct (Z.leb_spec 0 (n - 4 * k)).
    + rewrite testbit_row_bit by assumption.
      symmetry. apply transpose_testbit. lia.
    + now rewrite !Z.testbit_neg_r by lia.
  - rewrite transpose_testbit_high by assumption.
    unfold shl64. rewrite testbit_wrap64.
    destruct (Z.ltb_spec n 64); [lia|]. symmetry. apply andb_false_r.
Qed.

Lemma transpose_row d :
  is_row d ->
  transpose (shl64 d 0) = shl64 (unpack_col d) 0 /\
  transpose (shl64 d 16) = shl64 (unpack_col d) 4 /\
  transpose (shl64 d 32) = shl64 (unpack_col d) 8 /\
  transpose (shl64 d 48) = shl64 (unpack_col d) 12 /\
  unpack_col d = transpose d.
Proof.
  intros Hd. rewrite (unpack_col_transpose d Hd).
  split; [|split; [|split; [|split]]].
  - apply (transpose_shifted_row d 0 Hd). lia.
  - apply (transpose_shifted_row d 1 Hd). lia.
  - apply (transpose_shifted_row d 2 Hd). lia.
  - apply (transpose_shifted_row d 3 Hd). lia.
  - reflexivity.
Qed.

Lemma unpack_col_lxor a b :
  is_row a -> is_row b ->
  unpack_col (Z.lxor a b) = Z.lxor (unpack_col a) (unpack_col b).
Proof.
  intros Ha Hb.
  destruct (transpose_row a Ha) as (_ & _ & _ & _ & ->).
  destruct (transpose_row b Hb) as (_ & _ & _ & _ & ->).
  destruct (transpose_row (Z.lxor a b) (lxor_is_row a b Ha Hb)) as (_ & _ & _ & _ & ->).
  apply transpose_lxor.
Qed.

(** Up and down are left and right on the transposed board. *)
Lemma execute_move_0_transpose t b :
  is_board b ->
  (forall r, is_row r -> is_row (row_left_table t r)) ->
  (forall r, is_row r -> col_up_table t r = unpack_col (row_left_table t r)) ->
  execute_move_0 t b = transpose (execute_move_2 t (transpose b)).
Proof.
  intros Hb Hrow Hcol. unfold execute_move_0, execute_move_2.
  fold (board_row (transpose b) 0) (board_row (transpose b) 16)
       (board_row (transpose b) 32) (board_row (transpose b) 48).
  rewrite !transpose_lxor, (transpose_involutive b Hb).
  rewrite !Hcol by apply board_row_is_row.
  set (d0 := row_left_table t (board_row (transpose b) 0)).
  set (d1 := row_left_table t (board_row (transpose b) 16)).
  set (d2 := row_left_table t (board_row (transpose b) 32)).
  set (d3 := row_left_table t (board_row (transpose b) 48)).
  destruct (transpose_row d0) as (-> & _); [apply Hrow, board_row_is_row|].
  destruct (transpose_row d1) as (_ & -> & _); [apply Hrow, board_row_is_row|].
  destruct (transpose_row d2) as (_ & _ & -> & _); [apply Hrow, board_row_is_row|].
  destruct (transpose_row d3) as (_ & _ & _ & -> & _); [apply Hrow, board_row_is_row|].
  reflexivity.
Qed.

Lemma execute_move_1_transpose t b :
  is_board b ->
  (forall r, is_row r -> is_row (row_right_table t r)) ->
  (forall r, is_row r -> col_down_table t r = unpack_col (row_right_table t r)) ->
  execute_move_1 t b = transpose (execute_move_3 t (transpose b)).
Proof.
  intros Hb Hrow Hcol. unfold execute_move_1, execute_move_3.
  fold (board_row (transpose b) 0) (board_row (transpose b) 16)
       (board_row (transpose b) 32) (board_row (transpose b) 48).
  rewrite !transpose_lxor, (transpose_involutive b Hb).
  rewrite !Hcol by apply board_row_is_row.
  set (d0 := row_right_table t (board_row (transpose b) 0)).
  set (d1 := row_right_table t (board_row (transpose b) 16)).
  set (d2 := row_right_table t (board_row (transpose b) 32)).
  set (d3 := row_right_table t (board_row (transpose b) 48)).
  destruct (transpose_row d0) as (-> & _); [apply Hrow, board_row_is_row|].
  destruct (transpose_row d1) as (_ & -> & _); [apply Hrow, board_row_is_row|].
  destruct (transpose_row d2) as (_ & _ & -> & _); [apply Hrow, board_row_is_row|].
  destruct (transpose_row d3) as (_ & _ & _ & -> & _); [apply Hrow, board_row_is_row|].
  reflexivity.
Qed.

Lemma init_tables_rows :
  (forall r, is_row r -> is_row (row_left_table do_init_tables r)) /\
  (forall r, is_row r -> is_row (row_right_table do_init_tables r)) /\
  (forall r, is_row r ->
     col_up_table do_init_tables r = unpack_col (row_left_table do_init_tables r)) /\
  (forall r, is_row r ->
     col_down_table do_init_tables r = unpack_col (row_right_table do_init_tables r)).
Proof.
  split; [|split; [|split]]; intros r Hr.
  - rewrite (row_left_table_init r Hr).
    apply lxor_is_row; [assumption|now apply slide_left_is_row].
  - rewrite (row_right_table_init r Hr).
    apply lxor_is_row; [assumption|apply slide_right_is_row].
  - rewrite (row_left_table_init r Hr), (col_up_table_init r Hr).
    symmetry. apply unpack_col_lxor; [assumption|now apply slide_left_is_row].
  - rewrite (row_right_table_init r Hr), (col_down_table_init r Hr).
    symmetry. apply unpack_col_lxor; [assumption|apply slide_right_is_row].
Qed.

Lemma execute_move_0_rows b :
  is_board b ->
  execute_move_0 do_init_tables b = transpose (map_rows slide_left (transpose b)).
Proof.
  intros Hb. destruct init_tables_rows as (H1 & _ & H3 & _).
  rewrite execute_move_0_transpose by assumption.
  now rewrite execute_move_2_rows by apply transpose_is_board.
Qed.

Lemma execute_move_1_rows b :
  is_board b ->
  execute_move_1 do_init_tables b = transpose (map_rows slide_right (transpose b)).
Proof.
  intros Hb. destruct init_tables_rows as (_ & H2 & _ & H4).
  rewrite execute_move_1_transpose by assumption.
  now rewrite execute_move_3_rows by apply transpose_is_board.
Qed.

(** * Cells of a board *)

Lemma count_zero_app l1 l2 : count_zero (l1 ++ l2) = count_zero l1 + count_zero l2.
Proof. unfold count_zero. rewrite filter_app, length_app. lia. Qed.

Lemma count_zero_bounds l : 0 <= count_zero l <= Z.of_nat (length l).
Proof.
  unfold count_zero. pose proof (filter_length_le (fun v => v =? 0) l). lia.
Qed.

Lemma nibbles_app n m : forall b,
  nibbles (n + m) b = nibbles n b ++ nibbles m (Z.shiftr b (4 * Z.of_nat n)).
Proof.
  induction n as [|n IH]; intros b.
  - cbn [nibbles Nat.add app]. now rewrite Z.shiftr_0_r.
  - cbn [nibbles Nat.add app]. rewrite IH. f_equal. f_equal. f_equal.
    rewrite Z.shiftr_shiftr by lia. f_equal. lia.
Qed.

Lemma nibbles_land_ones n : forall x k,
  4 * Z.of_nat n <= k -> nibbles n (Z.land x (Z.ones k)) = nibbles n x.
Proof.
  induction n as [|n IH]; intros x k Hk; [reflexivity|].
  cbn [nibbles]. f_equal.
  - change 0xf with (Z.ones 4). apply Z.bits_inj'. intros i Hi.
    rewrite !testbit_land_ones by lia.
    destruct (Z.ltb_spec i 4); destruct (Z.ltb_spec i k); try lia;
      now rewrite ?andb_true_r, ?andb_false_r.
  - rewrite <- (IH (Z.shiftr x 4) (k - 4)) by lia. f_equal.
    apply Z.bits_inj'. intros i Hi.
    rewrite testbit_land_ones, !testbit_shiftr_full, testbit_land_ones by lia.
    destruct (Z.leb_spec 0 i); [|lia].
    destruct (Z.ltb_spec (i + 4) k); destruct (Z.ltb_spec i (k - 4)); try lia;
      reflexivity.
Qed.

Lemma nibbles_board_row b s : nibbles 4 (board_row b s) = nibbles 4 (Z.shiftr b s).
Proof.
  rewrite board_row_wrap16. unfold wrap16. change 0xFFFF with (Z.ones 16).
  apply nibbles_land_ones. lia.
Qed.

Lemma zero_nibbles_rows b :
  zero_nibbles b = zeros_row (board_row b 0) + zeros_row (board_row b 16)
                   + zeros_row (board_row b 32) + zeros_row (board_row b 48).
Proof.
  unfold zero_nibbles, zeros_row. rewrite !nibbles_board_row.
  change 16%nat with (4 + (4 + (4 + 4)))%nat.
  rewrite !nibbles_app, !count_zero_app, !Z.shiftr_shiftr by lia.
  rewrite Z.shiftr_0_r.
  change (4 * Z.of_nat 4) with 16. change (16 + 16) with 32. change (32 + 16) with 48.
  lia.
Qed.

Lemma zeros_row_bounds r : 0 <= zeros_row r <= 4.
Proof. apply (count_zero_bounds (nibbles 4 r)). Qed.

(** ** What a slide does to the empty cells of a row *)

Lemma nibbles_line r : nibbles 4 r = line_of_row r.
Proof.
  unfold line_of_row. cbn [nibbles]. rewrite !Z.shiftr_shiftr by lia.
  now rewrite Z.shiftr_0_r.
Qed.

Lemma zeros_row_line r : zeros_row r = count_zero (line_of_row r).
Proof. unfold zeros_row. now rewrite nibbles_line. Qed.

Lemma count_zero_4 l : is_line l -> count_zero l = 4 -> l = [0; 0; 0; 0].
Proof.
  intros (a & b & c & d & -> & _). unfold count_zero. cbn [filter].
  destruct (Z.eqb_spec a 0) as [->|]; destruct (Z.eqb_spec b 0) as [->|];
    destruct (Z.eqb_spec c 0) as [->|]; destruct (Z.eqb_spec d 0) as [->|];
    cbn [length]; intros H; try reflexivity; lia.
Qed.

Lemma count_zero_rev l : count_zero (rev l) = count_zero l.
Proof. unfold count_zero. now rewrite filter_rev, length_rev. Qed.

Lemma zeros_row_4 r : is_row r -> zeros_row r = 4 -> r = 0.
Proof.
  intros Hr H. rewrite zeros_row_line in H.
  apply count_zero_4 in H; [|apply line_of_row_is_line].
  rewrite <- (row_of_line_of_row r Hr), H. reflexivity.
Qed.

Lemma slide_row_zeros r :
  is_row r ->
  zeros_row r <= zeros_row (slide_left r) /\
  (slide_left r <> r -> 1 <= zeros_row (slide_left r)) /\
  (slide_left r = 0 -> r = 0) /\
  (zeros_row r = 4 -> r = 0).
Proof.
  intros Hr.
  pose proof (slide_line_facts _ (line_of_row_is_line r)) as F.
  rewrite !zeros_row_line, line_of_slide_left.
  split; [apply (line_zeros _ _ _ _ _ F)|]. split; [|split].
  - intros Hne. apply (line_moved _ _ _ _ _ F). intros E. apply Hne.
    rewrite slide_left_line, E. now apply row_of_line_of_row.
  - intros E. apply zeros_row_4; [assumption|]. rewrite zeros_row_line.
    apply (line_emptied _ _ _ _ _ F).
    rewrite <- line_of_slide_left, E. reflexivity.
  - rewrite <- zeros_row_line. now apply zeros_row_4.
Qed.

Lemma reverse_row_zeros r : is_row r -> zeros_row (reverse_row r) = zeros_row r.
Proof.
  intros Hr. rewrite !zeros_row_line, line_of_reverse_row by assumption.
  apply count_zero_rev.
Qed.

Lemma slide_right_zeros r :
  is_row r ->
  zeros_row r <= zeros_row (slide_right r) /\
  (slide_right r <> r -> 1 <= zeros_row (slide_right r)) /\
  (slide_right r = 0 -> r = 0).
Proof.
  intros Hr. unfold slide_right.
  pose proof (reverse_row_is_row r) as Hv.
  destruct (slide_row_zeros (reverse_row r) Hv) as (H1 & H2 & H3 & _).
  pose proof (slide_left_is_row _ Hv) as Hl.
  rewrite (reverse_row_zeros _ Hl). rewrite (reverse_row_zeros r Hr) in H1.
  split; [assumption|]. split.
  - intros Hne. apply H2. intros Heq. apply Hne. rewrite Heq.
    now apply reverse_row_involutive.
  - intros H0.
    assert (slide_left (reverse_row r) = 0) as Hz.
    { rewrite <- (reverse_row_involutive _ Hl), H0. reflexivity. }
    apply H3 in Hz. rewrite <- (reverse_row_involutive r Hr), Hz. reflexivity.
Qed.

(** ** What a move does to the empty cells of a board *)

Lemma board_row_0 s : board_row 0 s = 0.
Proof. unfold board_row. now rewrite Z.shiftr_0_l, Z.land_0_l. Qed.

Section MapRowsZeros.
Variable f : Z -> Z.
Hypothesis f_row : forall r, is_row r -> is_row (f r).
Hypothesis f_mono : forall r, is_row r -> zeros_row r <= zeros_row (f r).
Hypothesis f_moved : forall r, is_row r -> f r <> r -> 1 <= zeros_row (f r).
Hypothesis f_zero : forall r, is_row r -> f r = 0 -> r = 0.

Lemma zero_nibbles_map_rows b :
  zero_nibbles (map_rows f b) =
  zeros_row (f (board_row b 0)) + zeros_row (f (board_row b 16))
  + zeros_row (f (board_row b 32)) + zeros_row (f (board_row b 48)).
Proof.
  rewrite zero_nibbles_rows. now rewrite !(board_row_map_rows f f_row) by auto.
Qed.

Lemma map_rows_zeros_mono b : zero_nibbles b <= zero_nibbles (map_rows f b).
Proof.
  rewrite zero_nibbles_map_rows, (zero_nibbles_rows b).
  pose proof (f_mono _ (board_row_is_row b 0)).
  pose proof (f_mono _ (board_row_is_row b 16)).
  pose proof (f_mono _ (board_row_is_row b 32)).
  pose proof (f_mono _ (board_row_is_row b 48)).
  lia.
Qed.

Lemma map_rows_moved b :
  is_board b -> map_rows f b <> b -> 1 <= zero_nibbles (map_rows f b).
Proof.
  intros Hb Hne. rewrite zero_nibbles_map_rows.
  pose proof (zeros_row_bounds (f (board_row b 0))).
  pose proof (zeros_row_bounds (f (board_row b 16))).
  pose proof (zeros_row_bounds (f (board_row b 32))).
  pose proof (zeros_row_bounds (f (board_row b 48))).
  destruct (Z.eq_dec (f (board_row b 0)) (board_row b 0)) as [E0|N0];
    [|pose proof (f_moved _ (board_row_is_row b 0) N0); lia].
  destruct (Z.eq_dec (f (board_row b 16)) (board_row b 16)) as [E1|N1];
    [|pose proof (f_moved _ (board_row_is_row b 16) N1); lia].
  destruct (Z.eq_dec (f (board_row b 32)) (board_row b 32)) as [E2|N2];
    [|pose proof (f_moved _ (board_row_is_row b 32) N2); lia].
  destruct (Z.eq_dec (f (board_row b 48)) (board_row b 48)) as [E3|N3];
    [|pose proof (f_moved _ (board_row_is_row b 48) N3); lia].
  exfalso. apply Hne. apply board_ext; try assumption.
  - now apply map_rows_is_board.
  - now rewrite (board_row_map_rows f f_row) by auto.
  - now rewrite (board_row_map_rows f f_row) by auto.
  - now rewrite (board_row_map_rows f f_row) by auto.
  - now rewrite (board_row_map_rows f f_row) by auto.
Qed.

Lemma map_rows_zero b : is_board b -> map_rows f b = 0 -> b = 0.
Proof.
  intros Hb H0.
  assert (forall s, s = 0 \/ s = 16 \/ s = 32 \/ s = 48 -> board_row b s = 0) as Hs.
  { intros s Hs. apply f_zero; [apply board_row_is_row|].
    rewrite <- (board_row_map_rows f f_row b s Hs), H0. apply board_row_0. }
  apply board_ext; try assumption; try (unfold is_board; lia);
    rewrite Hs, board_row_0 by auto; reflexivity.
Qed.
End MapRowsZeros.

Lemma zero_nibbles_bounds b : 0 <= zero_nibbles b <= 16.
Proof. apply (count_zero_bounds (nibbles 16 b)). Qed.

Lemma zero_nibbles_16 b : is_board b -> zero_nibbles b = 16 -> b = 0.
Proof.
  intros Hb H. rewrite zero_nibbles_rows in H.
  pose proof (zeros_row_bounds (board_row b 0)).
  pose proof (zeros_row_bounds (board_row b 16)).
  pose proof (zeros_row_bounds (board_row b 32)).
  pose proof (zeros_row_bounds (board_row b 48)).
  assert (forall s, zeros_row (board_row b s) = 4 -> board_row b s = 0) as Hz.
  { intros s. apply (slide_row_zeros _ (board_row_is_row b s)). }
  apply board_ext; try assumption; try (unfold is_board; lia);
    rewrite Hz, board_row_0 by lia; reflexivity.
Qed.

(** ** Transposition permutes the cells *)

Lemma nibbles_nib n : forall b k,
  0 <= k ->
  nibbles n (Z.shiftr b (4 * k)) = map (fun i => nib b (k + Z.of_nat i)) (seq 0 n).
Proof.
  induction n as [|n IH]; intros b k Hk; [reflexivity|].
  cbn [nibbles seq map]. f_equal.
  - unfold nib. now rewrite Z.add_0_r.
  - rewrite Z.shiftr_shiftr by lia.
    replace (4 * k + 4) with (4 * (k + 1)) by lia.
    rewrite IH by lia. rewrite <- seq_shift, map_map.
    apply map_ext. intros i. f_equal. lia.
Qed.

Lemma count_zero_cons a l :
  count_zero (a :: l) = (if a =? 0 then 1 else 0) + count_zero l.
Proof.
  unfold count_zero. cbn [filter]. destruct (a =? 0); cbn [length]; lia.
Qed.

Lemma zero_nibbles_nib b :
  zero_nibbles b =
  count_zero (map (nib b) [0; 1; 2; 3; 4; 5; 6; 7; 8; 9; 10; 11; 12; 13; 14; 15]).
Proof.
  unfold zero_nibbles. rewrite <- (Z.shiftr_0_r b) at 1.
  change 0 with (4 * 0) at 1. rewrite nibbles_nib by lia. reflexivity.
Qed.

Lemma nib_transpose x k :
  0 <= k < 16 -> nib (transpose x) k = nib x (4 * (k mod 4) + k / 4).
Proof.
  intros Hk. unfold nib. change 0xf with (Z.ones 4).
  apply Z.bits_inj'. intros i Hi.
  rewrite !testbit_land_ones, !testbit_shiftr_full by lia.
  destruct (Z.ltb_spec i 4); [|now rewrite !andb_false_r].
  destruct (Z.leb_spec 0 i); [|lia]. cbn [andb]. rewrite !andb_true_r.
  rewrite transpose_testbit by lia. f_equal.
  unfold transpose_bit.
  replace ((i + 4 * k) / 4) with k by (Z.div_mod_to_equations; lia).
  replace ((i + 4 * k) mod 4) with i by (Z.div_mod_to_equations; lia).
  lia.
Qed.

Lemma zero_nibbles_transpose x : zero_nibbles (transpose x) = zero_nibbles x.
Proof.
  rewrite !zero_nibbles_nib. cbn [map].
  rewrite !nib_transpose by lia.
  rewrite !count_zero_cons.
  repeat match goal with
         | |- context [nib x ?e] =>
             lazymatch e with
             | _ + _ => let v := eval vm_compute in e in change e with v
             end
         end.
  unfold count_zero. cbn [filter length Z.of_nat]. lia.
Qed.

(** * [count_empty] *)

Lemma count_empty_split x : count_empty x = sum_indicator (empty_indicator x).
Proof. reflexivity. Qed.

Lemma testbit_lnot_full a n :
  Z.testbit (Z.lnot a) n = (0 <=? n) && negb (Z.testbit a n).
Proof.
  destruct (Z.leb_spec 0 n); cbn [andb].
  - now apply Z.lnot_spec.
  - now apply Z.testbit_neg_r.
Qed.
#[export] Hint Rewrite testbit_lnot_full : bits.

Lemma empty_indicator_testbit x n :
  0 <= n < 64 ->
  Z.testbit (empty_indicator x) n =
  (n mod 4 =? 0)
  && negb (Z.testbit x n || Z.testbit x (n + 1) || Z.testbit x (n + 2)
           || Z.testbit x (n + 3)).
Proof.
  revert n. apply forall_below_64. intros k Hk.
  unfold empty_indicator, not64.
  do 64 (destruct k as [|k];
         [ match goal with
           | |- context [Z.of_nat ?k] =>
               let v := eval vm_compute in (Z.of_nat k) in
               change (Z.of_nat k) with v
           end;
           match goal with
           | |- context [?a mod 4 =? 0] =>
               let v := eval vm_compute in (a mod 4 =? 0) in
               change (a mod 4 =? 0) with v
           end;
           closed_bit x |]).
  lia.
Qed.

Lemma testbit_b2z c n : 0 <= n -> Z.testbit (Z.b2z c) n = (n =? 0) && c.
Proof.
  intros Hn. destruct (Z.eqb_spec n 0) as [->|Hne]; cbn [andb].
  - apply Z.b2z_bit0.
  - apply (testbit_high _ 1); [lia| |lia]. destruct c; cbn; lia.
Qed.

Lemma testbit_spread l : forall n,
  0 <= n ->
  Z.testbit (spread l) n = (n mod 4 =? 0) && nth (Z.to_nat (n / 4)) l false.
Proof.
  induction l as [|c l IH]; intros n Hn.
  - cbn [spread]. rewrite Z.testbit_0_l.
    destruct (Z.to_nat (n / 4)); cbn [nth]; now rewrite andb_false_r.
  - cbn [spread]. rewrite Z.lor_spec, testbit_b2z, testbit_shiftl_full by assumption.
    destruct (Z.leb_spec 0 n); [|lia]. cbn [andb].
    destruct (Z.lt_ge_cases n 4) as [Hlt|Hge].
    + rewrite (Z.testbit_neg_r _ (n - 4)) by lia. rewrite orb_false_r.
      rewrite Z.mod_small, Z.div_small by lia. reflexivity.
    + rewrite IH by lia.
      destruct (Z.eqb_spec n 0); [lia|]. cbn [andb orb].
      replace ((n - 4) mod 4) with (n mod 4) by (Z.div_mod_to_equations; lia).
      replace (Z.to_nat (n / 4)) with (S (Z.to_nat ((n - 4) / 4)))
        by (Z.div_mod_to_equations; lia).
      reflexivity.
Qed.

Lemma nib_testbit x k i :
  0 <= i -> Z.testbit (nib x k) i = Z.testbit x (i + 4 * k) && (i <? 4).
Proof.
  intros Hi. unfold nib. change 0xf with (Z.ones 4).
  rewrite testbit_land_ones, testbit_shiftr_full by lia.
  destruct (Z.leb_spec 0 i); [|lia]. reflexivity.
Qed.

Lemma nib_is_zero x k :
  (nib x k =? 0) =
  negb (Z.testbit x (4 * k) || Z.testbit x (4 * k + 1) || Z.testbit x (4 * k + 2)
        || Z.testbit x (4 * k + 3)).
Proof.
  pose proof (nib_testbit x k 0 ltac:(lia)) as H0.
  pose proof (nib_testbit x k 1 ltac:(lia)) as H1.
  pose proof (nib_testbit x k 2 ltac:(lia)) as H2.
  pose proof (nib_testbit x k 3 ltac:(lia)) as H3.
  change (0 <? 4) with true in H0. change (1 <? 4) with true in H1.
  change (2 <? 4) with true in H2. change (3 <? 4) with true in H3.
  rewrite andb_true_r in H0, H1, H2, H3.
  replace (0 + 4 * k) with (4 * k) in H0 by lia.
  replace (1 + 4 * k) with (4 * k + 1) in H1 by lia.
  replace (2 + 4 * k) with (4 * k + 2) in H2 by lia.
  replace (3 + 4 * k) with (4 * k + 3) in H3 by lia.
  rewrite <- H0, <- H1, <- H2, <- H3.
  destruct (Z.eqb_spec (nib x k) 0) as [E|N].
  - rewrite E, !Z.testbit_0_l. reflexivity.
  - destruct (Z.testbit (nib x k) 0) eqn:B0; [reflexivity|].
    destruct (Z.testbit (nib x k) 1) eqn:B1; [reflexivity|].
    destruct (Z.testbit (nib x k) 2) eqn:B2; [reflexivity|].
    destruct (Z.testbit (nib x k) 3) eqn:B3; [reflexivity|].
    exfalso. apply N. apply Z.bits_inj'. intros i Hi. rewrite Z.testbit_0_l.
    destruct (Z.eq_dec i 0) as [->|]; [assumption|].
    destruct (Z.eq_dec i 1) as [->|]; [assumption|].
    destruct (Z.eq_dec i 2) as [->|]; [assumption|].
    destruct (Z.eq_dec i 3) as [->|]; [assumption|].
    rewrite nib_testbit by assumption.
    destruct (Z.ltb_spec i 4); [lia|]. apply andb_false_r.
Qed.

Lemma nth_nibbles x k :
  (k < 16)%nat -> nth k (nibbles 16 x) 0 = nib x (Z.of_nat k).
Proof.
  intros Hk. rewrite <- (Z.shiftr_0_r x) at 1. change 0 with (4 * 0) at 1.
  rewrite nibbles_nib by lia.
  rewrite (nth_indep _ 0 (nib x (0 + Z.of_nat 0))) by (now rewrite length_map, length_seq).
  rewrite (map_nth (fun i => nib x (0 + Z.of_nat i))), seq_nth by assumption.
  reflexivity.
Qed.

Lemma length_nibbles n : forall x, length (nibbles n x) = n.
Proof. induction n as [|n IH]; intros x; cbn [nibbles length]; [|rewrite IH]; reflexivity. Qed.

(** The indicator word holds one bit per empty cell. *)
Lemma empty_indicator_spread x :
  empty_indicator x = spread (map (fun v => v =? 0) (nibbles 16 x)).
Proof.
  apply Z.bits_inj'. intros n Hn. rewrite testbit_spread by assumption.
  destruct (Z.lt_ge_cases n 64) as [Hlt|Hge].
  - rewrite empty_indicator_testbit by lia.
    destruct (Z.eqb_spec (n mod 4) 0) as [Hm|]; [|reflexivity]. cbn [andb].
    assert (Z.to_nat (n / 4) < 16)%nat as Hk by (Z.div_mod_to_equations; lia).
    rewrite (nth_indep _ false ((fun v => v =? 0) 0))
      by (now rewrite length_map, length_nibbles).
    rewrite (map_nth (fun v => v =? 0)), nth_nibbles by assumption.
    rewrite nib_is_zero.
    replace (4 * Z.of_nat (Z.to_nat (n / 4))) with n by (Z.div_mod_to_equations; lia).
    reflexivity.
  - rewrite nth_overflow
      by (rewrite length_map, length_nibbles; Z.div_mod_to_equations; lia).
    rewrite andb_false_r. unfold empty_indicator.
    apply testbit_land_const_high; lia.
Qed.

(** ** The sum of the indicator bits *)

Lemma spread_cons c l : spread (c :: l) = Z.b2z c + 16 * spread l.
Proof.
  cbn [spread]. apply (lor_shiftl_add (Z.b2z c) (spread l) 4); [lia|].
  destruct c; cbn [Z.b2z]; lia.
Qed.

Lemma count_true_cons c l : count_true (c :: l) = Z.b2z c + count_true l.
Proof. unfold count_true. cbn [filter]. destruct c; cbn [length Z.b2z]; lia. Qed.

(** One statement [x += x >> k] of the sum, on a word whose lower [k] bits
    are [lo]. *)
Lemma add_shifted lo hi k :
  0 <= k -> 0 <= lo < 2 ^ k -> 0 <= hi ->
  lo + 2 ^ k * hi + hi < 2 ^ 64 ->
  add64 (lo + 2 ^ k * hi) (Z.shiftr (lo + 2 ^ k * hi) k) = lo + hi + 2 ^ k * hi.
Proof.
  intros Hk Hlo Hhi Hsum. unfold add64, wrap64.
  rewrite Z.shiftr_div_pow2 by assumption.
  replace ((lo + 2 ^ k * hi) / 2 ^ k) with hi
    by (apply (Z.div_unique _ _ hi lo); [lia|ring]).
  assert (0 <= 2 ^ k * hi) by (apply Z.mul_nonneg_nonneg; lia).
  rewrite (land_ones_small _ 64) by lia. ring.
Qed.

(** The four statements add up the sixteen nibbles of a word whose nibbles
    are 0 or 1; the sum is kept modulo 16. *)
Lemma sum_indicator_digits e0 e1 e2 e3 e4 e5 e6 e7 e8 e9 e10 e11 e12 e13 e14 e15 :
  0 <= e0 <= 1 -> 0 <= e1 <= 1 -> 0 <= e2 <= 1 -> 0 <= e3 <= 1 ->
  0 <= e4 <= 1 -> 0 <= e5 <= 1 -> 0 <= e6 <= 1 -> 0 <= e7 <= 1 ->
  0 <= e8 <= 1 -> 0 <= e9 <= 1 -> 0 <= e10 <= 1 -> 0 <= e11 <= 1 ->
  0 <= e12 <= 1 -> 0 <= e13 <= 1 -> 0 <= e14 <= 1 -> 0 <= e15 <= 1 ->
  sum_indicator
    (e0 + 16 * (e1 + 16 * (e2 + 16 * (e3 + 16 * (e4 + 16 * (e5 + 16 * (e6 + 16 * (e7
     + 16 * (e8 + 16 * (e9 + 16 * (e10 + 16 * (e11 + 16 * (e12 + 16 * (e13
     + 16 * (e14 + 16 * (e15 + 16 * 0))))))))))))))))
  = (e0 + e1 + e2 + e3 + e4 + e5 + e6 + e7 + e8 + e9 + e10 + e11 + e12 + e13 + e14 + e15)
    mod 16.
Proof.
  intros. unfold sum_indicator.
  (* the four 16-bit quarters of the word *)
  set (a0 := e0 + 16 * e1 + 256 * e2 + 4096 * e3).
  set (a1 := e4 + 16 * e5 + 256 * e6 + 4096 * e7).
  set (a2 := e8 + 16 * e9 + 256 * e10 + 4096 * e11).
  set (a3 := e12 + 16 * e13 + 256 * e14 + 4096 * e15).
  assert (0 <= a0 <= 4369 /\ 0 <= a1 <= 4369 /\ 0 <= a2 <= 4369 /\ 0 <= a3 <= 4369)
    as (B0 & B1 & B2 & B3) by (unfold a0, a1, a2, a3; lia).
  match goal with
  | |- context [add64 ?x (Z.shiftr ?x 32)] =>
      replace x with ((a0 + 65536 * a1) + 2 ^ 32 * (a2 + 65536 * a3))
        by (unfold a0, a1, a2, a3; ring)
  end.
  rewrite add_shifted by lia.
  (* the sums of the nibbles four cells apart *)
  set (n0 := e0 + e4 + e8 + e12). set (n1 := e1 + e5 + e9 + e13).
  set (n2 := e2 + e6 + e10 + e14). set (n3 := e3 + e7 + e11 + e15).
  assert (a0 + a1 + a2 + a3 = n0 + 16 * n1 + 256 * n2 + 4096 * n3) as Hs
    by (unfold a0, a1, a2, a3, n0, n1, n2, n3; ring).
  assert (0 <= n0 <= 4 /\ 0 <= n1 <= 4 /\ 0 <= n2 <= 4 /\ 0 <= n3 <= 4)
    as (N0 & N1 & N2 & N3) by (unfold n0, n1, n2, n3; lia).
  set (t := a1 + a3 + 65536 * (a2 + 65536 * a3)).
  cbv zeta.
  match goal with
  | |- context [add64 ?x (Z.shiftr ?x 16)] =>
      replace x with ((a0 + a2) + 2 ^ 16 * t) by (unfold t; ring)
  end.
  rewrite add_shifted by (unfold t; lia).
  set (u := n2 + 16 * n3 + 256 * (a2 + 65536 * a3 + t)).
  match goal with
  | |- context [add64 ?x (Z.shiftr ?x 8)] =>
      replace x with ((n0 + 16 * n1) + 2 ^ 8 * u) by (unfold u, t in *; lia)
  end.
  rewrite add_shifted by (unfold u, t; lia).
  set (w := n1 + n3 + 16 * (a2 + 65536 * a3 + t + u)).
  match goal with
  | |- context [add64 ?x (Z.shiftr ?x 4)] =>
      replace x with ((n0 + n2) + 2 ^ 4 * w) by (unfold w, u; lia)
  end.
  rewrite add_shifted by (unfold w, u, t; lia).
  rewrite nibble_mod.
  replace (n0 + n2 + w + 2 ^ 4 * w)
    with (n0 + n1 + n2 + n3 + (a2 + 65536 * a3 + t + u + w) * 16)
    by (unfold w; lia).
  rewrite Z.mod_add by lia. f_equal. unfold n0, n1, n2, n3. ring.
Qed.

Lemma sum_indicator_spread l :
  length l = 16%nat -> sum_indicator (spread l) = count_true l mod 16.
Proof.
  intros Hl.
  do 16 (destruct l as [|? l]; [discriminate Hl|]).
  destruct l; [|discriminate Hl].
  rewrite !spread_cons, !count_true_cons.
  change (spread []) with 0. change (count_true []) with 0.
  rewrite sum_indicator_digits by (match goal with |- _ <= Z.b2z ?c <= _ => destruct c; cbn [Z.b2z]; lia end).
  f_equal. lia.
Qed.

Lemma count_true_map l : count_true (map (fun v => v =? 0) l) = count_zero l.
Proof.
  unfold count_true, count_zero. f_equal.
  induction l as [|a l IH]; [reflexivity|].
  cbn [map filter]. destruct (a =? 0); cbn [length]; now rewrite IH.
Qed.

(** [count_empty] counts the empty cells modulo 16. *)
Lemma count_empty_mod x : count_empty x = zero_nibbles x mod 16.
Proof.
  rewrite count_empty_split, empty_indicator_spread.
  rewrite sum_indicator_spread by (now rewrite length_map, length_nibbles).
  now rewrite count_true_map.
Qed.

Lemma count_empty_nonzero b :
  is_board b -> b <> 0 -> count_empty b = zero_nibbles b.
Proof.
  intros Hb Hne. rewrite count_empty_mod.
  pose proof (zero_nibbles_bounds b).
  destruct (Z.eq_dec (zero_nibbles b) 16) as [E|N].
  - exfalso. apply Hne. now apply zero_nibbles_16.
  - apply Z.mod_small. lia.
Qed.

(** * [count_distinct_tiles] *)

(** ** The first loop collects the ranks in a bit set *)

Lemma testbit_add_rank s v k :
  0 <= k -> 0 <= v ->
  Z.testbit (add_rank s v) k = (Z.testbit s k || (k =? v)) && (k <? 16).
Proof.
  intros Hk Hv. unfold add_rank.
  rewrite testbit_wrap16, Z.lor_spec, Z.shiftl_1_l, Z.pow2_bits_eqb by assumption.
  now rewrite (Z.eqb_sym v k).
Qed.

Lemma nibble_range b : 0 <= Z.land b 0xf < 16.
Proof. change 0xf with (Z.ones 4). apply (land_ones_bound b 4). lia. Qed.

Lemma nibbles_range n : forall b v, In v (nibbles n b) -> 0 <= v < 16.
Proof.
  induction n as [|n IH]; intros b v Hv; [destruct Hv|].
  cbn [nibbles] in Hv. destruct Hv as [<-|Hv]; [apply nibble_range|eauto].
Qed.

Lemma testbit_fold_add_rank l : forall s k,
  0 <= k -> is_row s -> (forall v, In v l -> 0 <= v < 16) ->
  Z.testbit (fold_left add_rank l s) k =
  (Z.testbit s k || existsb (Z.eqb k) l) && (k <? 16).
Proof.
  induction l as [|v l IH]; intros s k Hk Hs Hl.
  - cbn [fold_left existsb]. rewrite orb_false_r.
    destruct (Z.ltb_spec k 16); [now rewrite andb_true_r|].
    now rewrite row_testbit_high, andb_false_r.
  - cbn [fold_left existsb].
    rewrite IH; [|assumption|apply wrap16_is_row|intros; apply Hl; now right].
    rewrite testbit_add_rank; [|assumption|apply Hl; now left].
    destruct (Z.ltb_spec k 16); [|now rewrite !andb_false_r].
    rewrite !andb_true_r. now rewrite orb_assoc.
Qed.

Lemma nibbles_zero n : nibbles n 0 = repeat 0 n.
Proof.
  induction n as [|n IH]; [reflexivity|].
  cbn [nibbles repeat]. now rewrite Z.shiftr_0_l, IH.
Qed.

Lemma fold_add_rank_zeros n : forall s,
  is_row s -> Z.shiftr (fold_left add_rank (repeat 0 n) s) 1 = Z.shiftr s 1.
Proof.
  induction n as [|n IH]; intros s Hs; [reflexivity|].
  cbn [repeat fold_left]. rewrite IH by apply wrap16_is_row.
  apply Z.bits_inj'. intros k Hk. rewrite !Z.shiftr_spec by assumption.
  rewrite testbit_add_rank by lia.
  destruct (Z.eqb_spec (k + 1) 0); [lia|]. rewrite orb_false_r.
  destruct (Z.ltb_spec (k + 1) 16); [now rewrite andb_true_r|].
  now rewrite row_testbit_high, andb_false_r by (assumption || lia).
Qed.

(** Leaving the loop early only skips cells of rank 0, whose bit is dropped
    by [bitset >>= 1]. *)
Lemma collect_ranks_fold n : forall b s,
  is_row s ->
  Z.shiftr (collect_ranks n b s) 1 = Z.shiftr (fold_left add_rank (nibbles n b) s) 1.
Proof.
  induction n as [|n IH]; intros b s Hs; [reflexivity|].
  cbn [collect_ranks]. destruct (Z.eqb_spec b 0) as [->|Hne].
  - now rewrite nibbles_zero, fold_add_rank_zeros.
  - cbn [nibbles fold_left]. apply IH, wrap16_is_row.
Qed.

(** Sixteen iterations exhaust a 64-bit board. *)
Lemma collect_ranks_fuel n : forall b s m,
  0 <= b < 16 ^ Z.of_nat n ->
  collect_ranks (n + m) b s = collect_ranks n b s.
Proof.
  induction n as [|n IH]; intros b s m Hb.
  - assert (b = 0) as -> by (cbn in Hb; lia).
    destruct m; reflexivity.
  - cbn [Nat.add collect_ranks]. destruct (Z.eqb_spec b 0); [reflexivity|].
    apply IH. rewrite Z.shiftr_div_pow2 by lia.
    rewrite Nat2Z.inj_succ, Z.pow_succ_r in Hb by lia.
    split; [apply Z.div_pos; lia|]. apply Z.div_lt_upper_bound; lia.
Qed.

(** ** The second loop counts the bits of the set *)

Lemma filter_ext_length {A} (f g : A -> bool) l :
  (forall x, In x l -> f x = g x) -> length (filter f l) = length (filter g l).
Proof. intros H. now rewrite (filter_ext_in f g l H). Qed.

Lemma pos_bits_pos p : (1 <= pos_bits p)%nat.
Proof. induction p; cbn [pos_bits]; lia. Qed.

Lemma land_pred_odd a : Z.land (2 * a + 1) (2 * a + 1 - 1) = 2 * a.
Proof.
  replace (2 * a + 1 - 1) with (2 * a) by lia.
  apply Z.bits_inj'. intros n Hn. rewrite Z.land_spec.
  destruct (Z.eq_dec n 0) as [->|Hne].
  - now rewrite Z.testbit_odd_0, Z.testbit_even_0.
  - replace n with (Z.succ (n - 1)) by lia.
    rewrite Z.testbit_odd_succ, Z.testbit_even_succ by lia. apply andb_diag.
Qed.

Lemma land_pred_even a : Z.land (2 * a) (2 * a - 1) = 2 * Z.land a (a - 1).
Proof.
  replace (2 * a - 1) with (2 * (a - 1) + 1) by lia.
  apply Z.bits_inj'. intros n Hn. rewrite Z.land_spec.
  destruct (Z.eq_dec n 0) as [->|Hne].
  - now rewrite !Z.testbit_even_0.
  - replace n with (Z.succ (n - 1)) by lia.
    rewrite Z.testbit_odd_succ, !Z.testbit_even_succ by lia.
    now rewrite Z.land_spec.
Qed.

Lemma bit_count_double a : 0 <= a -> bit_count (2 * a) = bit_count a.
Proof. intros Ha. destruct a as [|p|p]; [reflexivity|reflexivity|lia]. Qed.

(** [bitset &= bitset - 1] clears one bit. *)
Lemma bit_count_land_pred p :
  pos_bits p = S (bit_count (Z.land (Zpos p) (Zpos p - 1))).
Proof.
  induction p as [p IH|p IH|].
  - rewrite Pos2Z.inj_xI, land_pred_odd. reflexivity.
  - rewrite Pos2Z.inj_xO, land_pred_even, bit_count_double.
    + exact IH.
    + apply Z.land_nonneg. left. lia.
  - reflexivity.
Qed.

Lemma wrap16_land_row s x : is_row s -> wrap16 (Z.land s x) = Z.land s x.
Proof.
  intros Hs. apply Z.bits_inj'. intros n Hn.
  rewrite testbit_wrap16, Z.land_spec.
  destruct (Z.ltb_spec n 16); [apply andb_true_r|].
  now rewrite (row_testbit_high s n Hs), andb_false_r.
Qed.

Lemma clear_lowest_bits_count n : forall s c,
  is_row s -> (bit_count s <= n)%nat ->
  clear_lowest_bits n s c = c + Z.of_nat (bit_count s) /\ clear_lowest_rest n s = 0.
Proof.
  induction n as [|n IH]; intros s c Hs Hn.
  - destruct s as [|p|p]; cbn [bit_count] in Hn.
    + split; [cbn; lia|reflexivity].
    + pose proof (pos_bits_pos p). lia.
    + unfold is_row in Hs. lia.
  - cbn [clear_lowest_bits clear_lowest_rest].
    destruct (Z.eqb_spec s 0) as [->|Hne]; [split; [cbn; lia|reflexivity]|].
    destruct s as [|p|p]; [contradiction| |unfold is_row in Hs; lia].
    rewrite wrap16_land_row by assumption.
    cbn [bit_count] in *. rewrite (bit_count_land_pred p) in *.
    destruct (IH (Z.land (Z.pos p) (Z.pos p - 1)) (c + 1)) as [E1 E2].
    + rewrite <- wrap16_land_row by assumption. apply wrap16_is_row.
    + lia.
    + split; [rewrite E1; lia|exact E2].
Qed.

Lemma bit_count_halve s :
  0 <= s -> bit_count s = (Nat.b2n (Z.testbit s 0) + bit_count (s / 2))%nat.
Proof.
  intros Hs. destruct s as [|p|p]; [reflexivity| |lia].
  destruct p as [q|q|].
  - rewrite Pos2Z.inj_xI, Z.testbit_odd_0.
    replace ((2 * Z.pos q + 1) / 2) with (Z.pos q) by (Z.div_mod_to_equations; lia).
    reflexivity.
  - rewrite Pos2Z.inj_xO, Z.testbit_even_0.
    replace (2 * Z.pos q / 2) with (Z.pos q) by (Z.div_mod_to_equations; lia).
    reflexivity.
  - reflexivity.
Qed.

Lemma bit_count_positions n : forall s,
  0 <= s < 2 ^ Z.of_nat n ->
  bit_count s = length (filter (Z.testbit s) (map Z.of_nat (seq 0 n))).
Proof.
  induction n as [|n IH]; intros s Hs.
  - assert (s = 0) as -> by (cbn in Hs; lia). reflexivity.
  - rewrite bit_count_halve by lia.
    rewrite <- cons_seq, <- seq_shift. cbn [map filter].
    rewrite map_map.
    rewrite (IH (s / 2)).
    2:{ rewrite Nat2Z.inj_succ, Z.pow_succ_r in Hs by lia.
        split; [apply Z.div_pos; lia|apply Z.div_lt_upper_bound; lia]. }
    assert (length (filter (Z.testbit (s / 2)) (map Z.of_nat (seq 0 n)))
            = length (filter (Z.testbit s) (map (fun x => Z.of_nat (S x)) (seq 0 n)))) as E.
    { rewrite !filter_map_swap, !length_map. apply filter_ext_length.
      intros k _. cbv beta. rewrite Nat2Z.inj_succ.
      rewrite <- Z.div2_div, Z.div2_spec, Z.shiftr_spec by lia.
      reflexivity. }
    rewrite E. change (Z.of_nat 0) with 0.
    destruct (Z.testbit s 0); reflexivity.
Qed.

Lemma bit_count_popcount16 s : is_row s -> Z.of_nat (bit_count s) = popcount16 s.
Proof.
  intros Hs. unfold popcount16. f_equal.
  apply (bit_count_positions 16). exact Hs.
Qed.

Lemma bit_count_row s : is_row s -> (bit_count s <= 16)%nat.
Proof.
  intros Hs. rewrite (bit_count_positions 16 s Hs).
  pose proof (filter_length_le (Z.testbit s) (map Z.of_nat (seq 0 16))) as H.
  rewrite length_map, length_seq in H. exact H.
Qed.

Lemma clear_lowest_bits_popcount s :
  is_row s -> clear_lowest_bits 16 s 0 = popcount16 s.
Proof.
  intros Hs.
  destruct (clear_lowest_bits_count 16 s 0 Hs (bit_count_row s Hs)) as [E _].
  rewrite E, <- bit_count_popcount16 by assumption. lia.
Qed.

Lemma clear_lowest_rest_row s : is_row s -> clear_lowest_rest 16 s = 0.
Proof.
  intros Hs. apply (clear_lowest_bits_count 16 s 0 Hs (bit_count_row s Hs)).
Qed.

(** Sixteen iterations empty a 16-bit set: more fuel changes nothing. *)
Lemma clear_lowest_bits_fuel n : forall s c m,
  clear_lowest_rest n s = 0 ->
  clear_lowest_bits (n + m) s c = clear_lowest_bits n s c.
Proof.
  induction n as [|n IH]; intros s c m Hs.
  - cbn [clear_lowest_rest] in Hs. subst s. destruct m; reflexivity.
  - cbn [Nat.add clear_lowest_bits]. cbn [clear_lowest_rest] in Hs.
    destruct (Z.eqb_spec s 0); [reflexivity|]. now apply IH.
Qed.

(** ** The count *)

Lemma fold_ranks_shifted_row b :
  is_row (Z.shiftr (fold_left add_rank (nibbles 16 b) 0) 1).
Proof.
  assert (is_row 0) as H0 by (unfold is_row; lia).
  set (S := fold_left add_rank (nibbles 16 b) 0).
  replace (Z.shiftr S 1) with (wrap16 (Z.shiftr S 1)); [apply wrap16_is_row|].
  apply Z.bits_inj'. intros k Hk.
  rewrite testbit_wrap16, Z.shiftr_spec by assumption. unfold S.
  rewrite testbit_fold_add_rank; [|lia|assumption|apply nibbles_range].
  destruct (Z.ltb_spec k 16); [apply andb_true_r|].
  destruct (Z.ltb_spec (k + 1) 16); [lia|]. now rewrite !andb_false_r.
Qed.

(** The bit set counted by the second loop fits 16 bits. *)
Lemma shifted_ranks_is_row b : is_row (Z.shiftr (collect_ranks 16 b 0) 1).
Proof.
  rewrite collect_ranks_fold by (unfold is_row; lia).
  apply fold_ranks_shifted_row.
Qed.

Lemma count_distinct_tiles_spec b : count_distinct_tiles b = distinct_ranks b.
Proof.
  unfold count_distinct_tiles.
  assert (is_row 0) as H0 by (unfold is_row; lia).
  rewrite collect_ranks_fold by assumption.
  set (S := fold_left add_rank (nibbles 16 b) 0).
  assert (is_row (Z.shiftr S 1)) as Hrow.
  { replace (Z.shiftr S 1) with (wrap16 (Z.shiftr S 1)); [apply wrap16_is_row|].
    apply Z.bits_inj'. intros k Hk.
    rewrite testbit_wrap16, Z.shiftr_spec by assumption. unfold S.
    rewrite testbit_fold_add_rank; [|lia|assumption|apply nibbles_range].
    destruct (Z.ltb_spec k 16); [apply andb_true_r|].
    destruct (Z.ltb_spec (k + 1) 16); [lia|]. now rewrite !andb_false_r. }
  rewrite clear_lowest_bits_popcount by assumption.
  unfold popcount16, distinct_ranks. f_equal.
  change [1; 2; 3; 4; 5; 6; 7; 8; 9; 10; 11; 12; 13; 14; 15]
    with (map (fun k => k + 1) [0; 1; 2; 3; 4; 5; 6; 7; 8; 9; 10; 11; 12; 13; 14]).
  change positions16 with ([0; 1; 2; 3; 4; 5; 6; 7; 8; 9; 10; 11; 12; 13; 14] ++ [15]).
  rewrite filter_app, length_app.
  assert (forall k, 0 <= k ->
            Z.testbit (Z.shiftr S 1) k = rank_present b (k + 1) && (k + 1 <? 16)) as Hbit.
  { intros k Hk. rewrite Z.shiftr_spec by assumption. unfold S.
    rewrite testbit_fold_add_rank; [|lia|assumption|apply nibbles_range].
    now rewrite Z.testbit_0_l. }
  replace (filter (Z.testbit (Z.shiftr S 1)) [15]) with (@nil Z).
  2:{ cbn [filter]. rewrite Hbit by lia. now rewrite andb_false_r. }
  cbn [length]. rewrite Nat.add_0_r.
  rewrite filter_map_swap, length_map.
  apply filter_ext_length. intros k Hk.
  rewrite Hbit by (cbn in Hk; lia).
  destruct (Z.ltb_spec (k + 1) 16); [apply andb_true_r|]. cbn in Hk. lia.
Qed.

(** * Reference semantics of one slide *)

Lemma pack_line_row l : is_line l -> pack_line l = row_of_line l.
Proof.
  intros (a & b & c & d & -> & Ha & Hb & Hc & Hd).
  rewrite row_of_line_digits by assumption. cbn [pack_line]. ring.
Qed.

Lemma slide_left_reference r : is_row r -> slide_left r = reference_slide_left r.
Proof.
  intros Hr. unfold reference_slide_left. rewrite nibbles_line.
  pose proof (slide_line_facts _ (line_of_row_is_line r)) as F.
  rewrite <- (line_reference _ _ _ _ _ F).
  rewrite pack_line_row by apply (line_result _ _ _ _ _ F).
  apply slide_left_line.
Qed.

(** * Properties of the engine *)

Lemma do_execute_move_0 t b : do_execute_move t 0 b = execute_move_0 t b.
Proof. reflexivity. Qed.
Lemma do_execute_move_1 t b : do_execute_move t 1 b = execute_move_1 t b.
Proof. reflexivity. Qed.
Lemma do_execute_move_2 t b : do_execute_move t 2 b = execute_move_2 t b.
Proof. reflexivity. Qed.
Lemma do_execute_move_3 t b : do_execute_move t 3 b = execute_move_3 t b.
Proof. reflexivity. Qed.

(** C10: a move code outside 0..3 yields the all-ones board. *)
Theorem ai_execute_move_invalid_code (t : move_tables) (move board : Z) :
  move <> 0 -> move <> 1 -> move <> 2 -> move <> 3 ->
  ai_execute_move t move board = 0xFFFFFFFFFFFFFFFF /\
  nibbles 16 (ai_execute_move t move board) = repeat 15 16 /\
  (board <> 0xFFFFFFFFFFFFFFFF -> ai_execute_move t move board <> board).
Proof.
  intros H0 H1 H2 H3. unfold ai_execute_move, do_execute_move.
  apply Z.eqb_neq in H0, H1, H2, H3. rewrite H0, H1, H2, H3.
  change (not64 0) with 0xFFFFFFFFFFFFFFFF.
  split; [reflexivity|]. split; [reflexivity|]. intros Hb Heq. now apply Hb.
Qed.

Lemma ai_execute_move_invalid_code_witness :
  ai_execute_move do_init_tables 4 0x0000000000000211 = 0xFFFFFFFFFFFFFFFF.
Proof.
  apply (ai_execute_move_invalid_code do_init_tables 4 0x0000000000000211);
    discriminate.
Defined.

(** C6: on the empty board the sum of the sixteen indicator bits does not
    fit the lowest nibble, and [ai_count_empty] returns 0 instead of 16. *)
Theorem ai_count_empty_empty_board :
  ai_count_empty 0 = 0 /\ zero_nibbles 0 = 16.
Proof. split; reflexivity. Qed.

(** X13: on every board, [ai_count_empty] is the number of empty cells
    modulo 16; it is the number of empty cells unless the board is empty. *)
Lemma ai_count_empty_spec (b : Z) :
  is_board b ->
  ai_count_empty b = zero_nibbles b mod 16 /\
  (b <> 0 -> ai_count_empty b = zero_nibbles b).
Proof.
  intros Hb. unfold ai_count_empty. split; [apply count_empty_mod|].
  now apply count_empty_nonzero.
Qed.

Lemma ai_count_empty_spec_witness :
  ai_count_empty 0x0000000000003211 = zero_nibbles 0x0000000000003211 mod 16.
Proof.
  assert (is_board 0x0000000000003211) as Hb by (unfold is_board; lia).
  destruct (ai_count_empty_spec 0x0000000000003211 Hb) as (H & _).
  exact H.
Defined.

(** C8: the depth limit of a top-level call. *)
Theorem depth_limit_spec (board : Z) :
  is_board board ->
  let n := distinct_ranks board in
  depth_limit (toplevel_state board) = Z.max 3 (n - 2) /\
  (n = 2 -> depth_limit (toplevel_state board) = 3) /\
  (n = 7 -> depth_limit (toplevel_state board) = 5).
Proof.
  intros Hb n. subst n. unfold toplevel_state, set_depth_limit. cbn [depth_limit].
  rewrite count_distinct_tiles_spec.
  split; [reflexivity|]. split; intros ->; reflexivity.
Qed.

Lemma depth_limit_spec_witness :
  depth_limit (toplevel_state 0x0000000007654321) = 5 /\
  depth_limit (toplevel_state 0x0000000000000021) = 3.
Proof.
  assert (is_board 0x0000000007654321) as H7 by (unfold is_board; lia).
  assert (is_board 0x0000000000000021) as H2 by (unfold is_board; lia).
  destruct (depth_limit_spec 0x0000000007654321 H7) as (_ & _ & E7).
  destruct (depth_limit_spec 0x0000000000000021 H2) as (_ & E2 & _).
  split; [apply E7|apply E2]; vm_compute; reflexivity.
Defined.

(** ** The merge cap *)

Lemma line_of_row_nibbles row : line_of_row row = nibbles 4 row.
Proof.
  unfold line_of_row. cbn [nibbles].
  rewrite !Z.shiftr_shiftr, Z.shiftr_0_r by lia. reflexivity.
Qed.

Lemma left_result_slide row : is_row row -> left_result row = slide_left row.
Proof.
  intros Hr. unfold left_result. rewrite (row_left_table_init row Hr).
  apply lxor_cancel.
Qed.

Lemma cap_pair_check_sound pre rest result :
  cap_pair_check (pre ++ 15 :: 15 :: rest) result (length pre) = true ->
  merge_pairs 4 (pre ++ [15]) = merge_pairs 4 pre ++ [15] ->
  result = merge_pairs 4 pre ++ 15 :: merge_pairs 4 rest.
Proof.
  unfold cap_pair_check. intros Hc Hpre. cbv zeta in Hc.
  rewrite firstn_app, firstn_all, Nat.sub_diag in Hc. cbn [firstn] in Hc.
  rewrite app_nil_r in Hc.
  rewrite skipn_app, skipn_all, Nat.sub_diag in Hc. cbn [skipn app] in Hc.
  rewrite Hpre, list_eqb_refl in Hc. cbn [negb orb] in Hc.
  now apply list_eqb_eq.
Qed.

Lemma cap_pair_check_all :
  forall row, is_row row ->
  (let tiles := nonzero_tiles (line_of_row row) in
   let result := nonzero_tiles (line_of_row (slide_left row)) in
   cap_pair_check tiles result 0 && cap_pair_check tiles result 1
   && cap_pair_check tiles result 2) = true.
Proof.
  intros row _. cbv zeta. rewrite line_of_slide_left.
  pose proof (slide_line_facts _ (line_of_row_is_line row)) as F.
  rewrite (line_cap _ _ _ _ _ F 0%nat), (line_cap _ _ _ _ _ F 1%nat),
          (line_cap _ _ _ _ _ F 2%nat) by lia.
  reflexivity.
Qed.

Lemma nonzero_tiles_length line : (length (nonzero_tiles line) <= length line)%nat.
Proof. apply filter_length_le. Qed.

(** C1, as the code has it: when the left pass pairs two neighbouring
    rank-15 tiles, the rank stays 15 and the second cell is cleared, so the
    pair becomes a single rank-15 tile, between the merged tiles before the
    pair and the merged tiles after it.  The pass pairs the tiles at the
    positions [length pre] and [length pre + 1] when it leaves the first of
    them alone after [pre]; in [15; 15; 15] it pairs the first two, not the
    last two. *)
Theorem cap_merge_keeps_one_tile (row : Z) (pre rest : list Z) :
  is_row row ->
  nonzero_tiles (line_of_row row) = pre ++ 15 :: 15 :: rest ->
  merge_pairs 4 (pre ++ [15]) = merge_pairs 4 pre ++ [15] ->
  nonzero_tiles (line_of_row (left_result row))
  = merge_pairs 4 pre ++ 15 :: merge_pairs 4 rest.
Proof.
  intros Hr Htiles Hpre. rewrite (left_result_slide row Hr).
  pose proof (nonzero_tiles_length (line_of_row row)) as Hlen.
  rewrite Htiles, length_app in Hlen.
  change (length (line_of_row row)) with 4%nat in Hlen. cbn [length] in Hlen.
  pose proof (cap_pair_check_all row Hr) as H. cbv zeta in H.
  rewrite Htiles in H.
  apply andb_true_iff in H as [H H2]. apply andb_true_iff in H as [H0 H1].
  apply cap_pair_check_sound; [|assumption].
  destruct (length pre) as [|[|[|n]]]; [exact H0|exact H1|exact H2|lia].
Qed.

(** The row [1, 1, 15, 15] becomes [2, 15, 0, 0]. *)
Lemma cap_merge_keeps_one_tile_witness :
  nonzero_tiles (line_of_row (left_result 0xFF11))
  = merge_pairs 4 [1; 1] ++ 15 :: merge_pairs 4 [] /\
  merge_pairs 4 [1; 1] ++ 15 :: merge_pairs 4 [] = [2; 15].
Proof.
  split; [|reflexivity].
  apply (cap_merge_keeps_one_tile 0xFF11 [1; 1] []).
  - unfold is_row. lia.
  - reflexivity.
  - reflexivity.
Defined.

(** C1 as stated fails: after the left move of the row [15, 15, 0, 0] only
    one of the two rank-15 tiles is left, the second cell is empty. *)
Lemma cap_merge_clears_cell :
  ~ (forall (row : Z) (pre rest : list Z),
       is_row row ->
       nonzero_tiles (line_of_row row) = pre ++ 15 :: 15 :: rest ->
       merge_pairs 4 (pre ++ [15]) = pre ++ [15] ->
       exists rest',
         nonzero_tiles (line_of_row (left_result row)) = pre ++ 15 :: 15 :: rest').
Proof.
  intros H.
  destruct (H 0x00FF [] []) as [rest' Hrest'];
    [unfold is_row; lia|reflexivity|reflexivity|].
  rewrite left_result_slide in Hrest' by (unfold is_row; lia).
  assert (nonzero_tiles (line_of_row (slide_left 0x00FF)) = [15]) as E
    by (vm_compute; reflexivity).
  rewrite E in Hrest'. discriminate Hrest'.
Qed.

(** ** The merge component of the heuristic *)

Lemma sum_lengths_filter lens :
  sum_lengths Z.of_nat (filter (fun len => (2 <=? len)%nat) lens)
  = sum_lengths run_score lens.
Proof.
  induction lens as [|len lens IH]; [reflexivity|].
  cbn [filter sum_lengths fold_right]. unfold run_score at 1.
  destruct (2 <=? len)%nat; cbn [sum_lengths fold_right];
    fold (sum_lengths Z.of_nat (filter (fun len => (2 <=? len)%nat) lens));
    fold (sum_lengths run_score lens); lia.
Qed.

Lemma heur_loop_runs line : forall st,
  0 <= hc_counter st ->
  heur_final (fold_left heur_step line st) =
  hc_merges st
  + sum_lengths run_score
      (run_lengths_from (hc_prev st) (S (Z.to_nat (hc_counter st))) (nonzero_tiles line)).
Proof.
  induction line as [|rank line IH]; intros st Hc.
  - cbn [fold_left nonzero_tiles filter run_lengths_from sum_lengths fold_right].
    unfold heur_final, run_score.
    destruct (Z.ltb_spec 0 (hc_counter st));
      destruct (Nat.leb_spec 2 (S (Z.to_nat (hc_counter st)))); lia.
  - cbn [fold_left]. unfold nonzero_tiles. cbn [filter].
    fold (nonzero_tiles line). unfold heur_step at 2.
    destruct (Z.eqb_spec rank 0) as [->|Hne]; cbn [negb].
    + rewrite IH by (cbn [hc_counter]; assumption). reflexivity.
    + cbn [run_lengths_from]. rewrite (Z.eqb_sym rank).
      destruct (Z.eqb_spec (hc_prev st) rank) as [E|N].
      * rewrite IH by (cbn [hc_counter]; lia). cbn [hc_merges hc_prev hc_counter].
        rewrite E. replace (Z.to_nat (hc_counter st + 1))
          with (S (Z.to_nat (hc_counter st))) by lia.
        reflexivity.
      * destruct (Z.ltb_spec 0 (hc_counter st)).
        -- rewrite IH by (cbn [hc_counter]; lia).
           cbn [hc_merges hc_prev hc_counter sum_lengths fold_right].
           unfold run_score at 2.
           destruct (Nat.leb_spec 2 (S (Z.to_nat (hc_counter st)))); [|lia].
           change (Z.to_nat 0) with 0%nat.
           fold (sum_lengths run_score (run_lengths_from rank 1 (nonzero_tiles line))).
           lia.
        -- rewrite IH by (cbn [hc_counter]; lia).
           cbn [hc_merges hc_prev hc_counter sum_lengths fold_right].
           unfold run_score at 2.
           destruct (Nat.leb_spec 2 (S (Z.to_nat (hc_counter st)))); [lia|].
           replace (hc_counter st) with 0 by lia. change (Z.to_nat 0) with 0%nat.
           fold (sum_lengths run_score (run_lengths_from rank 1 (nonzero_tiles line))).
           lia.
Qed.

Lemma nonzero_tiles_head v rest line :
  nonzero_tiles line = v :: rest -> v <> 0.
Proof.
  intros H Hv. assert (In v (nonzero_tiles line)) as Hin by (rewrite H; now left).
  apply filter_In in Hin as [_ Hin]. subst v. discriminate Hin.
Qed.

Lemma heur_merges_runs line :
  heur_merges line = merge_score (nonzero_tiles line).
Proof.
  unfold heur_merges, heur_loop. fold (heur_final (fold_left heur_step line
    {| hc_empty := 0; hc_merges := 0; hc_prev := 0; hc_counter := 0 |})).
  rewrite heur_loop_runs by (cbn [hc_counter]; lia).
  cbn [hc_merges hc_prev hc_counter]. change (Z.to_nat 0) with 0%nat.
  unfold merge_score, merge_runs. rewrite sum_lengths_filter.
  unfold run_lengths. destruct (nonzero_tiles line) as [|v rest] eqn:E.
  - reflexivity.
  - cbn [run_lengths_from]. apply nonzero_tiles_head in E.
    destruct (Z.eqb_spec v 0); [contradiction|]. reflexivity.
Qed.

(** C2, as the code has it: every maximal run of two or more equal tiles
    (empty cells skipped) adds its length to the merge component; a single
    run of exactly two adds 2. *)
Theorem heur_merges_run_lengths (pow : double -> double -> double) (row : Z) :
  let line := line_of_row row in
  heur_merges line = merge_score (nonzero_tiles line) /\
  heur_score_table pow row =
    row_heur_with pow (merge_score (nonzero_tiles line)) line /\
  (merge_runs (nonzero_tiles line) = [2%nat] -> heur_merges line = 2).
Proof.
  intros line. rewrite (heur_merges_runs line).
  split; [reflexivity|]. split.
  - unfold heur_score_table, row_heur. fold line.
    now rewrite (heur_merges_runs line).
  - unfold merge_score. intros ->. reflexivity.
Qed.

Lemma heur_merges_run_lengths_witness :
  heur_merges (line_of_row 0x0011) = 2.
Proof.
  apply (heur_merges_run_lengths (fun x _ => x) 0x0011). reflexivity.
Defined.

(** C2 as stated fails: the row [1, 1, 0, 0] has one run, of length 2, and
    its merge component is 2, not 3. *)
Lemma heur_merges_pair_is_not_3 :
  ~ (forall row, is_row row ->
       let line := line_of_row row in
       merge_runs (nonzero_tiles line) = [2%nat] -> heur_merges line = 3).
Proof.
  intros H. specialize (H 0x0011). cbv zeta in H.
  assert (heur_merges (line_of_row 0x0011) = 2) as E by reflexivity.
  rewrite E in H. discriminate H; [unfold is_row; lia|reflexivity].
Qed.

(** * Repeating a move *)

Lemma slide_left_repeat r :
  is_row r ->
  slide_left (slide_left (slide_left (slide_left r)))
  = slide_left (slide_left (slide_left r)) /\
  (zeros_row (slide_left r) = zeros_row r -> slide_left (slide_left r) = slide_left r).
Proof.
  intros Hr.
  pose proof (slide_line_facts _ (line_of_row_is_line r)) as F.
  pose proof (line_of_slide_left r) as L1.
  pose proof (line_of_slide_left (slide_left r)) as L2. rewrite L1 in L2.
  pose proof (line_of_slide_left (slide_left (slide_left r))) as L3. rewrite L2 in L3.
  split.
  - rewrite (slide_left_line (slide_left (slide_left (slide_left r)))), L3.
    rewrite (slide_left_line (slide_left (slide_left r))), L2.
    now rewrite (line_repeat _ _ _ _ _ F).
  - rewrite !zeros_row_line, L1. intros E.
    rewrite (slide_left_line (slide_left r)), L1, (slide_left_line r).
    now rewrite (line_quiet _ _ _ _ _ F E).
Qed.

Lemma slide_right_def r :
  slide_right r = reverse_row (slide_left (reverse_row r)).
Proof. reflexivity. Qed.

Lemma slide_right_reverse x :
  is_row x -> slide_right (reverse_row x) = reverse_row (slide_left x).
Proof. intros Hx. rewrite slide_right_def. now rewrite reverse_row_involutive. Qed.

Lemma slide_right_repeat r :
  is_row r ->
  slide_right (slide_right (slide_right (slide_right r)))
  = slide_right (slide_right (slide_right r)) /\
  (zeros_row (slide_right r) = zeros_row r ->
   slide_right (slide_right r) = slide_right r).
Proof.
  intros Hr. pose proof (reverse_row_is_row r) as Hv.
  destruct (slide_left_repeat (reverse_row r) Hv) as [H4 H2].
  pose proof (slide_left_is_row _ Hv) as H1.
  pose proof (slide_left_is_row _ H1) as H1'.
  pose proof (slide_left_is_row _ H1') as H1''.
  rewrite (slide_right_def r).
  rewrite !slide_right_reverse by assumption.
  split.
  - now rewrite H4.
  - intros E. rewrite (reverse_row_zeros _ H1) in E.
    rewrite <- (reverse_row_zeros r Hr) in E.
    now rewrite (H2 E).
Qed.

Section RepeatRows.
Variable f : Z -> Z.
Hypothesis f_row : forall r, is_row r -> is_row (f r).
Hypothesis f_mono : forall r, is_row r -> zeros_row r <= zeros_row (f r).
Hypothesis f_stable : forall r, is_row r -> f (f (f (f r))) = f (f (f r)).
Hypothesis f_quiet : forall r,
  is_row r -> zeros_row (f r) = zeros_row r -> f (f r) = f r.

Lemma map_rows_stable b :
  map_rows f (map_rows f (map_rows f (map_rows f b)))
  = map_rows f (map_rows f (map_rows f b)).
Proof.
  rewrite !map_rows_compose by auto.
  apply map_rows_ext. intros r Hr. now apply f_stable.
Qed.

Lemma map_rows_quiet b :
  zero_nibbles (map_rows f b) = zero_nibbles b ->
  map_rows f (map_rows f b) = map_rows f b.
Proof.
  intros E. rewrite (zero_nibbles_map_rows f f_row), (zero_nibbles_rows b) in E.
  pose proof (f_mono _ (board_row_is_row b 0)).
  pose proof (f_mono _ (board_row_is_row b 16)).
  pose proof (f_mono _ (board_row_is_row b 32)).
  pose proof (f_mono _ (board_row_is_row b 48)).
  rewrite map_rows_compose by auto. unfold map_rows.
  rewrite !f_quiet by (try apply board_row_is_row; lia). reflexivity.
Qed.

Lemma map_cols_twice b :
  map_cols f (map_cols f b) = transpose (map_rows f (map_rows f (transpose b))).
Proof.
  unfold map_cols.
  now rewrite transpose_involutive by (apply map_rows_is_board; assumption).
Qed.

Lemma map_cols_stable b :
  map_cols f (map_cols f (map_cols f (map_cols f b)))
  = map_cols f (map_cols f (map_cols f b)).
Proof.
  rewrite (map_cols_twice (map_cols f (map_cols f b))), (map_cols_twice b).
  rewrite transpose_involutive by (apply map_rows_is_board; assumption).
  rewrite map_rows_stable.
  unfold map_cols at 1.
  now rewrite transpose_involutive by (apply map_rows_is_board; assumption).
Qed.

Lemma map_cols_quiet b :
  zero_nibbles (map_cols f b) = zero_nibbles b ->
  map_cols f (map_cols f b) = map_cols f b.
Proof.
  intros E. rewrite map_cols_twice. unfold map_cols in *.
  rewrite zero_nibbles_transpose in E.
  rewrite <- (zero_nibbles_transpose b) in E.
  now rewrite (map_rows_quiet _ E).
Qed.
End RepeatRows.

(** ** The four moves *)

Lemma move_rows_facts d :
  (forall r, is_row r -> is_row (move_rows d r)) /\
  (forall r, is_row r -> zeros_row r <= zeros_row (move_rows d r)) /\
  (forall r, is_row r -> move_rows d r <> r -> 1 <= zeros_row (move_rows d r)) /\
  (forall r, is_row r -> move_rows d r = 0 -> r = 0) /\
  (forall r, is_row r ->
     move_rows d (move_rows d (move_rows d (move_rows d r)))
     = move_rows d (move_rows d (move_rows d r))) /\
  (forall r, is_row r -> zeros_row (move_rows d r) = zeros_row r ->
     move_rows d (move_rows d r) = move_rows d r).
Proof.
  unfold move_rows. destruct ((d =? 0) || (d =? 2)).
  - split; [apply slide_left_is_row|].
    split; [intros r Hr; apply (slide_row_zeros r Hr)|].
    split; [intros r Hr; apply (slide_row_zeros r Hr)|].
    split; [intros r Hr; apply (slide_row_zeros r Hr)|].
    split; intros r Hr; apply (slide_left_repeat r Hr).
  - split; [intros r _; apply slide_right_is_row|].
    split; [intros r Hr; apply (slide_right_zeros r Hr)|].
    split; [intros r Hr; apply (slide_right_zeros r Hr)|].
    split; [intros r Hr; apply (slide_right_zeros r Hr)|].
    split; intros r Hr; apply (slide_right_repeat r Hr).
Qed.

(** Every move is its row function applied to the rows or to the columns. *)
Lemma ai_execute_move_rows d b :
  is_board b -> 0 <= d <= 3 ->
  ai_execute_move do_init_tables d b =
  if move_on_columns d then map_cols (move_rows d) b else map_rows (move_rows d) b.
Proof.
  intros Hb Hd. unfold ai_execute_move.
  assert (d = 0 \/ d = 1 \/ d = 2 \/ d = 3) as [-> | [-> | [-> | ->]]] by lia.
  - rewrite do_execute_move_0. now apply execute_move_0_rows.
  - rewrite do_execute_move_1. now apply execute_move_1_rows.
  - rewrite do_execute_move_2. now apply execute_move_2_rows.
  - rewrite do_execute_move_3. now apply execute_move_3_rows.
Qed.

Lemma ai_execute_move_is_board d b :
  is_board b -> 0 <= d <= 3 -> is_board (ai_execute_move do_init_tables d b).
Proof.
  intros Hb Hd. rewrite ai_execute_move_rows by assumption.
  destruct (move_on_columns d).
  - apply transpose_is_board.
  - apply map_rows_is_board, move_rows_facts.
Qed.

(** C4, as the code has it: a second application can merge the tiles that
    the first one produced, so a move is not idempotent; repeating a move
    changes nothing from the fourth application on, and nothing already at
    the second when the first leaves the number of empty cells unchanged. *)
Theorem execute_move_repeated (d b : Z) :
  is_board b -> 0 <= d <= 3 ->
  let m := ai_execute_move do_init_tables d in
  m (m (m (m b))) = m (m (m b)) /\
  (zero_nibbles (m b) = zero_nibbles b -> m (m b) = m b).
Proof.
  intros Hb Hd m. subst m.
  pose proof (ai_execute_move_is_board d b Hb Hd) as H1.
  pose proof (ai_execute_move_is_board d _ H1 Hd) as H2.
  pose proof (ai_execute_move_is_board d _ H2 Hd) as H3.
  rewrite (ai_execute_move_rows d _ H3 Hd), (ai_execute_move_rows d _ H2 Hd).
  rewrite (ai_execute_move_rows d _ H1 Hd), (ai_execute_move_rows d _ Hb Hd).
  destruct (move_rows_facts d) as (Hrow & Hmono & _ & _ & Hstable & Hquiet).
  destruct (move_on_columns d).
  - split; [now apply map_cols_stable|now apply map_cols_quiet].
  - split; [now apply map_rows_stable|now apply map_rows_quiet].
Qed.

Lemma execute_move_repeated_witness :
  let m := ai_execute_move do_init_tables 2 in
  m (m (m (m 0x0000000000003211))) = m (m (m 0x0000000000003211)).
Proof.
  assert (is_board 0x0000000000003211) as Hb by (unfold is_board; lia).
  assert (0 <= 2 <= 3) as Hd by lia.
  pose proof (execute_move_repeated 2 0x0000000000003211 Hb Hd) as H.
  cbv zeta in H. destruct H as [H _]. cbv zeta. exact H.
Defined.

(** C4 as stated fails: moving the row [1, 1, 2, 0] to the left gives
    [2, 2, 0, 0], and moving that to the left again gives [3, 0, 0, 0]. *)
Lemma execute_move_not_idempotent :
  ai_execute_move do_init_tables 2 (ai_execute_move do_init_tables 2 0x0211)
  <> ai_execute_move do_init_tables 2 0x0211.
Proof.
  assert (is_board 0x0211) as Hb by (unfold is_board; lia).
  assert (is_board 0x0022) as Hb' by (unfold is_board; lia).
  assert (0 <= 2 <= 3) as Hd by lia.
  pose proof (eq_trans (ai_execute_move_rows 2 0x0211 Hb Hd) eq_refl
              : ai_execute_move do_init_tables 2 0x0211 = 0x0022) as E1.
  pose proof (eq_trans (ai_execute_move_rows 2 0x0022 Hb' Hd) eq_refl
              : ai_execute_move do_init_tables 2 0x0022 = 0x0003) as E2.
  intros H.
  pose proof (f_equal (ai_execute_move do_init_tables 2) E1) as K.
  pose proof (eq_trans (eq_sym (eq_trans K E2)) (eq_trans H E1)) as X.
  discriminate X.
Qed.

(** C9: a move that changes the board leaves at least one empty cell, never
    fewer than before, and [count_empty] of the result is that number. *)
Theorem moved_board_has_empty_cell (d b : Z) :
  is_board b -> 0 <= d <= 3 ->
  let m := ai_execute_move do_init_tables d b in
  m <> b ->
  1 <= zero_nibbles m /\
  zero_nibbles b <= zero_nibbles m /\
  count_empty m = zero_nibbles m /\
  count_empty m <> 0.
Proof.
  intros Hb Hd m Hne.
  pose proof (ai_execute_move_is_board d b Hb Hd) as Hm. fold m in Hm.
  destruct (move_rows_facts d) as (Hrow & Hmono & Hmoved & Hzero & _ & _).
  assert (1 <= zero_nibbles m /\ zero_nibbles b <= zero_nibbles m /\ m <> 0)
    as (H1 & H2 & H3).
  { subst m. rewrite (ai_execute_move_rows d b Hb Hd) in *.
    destruct (move_on_columns d).
    - unfold map_cols in *. rewrite zero_nibbles_transpose.
      rewrite <- (zero_nibbles_transpose b).
      assert (map_rows (move_rows d) (transpose b) <> transpose b) as Hne'.
      { intros E. apply Hne. rewrite E. now apply transpose_involutive. }
      split; [apply map_rows_moved; auto using transpose_is_board|].
      split; [now apply map_rows_zeros_mono|].
      intros E0. apply Hne.
      assert (map_rows (move_rows d) (transpose b) = 0) as E1.
      { rewrite <- (transpose_involutive (map_rows (move_rows d) (transpose b)))
          by (now apply map_rows_is_board).
        rewrite E0. reflexivity. }
      apply (map_rows_zero _ Hrow Hzero) in E1; [|apply transpose_is_board].
      rewrite E0. rewrite <- (transpose_involutive b Hb), E1. reflexivity.
    - split; [now apply map_rows_moved|].
      split; [now apply map_rows_zeros_mono|].
      intros E0. apply Hne. rewrite E0. symmetry.
      now apply (map_rows_zero _ Hrow Hzero) in E0. }
  split; [assumption|]. split; [assumption|].
  rewrite (count_empty_nonzero m Hm H3). split; [reflexivity|lia].
Qed.

Lemma moved_board_has_empty_cell_witness :
  count_empty (ai_execute_move do_init_tables 2 0x0211) <> 0.
Proof.
  assert (is_board 0x0211) as Hb by (unfold is_board; lia).
  assert (0 <= 2 <= 3) as Hd by lia.
  apply (moved_board_has_empty_cell 2 0x0211 Hb Hd).
  intros H.
  pose proof (eq_trans (ai_execute_move_rows 2 0x0211 Hb Hd) eq_refl
              : ai_execute_move do_init_tables 2 0x0211 = 0x0022) as E.
  pose proof (eq_trans (eq_sym E) H) as X.
  discriminate X.
Defined.

(** * The top-level driver *)

Section Driver.
Variable t : move_tables.
Variable pow : double -> double -> double.
Variable use_cache : bool.

Lemma internal_score_no_move state board move :
  do_execute_move t move board = board ->
  internal_score_toplevel_move t pow use_cache state board move
  = Some (fzero, state).
Proof.
  intros H. unfold internal_score_toplevel_move. rewrite H, Z.eqb_refl.
  reflexivity.
Qed.

Lemma toplevel_loop_no_move board : forall moves bestmove state,
  (forall d, In d moves -> do_execute_move t d board = board) ->
  toplevel_loop t pow use_cache moves board fzero bestmove state
  = Some (bestmove, state).
Proof.
  induction moves as [|move moves IH]; intros bestmove state H; [reflexivity|].
  cbn [toplevel_loop].
  rewrite internal_score_no_move by (apply H; now left).
  change (flt fzero fzero) with false. cbv iota.
  apply IH. intros d Hd. apply H. now right.
Qed.
End Driver.

(** C7: a direction that leaves the board unchanged scores 0, which never
    exceeds the best score so far, and when no direction changes the board
    the driver returns -1. *)
Theorem no_move_returns_sentinel
        (pow : double -> double -> double) (use_cache : bool)
        (board d : Z) (state : eval_state) :
  0 <= d <= 3 ->
  ai_execute_move do_init_tables d board = board ->
  internal_score_toplevel_move do_init_tables pow use_cache state board d
  = Some (fzero, state) /\
  flt fzero fzero = false /\
  ((forall d', 0 <= d' <= 3 -> ai_execute_move do_init_tables d' board = board) ->
   ai_find_best_move do_init_tables pow use_cache board = Some (-1)).
Proof.
  intros Hd H. split; [now apply internal_score_no_move|].
  split; [reflexivity|]. intros Hall.
  unfold ai_find_best_move, ai_find_best_move_ex.
  change (float_of_int 0) with fzero.
  rewrite toplevel_loop_no_move; [reflexivity|].
  intros d' Hd'. apply Hall. cbn [In] in Hd'. lia.
Qed.

Lemma no_move_returns_sentinel_witness :
  ai_find_best_move do_init_tables (fun x _ => x) true 0x1234432112344321 = Some (-1).
Proof.
  assert (forall d, 0 <= d <= 3 ->
            ai_execute_move do_init_tables d 0x1234432112344321 = 0x1234432112344321)
    as Hall.
  { assert (is_board 0x1234432112344321) as Hb by (unfold is_board; lia).
    intros d Hd. rewrite (ai_execute_move_rows d _ Hb Hd).
    assert (d = 0 \/ d = 1 \/ d = 2 \/ d = 3) as [-> | [-> | [-> | ->]]] by lia;
      vm_compute; reflexivity. }
  apply (no_move_returns_sentinel (fun x _ => x) true 0x1234432112344321 0
           eval_state_init); [lia|apply Hall; lia|exact Hall].
Defined.

(** * The search returns *)

Lemma tile_at_next k : 0 <= k < 16 -> shl64 (tile_at k) 4 = tile_at (k + 1).
Proof.
  intros Hk. unfold tile_at, shl64, wrap64.
  destruct (Z.ltb_spec k 16); [|lia].
  change 0xFFFFFFFFFFFFFFFF with (Z.ones 64).
  rewrite Z.land_ones, Z.shiftl_mul_pow2, <- Z.pow_add_r by lia.
  destruct (Z.ltb_spec (k + 1) 16).
  - replace (4 * k + 4) with (4 * (k + 1)) by lia.
    apply Z.mod_small. split; [apply Z.pow_nonneg; lia|].
    apply Z.pow_lt_mono_r; lia.
  - replace (4 * k + 4) with 64 by lia. reflexivity.
Qed.

Lemma tile_at_nonzero k : 0 <= k < 16 -> tile_at k <> 0.
Proof.
  intros Hk. unfold tile_at. destruct (Z.ltb_spec k 16); [|lia].
  apply Z.pow_nonzero; lia.
Qed.

(** A score above a score that is not below 0 is not below 0. *)
Lemma flt_above a b :
  flt a b = true -> flt a fzero = false -> flt b fzero = false.
Proof.
  unfold flt, fzero, SFltb, SFcompare.
  destruct a as [sa|sa| |sa ma ea], b as [sb|sb| |sb mb eb];
    try destruct sa; try destruct sb; cbn; congruence.
Qed.

Lemma kept_refl state : kept (depth_limit state) state state.
Proof. unfold kept. lia. Qed.

Lemma kept_trans D s1 s2 s3 : kept D s1 s2 -> kept D s2 s3 -> kept D s1 s3.
Proof. unfold kept. lia. Qed.

Section Returns.
Variable t : move_tables.
Variable pow : double -> double -> double.
Variable use_cache : bool.

Lemma move_loop_returns chance c D board cprob :
  returns_at chance c D ->
  forall moves best state,
    curdepth state = c -> depth_limit state = D ->
    exists v state',
      move_loop t chance board cprob moves best state = Some (v, state')
      /\ kept D state state'.
Proof.
  intros Hch. induction moves as [|move moves IH]; intros best state Hc HD.
  - exists best, state. split; [reflexivity|]. subst D. apply kept_refl.
  - cbn [move_loop].
    set (state1 := set_moves_evaled state (add64 (moves_evaled state) 1)).
    assert (kept D state state1) as K1
      by (unfold kept, state1;
          cbn [curdepth depth_limit maxdepth set_moves_evaled]; lia).
    assert (curdepth state1 = c /\ depth_limit state1 = D) as [Hc1 HD1]
      by (split; assumption).
    destruct (negb (board =? do_execute_move t move board)).
    + destruct (Hch state1 (do_execute_move t move board) cprob Hc1 HD1)
        as (v & state2 & -> & K2).
      destruct (IH (fmax best v) state2) as (w & state3 & -> & K3);
        [unfold kept in K2; lia|apply K2|].
      exists w, state3. split; [reflexivity|].
      exact (kept_trans _ _ _ _ K1 (kept_trans _ _ _ _ K2 K3)).
    + destruct (IH best state1 Hc1 HD1) as (w & state3 & -> & K3).
      exists w, state3. split; [reflexivity|].
      exact (kept_trans _ _ _ _ K1 K3).
Qed.

Lemma score_move_node_with_returns chance c D :
  returns_at chance (c + 1) D -> returns_at (score_move_node_with t chance) c D.
Proof.
  intros Hch state board cprob Hc HD. unfold score_move_node_with.
  destruct (move_loop_returns chance (c + 1) D board cprob Hch [0; 1; 2; 3] fzero
              (set_curdepth state (curdepth state + 1)))
    as (v & state' & -> & Hc' & HD' & Hm).
  - cbn [curdepth set_curdepth]. lia.
  - assumption.
  - exists v, (set_curdepth state' (curdepth state' - 1)).
    split; [reflexivity|]. unfold kept.
    cbn [curdepth depth_limit maxdepth set_curdepth] in *. lia.
Qed.

Lemma tile_loop_returns movenode c D board cprob :
  returns_at movenode c D ->
  forall n k tmp res state,
    0 <= k <= 16 -> Z.of_nat n + k = 17 ->
    curdepth state = c -> depth_limit state = D ->
    exists v state',
      tile_loop n movenode board cprob tmp (tile_at k) res state = Some (v, state')
      /\ kept D state state'.
Proof.
  intros Hmv. induction n as [|n IH]; intros k tmp res state Hk Hn Hc HD; [lia|].
  cbn [tile_loop]. destruct (Z.eqb_spec (tile_at k) 0) as [E|N].
  - exists res, state. split; [reflexivity|]. subst D. apply kept_refl.
  - assert (k < 16) as Hk16.
    { destruct (Z.lt_ge_cases k 16); [assumption|].
      exfalso. apply N. unfold tile_at. destruct (Z.ltb_spec k 16); [lia|reflexivity]. }
    rewrite tile_at_next by lia.
    destruct (Z.land tmp 15 =? 0).
    + destruct (Hmv state (Z.lor board (tile_at k)) (fmul cprob f0_9) Hc HD)
        as (v1 & state1 & -> & K1).
      destruct (Hmv state1 (Z.lor board (shl64 (tile_at k) 1)) (fmul cprob f0_1))
        as (v2 & state2 & -> & K2); [unfold kept in K1; lia|apply K1|].
      destruct (IH (k + 1) (Z.shiftr tmp 4)
                   (fadd (fadd res (fmul v1 f0_9)) (fmul v2 f0_1)) state2)
        as (w & state3 & -> & K3);
        [lia|lia|unfold kept in K1, K2; lia|apply K2|].
      exists w, state3. split; [reflexivity|].
      exact (kept_trans _ _ _ _ K1 (kept_trans _ _ _ _ K2 K3)).
    + apply IH; (assumption || lia).
Qed.

Lemma score_tilechoose_node_returns n : forall c D,
  c <= D -> D - c < Z.of_nat n ->
  returns_at (score_tilechoose_node t pow use_cache n) c D.
Proof.
  induction n as [|n IH]; intros c D Hle Hfuel; [lia|].
  intros state board cprob Hc HD. cbn [score_tilechoose_node].
  destruct (flt cprob CPROB_THRESH_BASE || (depth_limit state <=? curdepth state))
    eqn:Hleaf.
  - eexists _, _. split; [reflexivity|]. unfold kept.
    cbn [curdepth depth_limit maxdepth set_maxdepth]. lia.
  - apply orb_false_iff in Hleaf as [_ Hdepth]. apply Z.leb_gt in Hdepth.
    destruct (cache_lookup use_cache state board) as [h|].
    + eexists _, _. split; [reflexivity|]. unfold kept.
      cbn [curdepth depth_limit maxdepth set_cachehits]. lia.
    + destruct (tile_loop_returns
                  (score_move_node_with t (score_tilechoose_node t pow use_cache n))
                  c D board (fdiv cprob (float_of_int (count_empty board)))
                  (score_move_node_with_returns _ c D
                     (IH (c + 1) D ltac:(lia) ltac:(lia)))
                  17%nat 0 board fzero state ltac:(lia) ltac:(lia) Hc HD)
        as (res & state' & Hloop & K).
      change (tile_at 0) with 1 in Hloop. rewrite Hloop.
      eexists _, _. split; [reflexivity|].
      destruct (use_cache && (curdepth state' <? CACHE_DEPTH_LIMIT)); exact K.
Qed.

Lemma internal_score_toplevel_move_returns state board move :
  curdepth state <= depth_limit state ->
  exists v state',
    internal_score_toplevel_move t pow use_cache state board move = Some (v, state')
    /\ kept (depth_limit state) state state'.
Proof.
  intros Hle. unfold internal_score_toplevel_move.
  destruct (board =? do_execute_move t move board).
  - eexists _, _. split; [reflexivity|]. apply kept_refl.
  - destruct (score_tilechoose_node_returns (search_fuel state)
                (curdepth state) (depth_limit state) Hle
                ltac:(unfold search_fuel; lia)
                state (do_execute_move t move board) (float_of_int 1)
                eq_refl eq_refl)
      as (v & state' & -> & K).
    eexists _, _. split; [reflexivity|]. exact K.
Qed.

(** The best score so far is never below 0, so the best direction so far
    is the sentinel or a direction that changes the board. *)
Lemma toplevel_loop_returns board D : forall moves best bestmove state,
  flt best fzero = false ->
  (bestmove = -1 \/ (0 <= bestmove <= 3 /\ do_execute_move t bestmove board <> board)) ->
  (forall d, In d moves -> 0 <= d <= 3) ->
  curdepth state <= D -> depth_limit state = D ->
  exists move state',
    toplevel_loop t pow use_cache moves board best bestmove state
    = Some (move, state')
    /\ (move = -1 \/ (0 <= move <= 3 /\ do_execute_move t move board <> board))
    /\ kept D state state'.
Proof.
  induction moves as [|move moves IH];
    intros best bestmove state Hbest Hb Hm Hle HD.
  - exists bestmove, state. split; [reflexivity|]. split; [assumption|].
    subst D. apply kept_refl.
  - cbn [toplevel_loop].
    assert (forall d, In d moves -> 0 <= d <= 3) as Hm'
      by (intros d Hd; apply Hm; now right).
    destruct (Z.eq_dec (do_execute_move t move board) board) as [E|N].
    + rewrite (internal_score_no_move t pow use_cache state board move E), Hbest.
      now apply IH.
    + destruct (internal_score_toplevel_move_returns state board move)
        as (v & state1 & -> & K1); [lia|]. rewrite HD in K1.
      assert (curdepth state1 <= D /\ depth_limit state1 = D) as [Hle1 HD1]
        by (unfold kept in K1; lia).
      destruct (flt best v) eqn:Hv.
      * destruct (IH v move state1) as (m & state2 & -> & Hmove & K2);
          try assumption.
        -- exact (flt_above best v Hv Hbest).
        -- right. split; [apply Hm; now left|assumption].
        -- exists m, state2. split; [reflexivity|]. split; [assumption|].
           exact (kept_trans _ _ _ _ K1 K2).
      * destruct (IH best bestmove state1) as (m & state2 & -> & Hmove & K2);
          try assumption.
        exists m, state2. split; [reflexivity|]. split; [assumption|].
        exact (kept_trans _ _ _ _ K1 K2).
Qed.

Lemma toplevel_state_limit board :
  curdepth (toplevel_state board) = 0 /\ maxdepth (toplevel_state board) = 0 /\
  depth_limit (toplevel_state board) = Z.max 3 (count_distinct_tiles board - 2).
Proof. split; [|split]; reflexivity. Qed.

Lemma ai_find_best_move_ex_returns board :
  exists move state',
    ai_find_best_move_ex t pow use_cache board = Some (move, state')
    /\ (move = -1 \/ (0 <= move <= 3 /\ do_execute_move t move board <> board))
    /\ kept (Z.max 3 (count_distinct_tiles board - 2)) (toplevel_state board) state'.
Proof.
  unfold ai_find_best_move_ex.
  destruct (toplevel_state_limit board) as (Hc & _ & HD).
  apply toplevel_loop_returns.
  - reflexivity.
  - now left.
  - intros d Hd. cbn [In] in Hd. lia.
  - rewrite Hc. lia.
  - exact HD.
Qed.

(** The fuel given to the search is never exhausted: the driver returns
    a direction or the sentinel on every board. *)
Lemma ai_find_best_move_returns board :
  exists move,
    ai_find_best_move t pow use_cache board = Some move
    /\ (move = -1 \/ 0 <= move <= 3).
Proof.
  unfold ai_find_best_move.
  destruct (ai_find_best_move_ex_returns board) as (move & state' & -> & Hmove & _).
  exists move. split; [reflexivity|]. lia.
Qed.
End Returns.

(** * The board codec *)

(** X1: [reverse_row] reverses the four cells of a row and is its own
    inverse. *)
Theorem reverse_row_reverses_cells (r : Z) :
  is_row r ->
  line_of_row (reverse_row r) = rev (line_of_row r) /\
  reverse_row (reverse_row r) = r /\
  is_row (reverse_row r).
Proof.
  intros Hr. split; [now apply line_of_reverse_row|].
  split; [now apply reverse_row_involutive|apply reverse_row_is_row].
Qed.

Lemma reverse_row_reverses_cells_witness :
  line_of_row (reverse_row 0x4321) = rev (line_of_row 0x4321).
Proof.
  apply (reverse_row_reverses_cells 0x4321). unfold is_row. lia.
Defined.

(** X2: [transpose] exchanges the cell in row [r], column [c] with the cell
    in row [c], column [r]; it maps boards to boards and is its own
    inverse. *)
Theorem transpose_exchanges_cells (b r c : Z) :
  is_board b -> 0 <= r < 4 -> 0 <= c < 4 ->
  nib (transpose b) (4 * r + c) = nib b (4 * c + r) /\
  transpose (transpose b) = b /\
  is_board (transpose b).
Proof.
  intros Hb Hr Hc. split; [|split].
  - rewrite nib_transpose by lia. f_equal.
    replace ((4 * r + c) mod 4) with c by (Z.div_mod_to_equations; lia).
    replace ((4 * r + c) / 4) with r by (Z.div_mod_to_equations; lia).
    reflexivity.
  - now apply transpose_involutive.
  - apply transpose_is_board.
Qed.

Lemma transpose_exchanges_cells_witness :
  nib (transpose 0x0000000000004321) (4 * 2 + 0) = nib 0x0000000000004321 (4 * 0 + 2).
Proof.
  apply (transpose_exchanges_cells 0x0000000000004321 2 0);
    unfold is_board; lia.
Defined.

(** * [get_max_rank] *)

Lemma max_nibble_zeros n : max_nibble (repeat 0 n) = 0.
Proof. induction n as [|n IH]; [reflexivity|]. cbn [repeat max_nibble fold_right]. fold (max_nibble (repeat 0 n)). lia. Qed.

Lemma max_nibble_cons v l : max_nibble (v :: l) = Z.max v (max_nibble l).
Proof. reflexivity. Qed.

Lemma max_nibble_nonneg l : 0 <= max_nibble l.
Proof. induction l as [|v l IH]; [cbn; lia|rewrite max_nibble_cons; lia]. Qed.

Lemma max_nibble_app l1 l2 :
  max_nibble (l1 ++ l2) = Z.max (max_nibble l1) (max_nibble l2).
Proof.
  induction l1 as [|v l1 IH]; cbn [app].
  - cbn [max_nibble fold_right]. fold (max_nibble l2).
    pose proof (max_nibble_nonneg l2). lia.
  - rewrite !max_nibble_cons, IH. lia.
Qed.

Lemma max_nibble_bounds l :
  (forall v, In v l -> 0 <= v < 16) -> 0 <= max_nibble l <= 15.
Proof.
  induction l as [|v l IH]; intros H; [cbn; lia|].
  rewrite max_nibble_cons.
  pose proof (H v ltac:(now left)). pose proof (IH ltac:(intros; apply H; now right)).
  lia.
Qed.

Lemma max_nibble_0 l :
  (forall v, In v l -> 0 <= v) -> max_nibble l = 0 ->
  count_zero l = Z.of_nat (length l).
Proof.
  induction l as [|v l IH]; intros H E; [reflexivity|].
  rewrite max_nibble_cons in E.
  pose proof (H v ltac:(now left)).
  pose proof (max_nibble_nonneg l).
  assert (v = 0 /\ max_nibble l = 0) as [-> E'] by lia.
  rewrite count_zero_cons, IH; [cbn [Z.eqb length]; lia| |assumption].
  intros w Hw. apply H. now right.
Qed.

Lemma max_rank_loop_spec n : forall b m,
  0 <= m -> max_rank_loop n b m = Z.max m (max_nibble (nibbles n b)).
Proof.
  induction n as [|n IH]; intros b m Hm.
  - cbn [max_rank_loop nibbles max_nibble fold_right]. lia.
  - cbn [max_rank_loop]. destruct (Z.eqb_spec b 0) as [->|Hne].
    + rewrite nibbles_zero, max_nibble_zeros. lia.
    + cbn [nibbles]. rewrite max_nibble_cons, IH by (pose proof (nibble_range b); lia).
      lia.
Qed.

Lemma max_rank_loop_fuel n : forall b acc m,
  0 <= b < 16 ^ Z.of_nat n ->
  max_rank_loop (n + m) b acc = max_rank_loop n b acc.
Proof.
  induction n as [|n IH]; intros b acc m Hb.
  - assert (b = 0) as -> by (cbn in Hb; lia).
    destruct m; reflexivity.
  - cbn [Nat.add max_rank_loop]. destruct (Z.eqb_spec b 0); [reflexivity|].
    apply IH. rewrite Z.shiftr_div_pow2 by lia.
    rewrite Nat2Z.inj_succ, Z.pow_succ_r in Hb by lia.
    split; [apply Z.div_pos; lia|]. apply Z.div_lt_upper_bound; lia.
Qed.

Lemma get_max_rank_nibbles b : get_max_rank b = max_nibble (nibbles 16 b).
Proof.
  unfold get_max_rank. rewrite max_rank_loop_spec by lia.
  pose proof (max_nibble_bounds (nibbles 16 b) (nibbles_range 16 b)). lia.
Qed.

(** X4: [ai_get_max_rank] is the highest rank among the sixteen cells, a
    number from 0 to 15 that is 0 exactly on the empty board; sixteen
    iterations of its loop exhaust a 64-bit board. *)
Theorem ai_get_max_rank_spec (b : Z) :
  is_board b ->
  ai_get_max_rank b = max_nibble (nibbles 16 b) /\
  0 <= ai_get_max_rank b <= 15 /\
  (ai_get_max_rank b = 0 <-> b = 0) /\
  (forall extra, max_rank_loop (16 + extra) b 0 = ai_get_max_rank b).
Proof.
  intros Hb. unfold ai_get_max_rank. rewrite get_max_rank_nibbles.
  split; [reflexivity|].
  split; [apply max_nibble_bounds, nibbles_range|]. split.
  - split.
    + intros E. apply zero_nibbles_16; [assumption|].
      unfold zero_nibbles. rewrite max_nibble_0, length_nibbles; [reflexivity| |assumption].
      intros v Hv. apply (nibbles_range 16 b v Hv).
    + intros ->. reflexivity.
  - intros extra. rewrite max_rank_loop_fuel by exact Hb.
    apply get_max_rank_nibbles.
Qed.

Lemma ai_get_max_rank_spec_witness :
  ai_get_max_rank 0x0000000000004321 = max_nibble (nibbles 16 0x0000000000004321).
Proof.
  apply (ai_get_max_rank_spec 0x0000000000004321). unfold is_board. lia.
Defined.

(** * What a move keeps *)

Lemma cells_sum_cons g v l : cells_sum g (v :: l) = g v + cells_sum g l.
Proof. reflexivity. Qed.

Lemma cells_sum_app g l1 l2 :
  cells_sum g (l1 ++ l2) = cells_sum g l1 + cells_sum g l2.
Proof.
  induction l1 as [|v l1 IH]; [reflexivity|].
  cbn [app]. rewrite !cells_sum_cons, IH. lia.
Qed.

Lemma nibbles_16_rows b :
  nibbles 16 b = nibbles 4 (board_row b 0) ++ nibbles 4 (board_row b 16)
                 ++ nibbles 4 (board_row b 32) ++ nibbles 4 (board_row b 48).
Proof.
  rewrite !nibbles_board_row.
  change 16%nat with (4 + (4 + (4 + 4)))%nat.
  rewrite !nibbles_app, !Z.shiftr_shiftr by lia.
  rewrite Z.shiftr_0_r.
  change (4 * Z.of_nat 4) with 16. change (16 + 16) with 32. change (32 + 16) with 48.
  reflexivity.
Qed.

Lemma nibbles_16_nib b :
  nibbles 16 b = map (nib b) [0; 1; 2; 3; 4; 5; 6; 7; 8; 9; 10; 11; 12; 13; 14; 15].
Proof.
  rewrite <- (Z.shiftr_0_r b) at 1.
  change 0 with (4 * 0) at 1. rewrite nibbles_nib by lia. reflexivity.
Qed.

Ltac transposed_cells x :=
  rewrite !nibbles_16_nib; cbn [map];
  rewrite !nib_transpose by lia;
  repeat match goal with
         | |- context [nib x ?e] =>
             lazymatch e with
             | _ + _ => let v := eval vm_compute in e in change e with v
             end
         end.

(** A row seen as a board has no cell beyond its fourth. *)
Lemma nib_row_high r k : is_row r -> 4 <= k -> nib r k = 0.
Proof.
  intros Hr Hk. unfold nib. rewrite Z.shiftr_div_pow2 by lia.
  rewrite Z.div_small; [reflexivity|].
  unfold is_row in Hr. split; [lia|].
  apply Z.lt_le_trans with (2 ^ 16); [change (2 ^ 16) with 65536; lia|].
  apply Z.pow_le_mono_r; lia.
Qed.

(** X3: [unpack_col] puts the four cells of a row into the first column of
    an otherwise empty board. *)
Theorem unpack_col_first_column (r : Z) :
  is_row r ->
  nibbles 16 (unpack_col r) = flat_map (fun v => [v; 0; 0; 0]) (line_of_row r) /\
  unpack_col r = transpose r.
Proof.
  intros Hr. split; [|now apply unpack_col_transpose].
  rewrite (unpack_col_transpose r Hr). transposed_cells r.
  rewrite (nib_row_high r 4), (nib_row_high r 5), (nib_row_high r 6),
          (nib_row_high r 7), (nib_row_high r 8), (nib_row_high r 9),
          (nib_row_high r 10), (nib_row_high r 11), (nib_row_high r 12),
          (nib_row_high r 13), (nib_row_high r 14), (nib_row_high r 15)
    by (assumption || lia).
  unfold line_of_row, nib. cbn [flat_map app]. reflexivity.
Qed.

Lemma unpack_col_first_column_witness :
  nibbles 16 (unpack_col 0x4321)
  = flat_map (fun v => [v; 0; 0; 0]) (line_of_row 0x4321).
Proof.
  apply (unpack_col_first_column 0x4321). unfold is_row. lia.
Defined.

Lemma board_value_transpose x : board_value (transpose x) = board_value x.
Proof.
  unfold board_value. transposed_cells x.
  rewrite !cells_sum_cons. cbn [cells_sum fold_right]. lia.
Qed.

Lemma max_nibble_le l m :
  0 <= m -> (max_nibble l <= m <-> forall v, In v l -> v <= m).
Proof.
  intros Hm. induction l as [|w l IH].
  - cbn. split; [intros _ v []|lia].
  - rewrite max_nibble_cons. split.
    + intros H v [<-|Hv]; [lia|]. apply IH; [lia|assumption].
    + intros H. pose proof (H w ltac:(now left)).
      assert (max_nibble l <= m) by (apply IH; intros; apply H; now right). lia.
Qed.

Lemma max_nibble_same_cells l1 l2 :
  (forall v, In v l1 <-> In v l2) -> max_nibble l1 = max_nibble l2.
Proof.
  intros H.
  pose proof (max_nibble_nonneg l1). pose proof (max_nibble_nonneg l2).
  assert (max_nibble l1 <= max_nibble l2).
  { apply max_nibble_le; [assumption|]. intros v Hv.
    apply (proj1 (max_nibble_le l2 (max_nibble l2) ltac:(assumption)));
      [lia|now apply H]. }
  assert (max_nibble l2 <= max_nibble l1).
  { apply max_nibble_le; [assumption|]. intros v Hv.
    apply (proj1 (max_nibble_le l1 (max_nibble l1) ltac:(assumption)));
      [lia|now apply H]. }
  lia.
Qed.

Lemma In_cells x v :
  In v (nibbles 16 x) <-> exists k, 0 <= k < 16 /\ nib x k = v.
Proof.
  rewrite nibbles_16_nib, in_map_iff. split.
  - intros (k & E & Hk). exists k. split; [cbn [In] in Hk; lia|assumption].
  - intros (k & Hk & E). exists k. split; [assumption|]. cbn [In]. lia.
Qed.

Lemma max_nibble_transpose x :
  max_nibble (nibbles 16 (transpose x)) = max_nibble (nibbles 16 x).
Proof.
  apply max_nibble_same_cells. intros v. rewrite !In_cells. split.
  - intros (k & Hk & E). rewrite nib_transpose in E by assumption.
    exists (4 * (k mod 4) + k / 4). split; [Z.div_mod_to_equations; lia|assumption].
  - intros (k & Hk & E). exists (4 * (k mod 4) + k / 4).
    split; [Z.div_mod_to_equations; lia|].
    rewrite nib_transpose by (Z.div_mod_to_equations; lia).
    rewrite <- E. f_equal. Z.div_mod_to_equations. lia.
Qed.

Lemma board_value_rows b :
  board_value b = row_value (board_row b 0) + row_value (board_row b 16)
                  + row_value (board_row b 32) + row_value (board_row b 48).
Proof.
  unfold board_value, row_value. rewrite nibbles_16_rows, !cells_sum_app. lia.
Qed.

Lemma board_max_rows b :
  max_nibble (nibbles 16 b)
  = Z.max (Z.max (row_max (board_row b 0)) (row_max (board_row b 16)))
          (Z.max (row_max (board_row b 32)) (row_max (board_row b 48))).
Proof.
  unfold row_max. rewrite nibbles_16_rows, !max_nibble_app. lia.
Qed.

Lemma cells_sum_rev g l : cells_sum g (rev l) = cells_sum g l.
Proof.
  induction l as [|v l IH]; [reflexivity|].
  cbn [rev]. rewrite cells_sum_app, !cells_sum_cons, IH.
  cbn [cells_sum fold_right]. lia.
Qed.

Lemma max_nibble_rev l : max_nibble (rev l) = max_nibble l.
Proof.
  induction l as [|v l IH]; [reflexivity|].
  cbn [rev]. rewrite max_nibble_app, !max_nibble_cons, IH.
  cbn [max_nibble fold_right]. pose proof (max_nibble_nonneg l). lia.
Qed.

Lemma slide_left_keeps r :
  is_row r ->
  row_value (slide_left r) <= row_value r /\
  (row_max r < 15 -> row_value (slide_left r) = row_value r) /\
  row_max r <= row_max (slide_left r) <= row_max r + 1 /\
  row_value (reverse_row r) = row_value r /\
  row_max (reverse_row r) = row_max r.
Proof.
  intros Hr. unfold row_value, row_max.
  rewrite !nibbles_line, line_of_slide_left, line_of_reverse_row by assumption.
  pose proof (slide_line_facts _ (line_of_row_is_line r)) as F.
  split; [apply (line_value _ _ _ _ _ F)|].
  split; [apply (line_value_kept _ _ _ _ _ F)|].
  split; [apply (line_max _ _ _ _ _ F)|].
  split; [apply cells_sum_rev|apply max_nibble_rev].
Qed.

Lemma move_rows_keeps d r :
  is_row r ->
  row_value (move_rows d r) <= row_value r /\
  (row_max r < 15 -> row_value (move_rows d r) = row_value r) /\
  row_max r <= row_max (move_rows d r) <= row_max r + 1.
Proof.
  intros Hr. unfold move_rows. destruct ((d =? 0) || (d =? 2)).
  - destruct (slide_left_keeps r Hr) as (H1 & H2 & H3 & _). auto.
  - rewrite slide_right_def.
    pose proof (reverse_row_is_row r) as Hv.
    pose proof (slide_left_is_row _ Hv) as Hl.
    destruct (slide_left_keeps r Hr) as (_ & _ & _ & Ev & Em).
    destruct (slide_left_keeps _ Hv) as (H1 & H2 & H3 & _).
    destruct (slide_left_keeps _ Hl) as (_ & _ & _ & Ev' & Em').
    rewrite Ev', Em'. rewrite Ev in H1, H2. rewrite Em in H2, H3. auto.
Qed.

Section MapRowsKeeps.
Variable f : Z -> Z.
Hypothesis f_row : forall r, is_row r -> is_row (f r).
Hypothesis f_keeps : forall r, is_row r ->
  row_value (f r) <= row_value r /\
  (row_max r < 15 -> row_value (f r) = row_value r) /\
  row_max r <= row_max (f r) <= row_max r + 1.

Lemma map_rows_keeps b :
  board_value (map_rows f b) <= board_value b /\
  (max_nibble (nibbles 16 b) < 15 -> board_value (map_rows f b) = board_value b) /\
  max_nibble (nibbles 16 b) <= max_nibble (nibbles 16 (map_rows f b))
    <= max_nibble (nibbles 16 b) + 1.
Proof.
  rewrite (board_value_rows (map_rows f b)), (board_value_rows b).
  rewrite (board_max_rows (map_rows f b)), (board_max_rows b).
  rewrite !(board_row_map_rows f f_row) by auto.
  destruct (f_keeps _ (board_row_is_row b 0)) as (A0 & B0 & C0).
  destruct (f_keeps _ (board_row_is_row b 16)) as (A1 & B1 & C1).
  destruct (f_keeps _ (board_row_is_row b 32)) as (A2 & B2 & C2).
  destruct (f_keeps _ (board_row_is_row b 48)) as (A3 & B3 & C3).
  split; [lia|]. split; [|lia].
  intros Hmax. rewrite B0, B1, B2, B3 by lia. reflexivity.
Qed.

Lemma map_cols_keeps b :
  board_value (map_cols f b) <= board_value b /\
  (max_nibble (nibbles 16 b) < 15 -> board_value (map_cols f b) = board_value b) /\
  max_nibble (nibbles 16 b) <= max_nibble (nibbles 16 (map_cols f b))
    <= max_nibble (nibbles 16 b) + 1.
Proof.
  unfold map_cols. rewrite board_value_transpose, max_nibble_transpose.
  rewrite <- (board_value_transpose b), <- (max_nibble_transpose b).
  apply map_rows_keeps.
Qed.
End MapRowsKeeps.

(** X5: a move never raises the sum of the tile values, and keeps it
    unless the board holds a tile of rank 15 (where a merge loses one);
    the highest rank grows by at most one per move and never shrinks. *)
Theorem move_keeps_value (d b : Z) :
  is_board b -> 0 <= d <= 3 ->
  let m := ai_execute_move do_init_tables d b in
  board_value m <= board_value b /\
  (ai_get_max_rank b < 15 -> board_value m = board_value b) /\
  ai_get_max_rank b <= ai_get_max_rank m <= ai_get_max_rank b + 1.
Proof.
  intros Hb Hd m. subst m. unfold ai_get_max_rank.
  rewrite !get_max_rank_nibbles, (ai_execute_move_rows d b Hb Hd).
  destruct (move_rows_facts d) as (Hrow & _).
  destruct (move_on_columns d).
  - apply map_cols_keeps; [assumption|apply move_rows_keeps].
  - apply map_rows_keeps; [assumption|apply move_rows_keeps].
Qed.

Lemma move_keeps_value_witness :
  board_value (ai_execute_move do_init_tables 2 0x0211) <= board_value 0x0211.
Proof.
  assert (is_board 0x0211) as Hb by (unfold is_board; lia).
  assert (0 <= 2 <= 3) as Hd by lia.
  destruct (move_keeps_value 2 0x0211 Hb Hd) as (H & _). exact H.
Defined.

Lemma move_rows_0 d : move_rows d 0 = 0.
Proof. unfold move_rows. destruct ((d =? 0) || (d =? 2)); vm_compute; reflexivity. Qed.

(** X6: a move neither empties a board that holds a tile nor puts a tile
    on the empty board. *)
Theorem move_keeps_emptiness (d b : Z) :
  is_board b -> 0 <= d <= 3 ->
  (ai_execute_move do_init_tables d b = 0 <-> b = 0).
Proof.
  intros Hb Hd. rewrite (ai_execute_move_rows d b Hb Hd).
  destruct (move_rows_facts d) as (Hrow & _ & _ & Hzero & _).
  assert (map_rows (move_rows d) 0 = 0) as Hm0.
  { unfold map_rows. rewrite !board_row_0, move_rows_0. reflexivity. }
  destruct (move_on_columns d).
  - unfold map_cols. split.
    + intros E.
      assert (map_rows (move_rows d) (transpose b) = 0) as E1.
      { rewrite <- (transpose_involutive (map_rows (move_rows d) (transpose b)))
          by (now apply map_rows_is_board).
        rewrite E. reflexivity. }
      apply (map_rows_zero _ Hrow Hzero) in E1; [|apply transpose_is_board].
      rewrite <- (transpose_involutive b Hb), E1. reflexivity.
    + intros ->. change (transpose 0) with 0. rewrite Hm0. reflexivity.
  - split.
    + now apply map_rows_zero.
    + intros ->. exact Hm0.
Qed.

Lemma move_keeps_emptiness_witness :
  ai_execute_move do_init_tables 1 0 = 0 <-> 0 = 0.
Proof.
  assert (is_board 0) as Hb by (unfold is_board; lia).
  assert (0 <= 1 <= 3) as Hd by lia.
  exact (move_keeps_emptiness 1 0 Hb Hd).
Defined.

(** * The search *)

(** X7: on every board and with any tables, the driver returns within the
    fuel of the model; the direction it returns is the sentinel -1 or a
    direction that changes the board; the search gives the state back at
    depth 0 with the depth limit of the call, and the deepest level it
    reports does not exceed that limit. *)
Theorem ai_find_best_move_ex_spec
        (t : move_tables) (pow : double -> double -> double) (use_cache : bool)
        (board : Z) :
  exists move state',
    ai_find_best_move_ex t pow use_cache board = Some (move, state') /\
    ai_find_best_move t pow use_cache board = Some move /\
    (move = -1 \/ (0 <= move <= 3 /\ ai_execute_move t move board <> board)) /\
    curdepth state' = 0 /\
    depth_limit state' = Z.max 3 (count_distinct_tiles board - 2) /\
    0 <= maxdepth state' <= depth_limit state'.
Proof.
  destruct (ai_find_best_move_ex_returns t pow use_cache board)
    as (move & state' & E & Hmove & Hc & HD & Hm).
  destruct (toplevel_state_limit board) as (Hc0 & Hm0 & HD0).
  exists move, state'. split; [exact E|].
  split; [unfold ai_find_best_move; rewrite E; reflexivity|].
  split; [exact Hmove|]. split; [lia|]. split; [exact HD|]. lia.
Qed.

(** * Moves before [ai_init] *)

Lemma shl64_0 k : shl64 0 k = 0.
Proof. unfold shl64. now rewrite Z.shiftl_0_l. Qed.

Lemma do_execute_move_zero_tables d b :
  0 <= d <= 3 -> do_execute_move move_tables_zero d b = b.
Proof.
  intros Hd.
  assert (d = 0 \/ d = 1 \/ d = 2 \/ d = 3) as [-> | [-> | [-> | ->]]] by lia;
    unfold do_execute_move; cbn [Z.eqb];
    unfold execute_move_0, execute_move_1, execute_move_2, execute_move_3,
           move_tables_zero, table_zero;
    cbn [row_left_table row_right_table col_up_table col_down_table];
    now rewrite !shl64_0, !Z.lxor_0_r.
Qed.

(** X8: with the zero-initialised tables, as they are before [ai_init] has
    run, every move leaves every board unchanged, so the driver finds no
    move. *)
Theorem moves_need_init_tables
        (pow : double -> double -> double) (use_cache : bool) (d b : Z) :
  0 <= d <= 3 ->
  ai_execute_move move_tables_zero d b = b /\
  ai_find_best_move move_tables_zero pow use_cache b = Some (-1).
Proof.
  intros Hd. split; [now apply do_execute_move_zero_tables|].
  unfold ai_find_best_move, ai_find_best_move_ex.
  change (float_of_int 0) with fzero.
  rewrite toplevel_loop_no_move; [reflexivity|].
  intros d' Hd'. apply do_execute_move_zero_tables. cbn [In] in Hd'. lia.
Qed.

Lemma moves_need_init_tables_witness :
  ai_execute_move move_tables_zero 2 0x0211 = 0x0211 /\
  ai_find_best_move move_tables_zero (fun x _ => x) true 0x0211 = Some (-1).
Proof.
  assert (0 <= 2 <= 3) as Hd by lia.
  exact (moves_need_init_tables (fun x _ => x) true 2 0x0211 Hd).
Defined.

(** * [count_distinct_tiles] *)

Lemma distinct_ranks_bounds b : 0 <= distinct_ranks b <= 15.
Proof.
  unfold distinct_ranks.
  pose proof (filter_length_le (rank_present b)
                [1; 2; 3; 4; 5; 6; 7; 8; 9; 10; 11; 12; 13; 14; 15]) as H.
  cbn [length] in H. lia.
Qed.

(** X9: [count_distinct_tiles] is the number of distinct nonzero ranks on
    the board, at most 15; sixteen iterations of each of its loops are
    enough, more change nothing. *)
Theorem count_distinct_tiles_counts (b : Z) (extra : nat) :
  is_board b ->
  count_distinct_tiles b = distinct_ranks b /\
  0 <= count_distinct_tiles b <= 15 /\
  clear_lowest_bits (16 + extra) (Z.shiftr (collect_ranks (16 + extra) b 0) 1) 0
  = count_distinct_tiles b.
Proof.
  intros Hb. split; [apply count_distinct_tiles_spec|].
  split; [rewrite count_distinct_tiles_spec; apply distinct_ranks_bounds|].
  rewrite collect_ranks_fuel by exact Hb.
  rewrite clear_lowest_bits_fuel
    by apply clear_lowest_rest_row, shifted_ranks_is_row.
  unfold count_distinct_tiles. cbv zeta. reflexivity.
Qed.

Lemma count_distinct_tiles_counts_witness :
  count_distinct_tiles 0x0000000000003211 = distinct_ranks 0x0000000000003211.
Proof.
  assert (is_board 0x0000000000003211) as Hb by (unfold is_board; lia).
  destruct (count_distinct_tiles_counts 0x0000000000003211 0 Hb) as (H & _).
  exact H.
Defined.

(** * The heuristic *)

Lemma heur_empty_from l : forall st,
  hc_empty (fold_left heur_step l st) = hc_empty st + count_zero l.
Proof.
  induction l as [|v l IH]; intros st.
  - cbn [fold_left]. unfold count_zero. cbn. lia.
  - cbn [fold_left]. rewrite IH, count_zero_cons. unfold heur_step.
    destruct (v =? 0); [cbn [hc_empty]; lia|].
    destruct (hc_prev st =? v); [cbn [hc_empty]; lia|].
    destruct (0 <? hc_counter st); cbn [hc_empty]; lia.
Qed.

(** X10: the count [empty] of the heuristic loop is the number of empty
    cells of the line. *)
Theorem heur_empty_counts (line : list Z) : heur_empty line = count_zero line.
Proof. unfold heur_empty, heur_loop. rewrite heur_empty_from. cbn [hc_empty]. lia. Qed.

Lemma fadd_comm a b : fadd a b = fadd b a.
Proof.
  unfold fadd, SFadd.
  destruct a as [sa|sa| |sa ma ea], b as [sb|sb| |sb mb eb];
    try destruct sa; try destruct sb; try reflexivity.
  all: cbv zeta; rewrite (Z.min_comm eb ea), Z.add_comm; reflexivity.
Qed.

(** X11: [score_heur_board] adds the scores of the rows and of the columns,
    so the transposed board has the same score, whatever [pow] computes. *)
Theorem score_heur_board_transpose (pow : double -> double -> double) (b : Z) :
  is_board b ->
  score_heur_board pow (transpose b) = score_heur_board pow b.
Proof.
  intros Hb. unfold score_heur_board.
  rewrite (transpose_involutive b Hb). apply fadd_comm.
Qed.

Lemma score_heur_board_transpose_witness :
  score_heur_board (fun x _ => x) (transpose 0x0000000000003211)
  = score_heur_board (fun x _ => x) 0x0000000000003211.
Proof.
  assert (is_board 0x0000000000003211) as Hb by (unfold is_board; lia).
  exact (score_heur_board_transpose (fun x _ => x) 0x0000000000003211 Hb).
Defined.

(** * The slide loop *)

Lemma slide_loop_more_fuel fuel : forall line i result extra,
  slide_loop fuel line i = Some result ->
  slide_loop (fuel + extra) line i = Some result.
Proof.
  induction fuel as [|fuel IH]; intros line i result extra H; [discriminate H|].
  cbn [Nat.add slide_loop] in *.
  destruct (i <? 3); [|exact H].
  destruct (next_nonzero 4 line (i + 1) =? 4); [exact H|].
  destruct (line_get line i =? 0); [now apply IH|].
  destruct (line_get line i =? line_get line (next_nonzero 4 line (i + 1)));
    now apply IH.
Qed.

(** X12: the slide loop of [do_init_tables], whose body can step [i] back,
    ends within eight iterations on every line, with a line, and that line
    is the one the reference slide gives. *)
Theorem slide_loop_ends (line : list Z) (extra : nat) :
  is_line line ->
  slide_loop (slide_fuel + extra) line 0 = Some (slide_line line) /\
  is_line (slide_line line) /\
  slide_line line = reference_line line.
Proof.
  intros Hl. pose proof (slide_line_facts line Hl) as F.
  split; [apply slide_loop_more_fuel, slide_loop_line, Hl|].
  split; [apply (line_result _ _ _ _ _ F)|apply (line_reference _ _ _ _ _ F)].
Qed.

Lemma slide_loop_ends_witness :
  slide_loop (slide_fuel + 0) [1; 1; 2; 0] 0 = Some (slide_line [1; 1; 2; 0]).
Proof.
  assert (is_line [1; 1; 2; 0]) as Hl
    by (exists 1, 1, 2, 0; split; [reflexivity|lia]).
  destruct (slide_loop_ends [1; 1; 2; 0] 0 Hl) as (H & _).
  exact H.
Defined.

(** * Moves and rows *)

(** X14: after [ai_init], a move to the left or to the right applies the
    slide of its direction to each of the four rows, a move up or down
    applies it to each of the four columns, and the result is a board. *)
Theorem move_acts_on_rows (d b : Z) :
  is_board b -> 0 <= d <= 3 ->
  ai_execute_move do_init_tables d b
  = (if move_on_columns d then map_cols (move_rows d) b else map_rows (move_rows d) b) /\
  move_rows d = (if (d =? 0) || (d =? 2) then slide_left else slide_right) /\
  is_board (ai_execute_move do_init_tables d b).
Proof.
  intros Hb Hd. split; [now apply ai_execute_move_rows|].
  split; [reflexivity|now apply ai_execute_move_is_board].
Qed.

Lemma move_acts_on_rows_witness :
  is_board (ai_execute_move do_init_tables 3 0x0000000000003211).
Proof.
  assert (is_board 0x0000000000003211) as Hb by (unfold is_board; lia).
  assert (0 <= 3 <= 3) as Hd by lia.
  destruct (move_acts_on_rows 3 0x0000000000003211 Hb Hd) as (_ & _ & H).
  exact H.
Defined.

(** * The transposition table *)

Ltac counters :=
  unfold same_counters in *;
  cbn [maxdepth curdepth cachehits moves_evaled depth_limit
       set_trans_table set_maxdepth set_curdepth set_cachehits
       set_moves_evaled set_depth_limit] in *.

Lemma same_counters_refl s : same_counters s s.
Proof. unfold same_counters. auto. Qed.

(** ** The search depends on the tables through the moves only *)

Section Tables.
Variables t1 t2 : move_tables.
Variable pow : double -> double -> double.
Variable use_cache : bool.
Hypothesis same_moves : forall d b, do_execute_move t1 d b = do_execute_move t2 d b.

Lemma move_loop_tables chance1 chance2 :
  same_results chance1 chance2 ->
  forall moves board cprob best state,
    move_loop t1 chance1 board cprob moves best state
    = move_loop t2 chance2 board cprob moves best state.
Proof.
  intros Hch. induction moves as [|move moves IH]; intros board cprob best state;
    [reflexivity|].
  cbn [move_loop]. rewrite same_moves.
  destruct (negb (board =? do_execute_move t2 move board)); [|apply IH].
  rewrite Hch.
  destruct (chance2 (set_moves_evaled state (add64 (moves_evaled state) 1))
                    (do_execute_move t2 move board) cprob) as [[v state']|];
    [apply IH|reflexivity].
Qed.

Lemma score_move_node_with_tables chance1 chance2 :
  same_results chance1 chance2 ->
  same_results (score_move_node_with t1 chance1) (score_move_node_with t2 chance2).
Proof.
  intros Hch state board cprob. unfold score_move_node_with.
  now rewrite (move_loop_tables chance1 chance2 Hch).
Qed.

Lemma tile_loop_same_results movenode1 movenode2 :
  same_results movenode1 movenode2 ->
  forall n board cprob tmp tile res state,
    tile_loop n movenode1 board cprob tmp tile res state
    = tile_loop n movenode2 board cprob tmp tile res state.
Proof.
  intros Hmv. induction n as [|n IH]; intros board cprob tmp tile res state;
    [reflexivity|].
  cbn [tile_loop]. destruct (tile =? 0); [reflexivity|].
  destruct (Z.land tmp 15 =? 0); [|apply IH].
  rewrite Hmv.
  destruct (movenode2 state (Z.lor board tile) (fmul cprob f0_9))
    as [[v1 state1]|]; [|reflexivity].
  rewrite Hmv.
  destruct (movenode2 state1 (Z.lor board (shl64 tile 1)) (fmul cprob f0_1))
    as [[v2 state2]|]; [apply IH|reflexivity].
Qed.

Lemma score_tilechoose_node_tables fuel :
  same_results (score_tilechoose_node t1 pow use_cache fuel)
               (score_tilechoose_node t2 pow use_cache fuel).
Proof.
  induction fuel as [|fuel IH]; intros state board cprob; [reflexivity|].
  cbn [score_tilechoose_node].
  destruct (flt cprob CPROB_THRESH_BASE || (depth_limit state <=? curdepth state));
    [reflexivity|].
  destruct (cache_lookup use_cache state board); [reflexivity|].
  now rewrite (tile_loop_same_results _ _ (score_move_node_with_tables _ _ IH)).
Qed.

Lemma toplevel_loop_tables board : forall moves best bestmove state,
  toplevel_loop t1 pow use_cache moves board best bestmove state
  = toplevel_loop t2 pow use_cache moves board best bestmove state.
Proof.
  induction moves as [|move moves IH]; intros best bestmove state; [reflexivity|].
  cbn [toplevel_loop]. unfold internal_score_toplevel_move.
  rewrite same_moves, score_tilechoose_node_tables.
  destruct (board =? do_execute_move t2 move board).
  - destruct (flt best (float_of_int 0)); apply IH.
  - destruct (score_tilechoose_node t2 pow use_cache (search_fuel state) state
                (do_execute_move t2 move board) (float_of_int 1))
      as [[v state']|]; [|reflexivity].
    destruct (flt best (float_of_double (SFadd 53 1024 (double_of_float v) d1em6)));
      apply IH.
Qed.

Lemma ai_find_best_move_ex_tables board :
  ai_find_best_move_ex t1 pow use_cache board
  = ai_find_best_move_ex t2 pow use_cache board.
Proof. apply toplevel_loop_tables. Qed.
End Tables.

Lemma do_execute_move_tables t1 t2 :
  (forall r, is_row r -> row_left_table t1 r = row_left_table t2 r) ->
  (forall r, is_row r -> row_right_table t1 r = row_right_table t2 r) ->
  (forall r, is_row r -> col_up_table t1 r = col_up_table t2 r) ->
  (forall r, is_row r -> col_down_table t1 r = col_down_table t2 r) ->
  forall d b, do_execute_move t1 d b = do_execute_move t2 d b.
Proof.
  intros Hl Hr Hu Hd d b. unfold do_execute_move.
  unfold execute_move_0, execute_move_1, execute_move_2, execute_move_3.
  cbv zeta.
  fold (board_row b 0) (board_row b 16) (board_row b 32) (board_row b 48).
  fold (board_row (transpose b) 0) (board_row (transpose b) 16)
       (board_row (transpose b) 32) (board_row (transpose b) 48).
  rewrite !Hl, !Hr, !Hu, !Hd by apply board_row_is_row. reflexivity.
Qed.

(** The direct tables give the moves of the initialised tables. *)
Lemma do_execute_move_direct d b :
  do_execute_move do_init_tables d b = do_execute_move direct_tables d b.
Proof.
  apply do_execute_move_tables; intros r Hr.
  - exact (row_left_table_init r Hr).
  - exact (row_right_table_init r Hr).
  - exact (col_up_table_init r Hr).
  - exact (col_down_table_init r Hr).
Qed.

Lemma ai_find_best_move_ex_direct pow use_cache board :
  ai_find_best_move_ex do_init_tables pow use_cache board
  = ai_find_best_move_ex direct_tables pow use_cache board.
Proof. apply ai_find_best_move_ex_tables, do_execute_move_direct. Qed.

(** ** Without a cache hit the cache changes nothing *)

Section Cache.
Variable t : move_tables.
Variable pow : double -> double -> double.

Lemma move_loop_follows chance_c chance_u board cprob :
  follows_without_hit chance_c chance_u ->
  forall moves best s_c s_u v s_c',
    move_loop t chance_c board cprob moves best s_c = Some (v, s_c') ->
    cachehits s_c <= cachehits s_c' /\
    (cachehits s_c' = cachehits s_c -> same_counters s_c s_u ->
     exists s_u',
       move_loop t chance_u board cprob moves best s_u = Some (v, s_u')
       /\ same_counters s_c' s_u').
Proof.
  intros Hch. induction moves as [|move moves IH]; intros best s_c s_u v s_c' H.
  - cbn [move_loop] in *. injection H as <- <-. split; [lia|].
    intros _ Hs. exists s_u. split; [reflexivity|assumption].
  - cbn [move_loop] in *.
    set (c1 := set_moves_evaled s_c (add64 (moves_evaled s_c) 1)) in *.
    set (u1 := set_moves_evaled s_u (add64 (moves_evaled s_u) 1)).
    assert (cachehits c1 = cachehits s_c) as Hc1 by reflexivity.
    assert (same_counters s_c s_u -> same_counters c1 u1) as Hs1.
    { unfold c1, u1. intros Hs. counters.
      destruct Hs as (? & ? & ? & -> & ?). auto. }
    destruct (negb (board =? do_execute_move t move board)).
    + destruct (chance_c c1 (do_execute_move t move board) cprob)
        as [[v1 c2]|] eqn:E1; [|discriminate H].
      destruct (Hch c1 u1 _ _ _ _ E1) as [M1 S1].
      destruct (IH _ c2 u1 _ _ H) as [M2 _].
      split; [lia|]. intros Heq Hs.
      destruct (S1 ltac:(lia) (Hs1 Hs)) as (u2 & -> & Hs2).
      destruct (IH _ c2 u2 _ _ H) as [_ S2].
      apply S2; [lia|assumption].
    + destruct (IH _ c1 u1 _ _ H) as [M2 S2].
      split; [lia|]. intros Heq Hs. apply S2; [lia|auto].
Qed.

Lemma score_move_node_with_follows chance_c chance_u :
  follows_without_hit chance_c chance_u ->
  follows_without_hit (score_move_node_with t chance_c)
                      (score_move_node_with t chance_u).
Proof.
  intros Hch s_c s_u board cprob v s_c' H. unfold score_move_node_with in *.
  destruct (move_loop t chance_c board cprob [0; 1; 2; 3] fzero
              (set_curdepth s_c (curdepth s_c + 1)))
    as [[w c1]|] eqn:E; [|discriminate H].
  injection H as <- <-.
  destruct (move_loop_follows chance_c chance_u board cprob Hch _ _ _
              (set_curdepth s_u (curdepth s_u + 1)) _ _ E) as [M S].
  counters. split; [exact M|]. intros Heq Hs.
  destruct (S Heq) as (u1 & -> & Hs1).
  - destruct Hs as (? & -> & ? & ? & ?). auto.
  - eexists. split; [reflexivity|].
    destruct Hs1 as (? & -> & ? & ? & ?). auto.
Qed.

Lemma tile_loop_follows movenode_c movenode_u board cprob :
  follows_without_hit movenode_c movenode_u ->
  forall n tmp tile res s_c s_u v s_c',
    tile_loop n movenode_c board cprob tmp tile res s_c = Some (v, s_c') ->
    cachehits s_c <= cachehits s_c' /\
    (cachehits s_c' = cachehits s_c -> same_counters s_c s_u ->
     exists s_u',
       tile_loop n movenode_u board cprob tmp tile res s_u = Some (v, s_u')
       /\ same_counters s_c' s_u').
Proof.
  intros Hmv. induction n as [|n IH]; intros tmp tile res s_c s_u v s_c' H;
    [discriminate H|].
  cbn [tile_loop] in *. destruct (tile =? 0).
  - injection H as <- <-. split; [lia|].
    intros _ Hs. exists s_u. split; [reflexivity|assumption].
  - destruct (Z.land tmp 15 =? 0); [|now apply IH].
    destruct (movenode_c s_c (Z.lor board tile) (fmul cprob f0_9))
      as [[v1 c1]|] eqn:E1; [|discriminate H].
    destruct (movenode_c c1 (Z.lor board (shl64 tile 1)) (fmul cprob f0_1))
      as [[v2 c2]|] eqn:E2; [|discriminate H].
    destruct (Hmv s_c s_u _ _ _ _ E1) as [M1 S1].
    destruct (Hmv c1 s_u _ _ _ _ E2) as [M2 _].
    destruct (IH _ _ _ c2 s_u _ _ H) as [M3 _].
    split; [lia|]. intros Heq Hs.
    destruct (S1 ltac:(lia) Hs) as (u1 & -> & Hs1).
    destruct (Hmv c1 u1 _ _ _ _ E2) as [_ S2].
    destruct (S2 ltac:(lia) Hs1) as (u2 & -> & Hs2).
    destruct (IH _ _ _ c2 u2 _ _ H) as [_ S3].
    apply S3; [lia|assumption].
Qed.

Lemma score_tilechoose_node_follows fuel :
  follows_without_hit (score_tilechoose_node t pow true fuel)
                      (score_tilechoose_node t pow false fuel).
Proof.
  induction fuel as [|fuel IH]; intros s_c s_u board cprob v s_c' H;
    [discriminate H|].
  cbn [score_tilechoose_node] in *.
  destruct (flt cprob CPROB_THRESH_BASE || (depth_limit s_c <=? curdepth s_c))
    eqn:Hleaf.
  - injection H as <- <-. counters. split; [lia|].
    intros _ Hs. destruct Hs as (Hm & Hc & Hh & He & Hd).
    rewrite Hd, Hc, Hleaf. eexists. split; [reflexivity|].
    counters. rewrite Hm, Hc. auto.
  - destruct (cache_lookup true s_c board) as [h|].
    + injection H as <- <-. counters. split; [lia|]. intros Heq. lia.
    + destruct (tile_loop 17
                  (score_move_node_with t (score_tilechoose_node t pow true fuel))
                  board (fdiv cprob (float_of_int (count_empty board)))
                  board 1 fzero s_c) as [[res c1]|] eqn:E; [|discriminate H].
      injection H as <- <-.
      destruct (tile_loop_follows _ _ board _
                  (score_move_node_with_follows _ _ IH) _ _ _ _ _ s_u _ _ E)
        as [M S].
      assert (forall (b : bool) m,
                cachehits (if b then set_trans_table c1 m else c1) = cachehits c1)
        as Hh by (intros [] m; reflexivity).
      rewrite Hh. split; [exact M|]. intros Heq Hs.
      destruct (S Heq Hs) as (u1 & Hu & Hs1).
      destruct Hs as (Hm & Hc & _ & _ & Hd).
      rewrite Hd, Hc, Hleaf.
      change (cache_lookup false s_u board) with (@None float).
      rewrite Hu. cbn [andb]. eexists. split; [reflexivity|].
      destruct (curdepth c1 <? CACHE_DEPTH_LIMIT); exact Hs1.
Qed.

Lemma toplevel_loop_follows board : forall moves best bestmove s_c s_u move s_c',
  toplevel_loop t pow true moves board best bestmove s_c = Some (move, s_c') ->
  cachehits s_c <= cachehits s_c' /\
  (cachehits s_c' = cachehits s_c -> same_counters s_c s_u ->
   exists s_u',
     toplevel_loop t pow false moves board best bestmove s_u = Some (move, s_u')
     /\ same_counters s_c' s_u').
Proof.
  induction moves as [|m moves IH]; intros best bestmove s_c s_u move s_c' H.
  - cbn [toplevel_loop] in *. injection H as <- <-. split; [lia|].
    intros _ Hs. exists s_u. split; [reflexivity|assumption].
  - cbn [toplevel_loop] in *. unfold internal_score_toplevel_move in *.
    destruct (board =? do_execute_move t m board).
    + destruct (flt best (float_of_int 0)); now apply IH.
    + destruct (score_tilechoose_node t pow true (search_fuel s_c) s_c
                  (do_execute_move t m board) (float_of_int 1))
        as [[v c1]|] eqn:E; [|discriminate H].
      destruct (score_tilechoose_node_follows _ s_c s_u _ _ _ _ E) as [M1 S1].
      assert (cachehits c1 <= cachehits s_c') as M2.
      { destruct (flt best (float_of_double (SFadd 53 1024 (double_of_float v) d1em6)));
          apply (IH _ _ c1 s_u _ _ H). }
      split; [lia|]. intros Heq Hs.
      destruct (S1 ltac:(lia) Hs) as (u1 & Hu & Hs1).
      assert (search_fuel s_u = search_fuel s_c) as ->.
      { unfold search_fuel. destruct Hs as (_ & -> & _ & _ & ->). reflexivity. }
      rewrite Hu.
      destruct (flt best (float_of_double (SFadd 53 1024 (double_of_float v) d1em6)));
        apply (IH _ _ c1 u1 _ _ H); (lia || assumption).
Qed.
End Cache.

(** ** The claim on the cache *)

(** C3, as the code has it.  Each call of [ai_find_best_move] starts from
    [toplevel_state], with an empty table, and returns: the direction is a
    function of the board.  The table is not transparent (an entry stored
    at one depth answers every later visit at that depth or below it, see
    [cache_changes_direction]); what holds is that a search with the table
    which ends with no cache hit recorded has the direction of the search
    without the table, and the same counters. *)
Theorem cache_agrees_without_hit t pow board :
  exists move state,
    ai_find_best_move_ex t pow true board = Some (move, state) /\
    (cachehits state = 0 ->
     ai_find_best_move t pow false board = Some move /\
     exists state',
       ai_find_best_move_ex t pow false board = Some (move, state')
       /\ same_counters state state').
Proof.
  destruct (ai_find_best_move_ex_returns t pow true board)
    as (move & state & E & _ & _).
  exists move, state. split; [exact E|]. intros Hh.
  unfold ai_find_best_move_ex in E.
  destruct (toplevel_loop_follows t pow board _ _ _ _ (toplevel_state board) _ _ E)
    as [_ S].
  destruct S as (state' & E' & Hs);
    [rewrite Hh; reflexivity|apply same_counters_refl|].
  unfold ai_find_best_move, ai_find_best_move_ex. rewrite E'.
  split; [reflexivity|]. exists state'. split; [reflexivity|exact Hs].
Qed.

(** On this board the search without the table evaluates leaves at depth 4
    and the search with it records no hit: both go down. *)
Lemma cache_agrees_without_hit_witness :
  (exists state,
     ai_find_best_move_ex do_init_tables pow_ref true 0x1856512216858758
     = Some (2, state) /\ cachehits state = 0 /\ maxdepth state = 4) /\
  ai_find_best_move do_init_tables pow_ref false 0x1856512216858758 = Some 2.
Proof.
  assert (exists state,
            ai_find_best_move_ex direct_tables pow_ref true 0x1856512216858758
            = Some (2, state) /\ cachehits state = 0 /\ maxdepth state = 4) as R.
  { vm_compute. eexists. split; [reflexivity|]. split; reflexivity. }
  destruct R as (state & E & Hh & Hm).
  pose proof (eq_trans (ai_find_best_move_ex_direct pow_ref true 0x1856512216858758) E)
    as E0.
  split; [exists state; split; [exact E0|split; assumption]|].
  destruct (cache_agrees_without_hit do_init_tables pow_ref 0x1856512216858758)
    as (move & state0 & E1 & H).
  pose proof (eq_trans (eq_sym E1) E0) as E2.
  injection E2 as -> ->.
  destruct (H Hh) as (H2 & _). exact H2.
Defined.

(** C3 as the spec states it fails.  On this board every line of play that
    the search with the table follows ends the game within the depth limit,
    so its entries hold the value 0; one of them, stored at depth 1,
    answers a visit at depth 2, where the search without the table reaches
    the depth limit with the game still on and evaluates the heuristic.
    With the table the answer is up, the first legal direction; without it,
    right.  [pow_ref] is the correctly rounded power. *)
Lemma cache_changes_direction :
  ai_find_best_move do_init_tables pow_ref true 0x6522426534261256 = Some 0 /\
  ai_find_best_move do_init_tables pow_ref false 0x6522426534261256 = Some 3.
Proof.
  assert (ai_find_best_move_ex direct_tables pow_ref true 0x6522426534261256
          = ai_find_best_move_ex do_init_tables pow_ref true 0x6522426534261256) as E1
    by (symmetry; apply ai_find_best_move_ex_direct).
  assert (ai_find_best_move_ex direct_tables pow_ref false 0x6522426534261256
          = ai_find_best_move_ex do_init_tables pow_ref false 0x6522426534261256) as E2
    by (symmetry; apply ai_find_best_move_ex_direct).
  unfold ai_find_best_move. rewrite <- E1, <- E2.
  split; vm_compute; reflexivity.
Qed.

(** * The moves on grids of cells *)

Lemma pack_nibbles n : forall b,
  0 <= b < 16 ^ Z.of_nat n -> pack_line (nibbles n b) = b.
Proof.
  induction n as [|n IH]; intros b Hb.
  - cbn [nibbles pack_line]. change (16 ^ Z.of_nat 0) with 1 in Hb. lia.
  - cbn [nibbles pack_line]. rewrite nibble_mod.
    rewrite Nat2Z.inj_succ, Z.pow_succ_r in Hb by lia.
    rewrite IH.
    + rewrite Z.shiftr_div_pow2 by lia. change (2 ^ 4) with 16.
      Z.div_mod_to_equations. lia.
    + rewrite Z.shiftr_div_pow2 by lia. change (2 ^ 4) with 16.
      split; [apply Z.div_pos; lia|apply Z.div_lt_upper_bound; lia].
Qed.

Lemma pack_nibbles_row r : is_row r -> pack_line (nibbles 4 r) = r.
Proof. intros Hr. apply pack_nibbles. exact Hr. Qed.

Lemma pack_nibbles_board b : is_board b -> pack_line (nibbles 16 b) = b.
Proof. intros Hb. apply pack_nibbles. exact Hb. Qed.

Lemma join_rows_cells r0 r1 r2 r3 :
  is_row r0 -> is_row r1 -> is_row r2 -> is_row r3 ->
  join_rows r0 r1 r2 r3
  = pack_line (nibbles 4 r0 ++ nibbles 4 r1 ++ nibbles 4 r2 ++ nibbles 4 r3).
Proof.
  intros H0 H1 H2 H3.
  rewrite <- (pack_nibbles_board (join_rows r0 r1 r2 r3))
    by now apply join_rows_is_board.
  rewrite nibbles_16_rows.
  destruct (board_row_join r0 r1 r2 r3 H0 H1 H2 H3) as (-> & -> & -> & ->).
  reflexivity.
Qed.

Lemma grid_board_rows b :
  grid b = [nibbles 4 (board_row b 0); nibbles 4 (board_row b 16);
            nibbles 4 (board_row b 32); nibbles 4 (board_row b 48)].
Proof.
  unfold grid, grid_rows. rewrite nibbles_16_rows, !nibbles_line.
  unfold line_of_row. reflexivity.
Qed.

(** A function on rows that acts as [g] on the cells acts as [g] on each
    row of the grid. *)
Lemma map_rows_grid f g b :
  (forall r, is_row r -> is_row (f r)) ->
  (forall r, is_row r -> nibbles 4 (f r) = g (nibbles 4 r)) ->
  map_rows f b = board_of_grid (map g (grid b)).
Proof.
  intros Hf Hg. unfold map_rows, board_of_grid.
  rewrite join_rows_cells by apply Hf, board_row_is_row.
  rewrite !Hg by apply board_row_is_row.
  rewrite grid_board_rows. cbn [map concat]. now rewrite app_nil_r.
Qed.

Lemma nibbles_reverse_row r :
  is_row r -> nibbles 4 (reverse_row r) = rev (nibbles 4 r).
Proof. intros Hr. rewrite !nibbles_line. now apply line_of_reverse_row. Qed.

Lemma nibbles_slide_left r :
  is_row r -> nibbles 4 (slide_left r) = reference_line (nibbles 4 r).
Proof.
  intros Hr. rewrite !nibbles_line, line_of_slide_left.
  exact (line_reference _ _ _ _ _ (slide_line_facts _ (line_of_row_is_line r))).
Qed.

Lemma nibbles_slide_right r :
  is_row r -> nibbles 4 (slide_right r) = rev (reference_line (rev (nibbles 4 r))).
Proof.
  intros Hr. unfold slide_right.
  rewrite nibbles_reverse_row by (apply slide_left_is_row, reverse_row_is_row).
  rewrite nibbles_slide_left by apply reverse_row_is_row.
  now rewrite nibbles_reverse_row.
Qed.

Lemma slide_right_reference r : is_row r -> slide_right r = reference_slide_right r.
Proof.
  intros Hr. unfold reference_slide_right.
  rewrite <- (nibbles_slide_right r Hr).
  symmetry. apply pack_nibbles_row, slide_right_is_row.
Qed.

Lemma unpack_col_reference r :
  is_row r -> unpack_col r = reference_column (nibbles 4 r).
Proof.
  intros Hr. unfold reference_column.
  rewrite <- (pack_nibbles_board (unpack_col r))
    by (rewrite (unpack_col_transpose r Hr); apply transpose_is_board).
  f_equal. rewrite (unpack_col_transpose r Hr). transposed_cells r.
  rewrite (nib_row_high r 4), (nib_row_high r 5), (nib_row_high r 6),
          (nib_row_high r 7), (nib_row_high r 8), (nib_row_high r 9),
          (nib_row_high r 10), (nib_row_high r 11), (nib_row_high r 12),
          (nib_row_high r 13), (nib_row_high r 14), (nib_row_high r 15)
    by (assumption || lia).
  rewrite nibbles_line. unfold line_of_row, nib. cbn [flat_map app]. reflexivity.
Qed.

Lemma mirror_rows b : map_rows reverse_row b = mirror b.
Proof.
  apply map_rows_grid.
  - intros r _. apply reverse_row_is_row.
  - apply nibbles_reverse_row.
Qed.

Lemma transpose_reference b : transpose b = reference_transpose b.
Proof.
  unfold reference_transpose, board_of_grid.
  rewrite <- (pack_nibbles_board (transpose b)) by apply transpose_is_board.
  f_equal. unfold grid. transposed_cells b.
  reflexivity.
Qed.

Lemma execute_move_3_mirror b :
  is_board b ->
  execute_move_3 do_init_tables b
  = map_rows reverse_row (execute_move_2 do_init_tables (map_rows reverse_row b)).
Proof.
  intros Hb. rewrite execute_move_3_rows by assumption.
  rewrite execute_move_2_rows
    by (apply map_rows_is_board; intros r _; apply reverse_row_is_row).
  rewrite (map_rows_compose reverse_row slide_left)
    by (intros; now apply slide_left_is_row).
  rewrite (map_rows_compose _ reverse_row) by (intros; apply reverse_row_is_row).
  apply map_rows_ext. intros r _. reflexivity.
Qed.

(** C5: for each row the left table holds the brute-force slide to the
    left, the right table the brute-force slide to the right, and the up
    and down tables the same two results stood in the first column; the
    left move is the brute-force slide of each row of the grid, and the
    right, up and down moves are the left move between two reversals of
    the rows or two exchanges of rows and columns.  The references are
    computed on lists of cells. *)
Theorem move_tables_match_reference (row b : Z) :
  is_row row -> is_board b ->
  Z.lxor row (row_left_table do_init_tables row) = reference_slide_left row /\
  Z.lxor row (row_right_table do_init_tables row) = reference_slide_right row /\
  col_up_table do_init_tables row =
    Z.lxor (reference_column (nibbles 4 row))
           (reference_column (reference_line (nibbles 4 row))) /\
  col_down_table do_init_tables row =
    Z.lxor (reference_column (nibbles 4 row))
           (reference_column (rev (reference_line (rev (nibbles 4 row))))) /\
  ai_execute_move do_init_tables 2 b = reference_move_left b /\
  ai_execute_move do_init_tables 3 b =
    mirror (ai_execute_move do_init_tables 2 (mirror b)) /\
  ai_execute_move do_init_tables 0 b =
    reference_transpose (ai_execute_move do_init_tables 2 (reference_transpose b)) /\
  ai_execute_move do_init_tables 1 b =
    reference_transpose (ai_execute_move do_init_tables 3 (reference_transpose b)).
Proof.
  intros Hr Hb.
  rewrite <- (slide_left_reference row Hr), <- (slide_right_reference row Hr).
  rewrite <- (nibbles_slide_left row Hr), <- (nibbles_slide_right row Hr).
  rewrite <- !unpack_col_reference
    by (assumption || apply slide_right_is_row || now apply slide_left_is_row).
  rewrite (row_left_table_init row Hr), (row_right_table_init row Hr).
  rewrite (col_up_table_init row Hr), (col_down_table_init row Hr).
  rewrite !lxor_cancel. unfold ai_execute_move.
  rewrite do_execute_move_0, do_execute_move_1, !do_execute_move_2, !do_execute_move_3.
  rewrite <- !mirror_rows, <- !transpose_reference.
  do 4 (split; [reflexivity|]).
  split.
  { rewrite execute_move_2_rows by assumption.
    apply map_rows_grid; [intros; now apply slide_left_is_row|].
    apply nibbles_slide_left. }
  split; [now apply execute_move_3_mirror|].
  split.
  - rewrite execute_move_0_rows by assumption.
    now rewrite execute_move_2_rows by apply transpose_is_board.
  - rewrite execute_move_1_rows by assumption.
    now rewrite execute_move_3_rows by apply transpose_is_board.
Qed.

(** The row [1, 1, 2, 0] moved to the right is [0, 0, 2, 2]; the board is
    the one with that row only. *)
Lemma move_tables_match_reference_witness :
  Z.lxor 0x0211 (row_right_table do_init_tables 0x0211) = reference_slide_right 0x0211 /\
  reference_slide_right 0x0211 = 0x2200 /\
  ai_execute_move do_init_tables 3 0x0000000000000211 =
    mirror (ai_execute_move do_init_tables 2 (mirror 0x0000000000000211)).
Proof.
  assert (is_row 0x0211) as Hr by (unfold is_row; lia).
  assert (is_board 0x0000000000000211) as Hb by (unfold is_board; lia).
  destruct (move_tables_match_reference 0x0211 0x0000000000000211 Hr Hb)
    as (_ & H2 & _ & _ & _ & H6 & _).
  split; [exact H2|]. split; [reflexivity|exact H6].
Defined.
